(** * hidl-gen: the text emitter (utils/Formatter.cpp) and the driver (main.cpp)

    A shallow embedding of the indentation-aware [Formatter] and of the
    driver's package analysis, backend dispatch, text backends and command
    line, with the properties the design document states about them and
    further properties read off the code. *)

From Stdlib Require Import String Ascii ZArith List Lia Bool Sorted.
From Stdlib Require OrdersEx.
From stdpp Require Import base option countable gmap strings list.
From Equations Require Import Equations.

#[local] Arguments String.append : simpl nomatch.
#[local] Set Warnings "-clear-no-such-hyp".

(** ** std::string *)

(** The newline character and the one-character string the emitter searches
    for ([out.find("\n", start)]). *)
Definition newline : ascii := "010"%char.
Definition nl : string := String newline "".

Module StdString.

(** [s.find(needle, pos)]: [None] is [std::string::npos]. *)
Definition find (s needle : string) (pos : nat) : option nat :=
  String.index pos needle s.

(** [s.substr(pos, n)]; the count is clipped at the end of [s]. *)
Definition substr (s : string) (pos n : nat) : string :=
  String.substring pos n s.

(** [s.substr(pos)]. *)
Definition substr_from (s : string) (pos : nat) : string :=
  String.substring pos (String.length s - pos) s.

(** The suffix of [s] that starts at position [n]. *)
Fixpoint drop (n : nat) (s : string) : string :=
  match n, s with
  | O, _ => s
  | S _, "" => ""
  | S n', String _ s' => drop n' s'
  end.

(** The NUL character, and [s.c_str()] read as a C string: the characters of
    [s] before its first NUL. *)
Definition NUL : ascii := "000"%char.

Fixpoint c_str (s : string) : string :=
  match s with
  | "" => ""
  | String c s' => if decide (c = NUL) then "" else String c (c_str s')
  end.

(** A text that holds no NUL character. *)
Fixpoint nul_free (s : string) : bool :=
  match s with
  | "" => true
  | String c s' => negb (bool_decide (c = NUL)) && nul_free s'
  end.

(** [n] blanks: what [fprintf(f, "%*s", n, "")] prints. *)
Fixpoint spaces (n : nat) : string :=
  match n with
  | O => ""
  | S n' => String " "%char (spaces n')
  end.

End StdString.
Import StdString.

Definition inspect {A} (a : A) : {b | a = b} := exist _ a eq_refl.

(** ** stdio streams *)

Inductive FILE := stdout | stream (fd : nat).

#[global] Instance FILE_eq_dec : EqDecision FILE.
Proof. solve_decision. Defined.

#[global] Instance FILE_countable : Countable FILE.
Proof.
  refine (inj_countable'
            (fun f => match f with stdout => None | stream fd => Some fd end)
            (fun o => match o with None => stdout | Some fd => stream fd end) _).
  intros []; reflexivity.
Defined.

(** The bytes written so far to every stream of the process. *)
Abbreviation Streams := (gmap FILE string).

Definition contents (io : Streams) (fp : FILE) : string := default "" (io !! fp).

(** The bytes [t] put at the end of the stream [fp]; no byte changes
    nothing. *)
Definition append_bytes (t : string) (fp : FILE) (io : Streams) : Streams :=
  if decide (t = "") then io else <[fp := contents io fp +:+ t]> io.

(** [fprintf(fp, "%s", s.c_str())]: the conversion prints the characters
    before the first NUL of [s]. *)
Definition fputs (s : string) (fp : FILE) (io : Streams) : Streams :=
  append_bytes (c_str s) fp io.

(** ** Formatter *)

Module Fmt.

(** [size_t] is 64 bits wide, [int] 32. *)
Definition SIZE_MOD : Z := (2 ^ 64)%Z.
Definition INT_MAX : Z := (2 ^ 31 - 1)%Z.
Definition INT_MIN : Z := (- 2 ^ 31)%Z.

(** The conversion [(int)x] of a [size_t]: keep the low 32 bits, read as
    two's complement. *)
Definition to_int (x : Z) : Z :=
  let m := (x mod 2 ^ 32)%Z in
  if (m <? 2 ^ 31)%Z then m else (m - 2 ^ 32)%Z.

Record Formatter := mkFormatter {
  mFile : FILE;
  mIndentDepth : Z;
  mAtStartOfLine : bool;
  mLinePrefix : string;
  mSpace : string
}.

Definition setIndentDepth (d : Z) (f : Formatter) : Formatter :=
  mkFormatter (mFile f) d (mAtStartOfLine f) (mLinePrefix f) (mSpace f).

Definition setAtStartOfLine (b : bool) (f : Formatter) : Formatter :=
  mkFormatter (mFile f) (mIndentDepth f) b (mLinePrefix f) (mSpace f).

(** [Formatter::Formatter(FILE *file)]; [None] is the null pointer. *)
Definition Formatter_ctor (file : option FILE) : Formatter :=
  mkFormatter (match file with None => stdout | Some fp => fp end) 0 true "" "".

(** [Formatter::indent(size_t level)]. *)
Definition indent (level : Z) (f : Formatter) : Formatter :=
  setIndentDepth ((mIndentDepth f + level) mod SIZE_MOD)%Z f.

(** [Formatter::unindent(size_t level)]; [None] is the failed [assert],
    which prints the violated condition and aborts the process. *)
Definition unindent (level : Z) (f : Formatter) : option Formatter :=
  if (level <=? mIndentDepth f)%Z
  then Some (setIndentDepth (mIndentDepth f - level)%Z f)
  else None.

(** [Formatter::indent(size_t level, std::function<void(void)> func)]; the
    body works on the emitter it captured and may itself fail an assertion. *)
Definition indent_scoped (level : Z)
    (func : Formatter * Streams -> option (Formatter * Streams))
    (st : Formatter * Streams) : option (Formatter * Streams) :=
  match func (indent level (fst st), snd st) with
  | None => None
  | Some (f1, io1) =>
      match unindent level f1 with
      | Some f2 => Some (f2, io1)
      | None => None
      end
  end.

(** [Formatter::indent(std::function<void(void)> func)]. *)
Definition indent_scoped1
    (func : Formatter * Streams -> option (Formatter * Streams))
    (st : Formatter * Streams) : option (Formatter * Streams) :=
  indent_scoped 1 func st.

(** [Formatter::setLinePrefix], [unsetLinePrefix], [setNamespace]. *)
Definition setLinePrefix (prefix : string) (f : Formatter) : Formatter :=
  mkFormatter (mFile f) (mIndentDepth f) (mAtStartOfLine f) prefix (mSpace f).

Definition unsetLinePrefix (f : Formatter) : Formatter :=
  setLinePrefix "" f.

Definition setNamespace (space : string) (f : Formatter) : Formatter :=
  mkFormatter (mFile f) (mIndentDepth f) (mAtStartOfLine f) (mLinePrefix f) space.

(** The blanks printed by [fprintf(mFile, "%*s", (int)(4 * mIndentDepth), "")]:
    the product is taken in [size_t], converted to [int], and a negative
    field width pads to its absolute value. [INT_MIN] has no absolute value
    in [int]: the conversion fails and nothing is printed. *)
Definition indent_width (f : Formatter) : nat :=
  let width := to_int ((4 * mIndentDepth f) mod SIZE_MOD)%Z in
  if (width =? INT_MIN)%Z then O else Z.to_nat (Z.abs width).

(** The two [fprintf]s that open a line: the line prefix, then the
    indentation. *)
Definition print_line_start (f : Formatter) (io : Streams) : Streams :=
  fputs (spaces (indent_width f)) (mFile f) (fputs (mLinePrefix f) (mFile f) io).

(** Termination of the two scanning loops: a match is found at or after
    the position the search starts from, and strictly inside the text when
    the needle is not empty. *)
Lemma find_ge s needle pos p : find s needle pos = Some p -> pos <= p.
Proof.
  unfold find. revert pos p.
  induction s as [|c s IH]; intros [|n] p; simpl.
  - destruct needle; [intros [= <-]; lia | discriminate].
  - discriminate.
  - lia.
  - destruct (index n needle s) eqn:E; [|discriminate].
    intros [= <-]. apply IH in E. lia.
Qed.

Lemma substring_length_le m t :
  String.length (substring 0 m t) <= String.length t.
Proof.
  revert m. induction t as [|d t IHt]; intros [|m]; simpl; try lia.
  specialize (IHt m). lia.
Qed.

Lemma find_lt s needle pos p :
  0 < String.length needle -> find s needle pos = Some p ->
  p + String.length needle <= String.length s.
Proof.
  unfold find. intros Hn. revert pos p.
  induction s as [|c s IH]; intros [|n] p; cbn [index]; try discriminate.
  - destruct needle; [simpl in Hn; lia | discriminate].
  - destruct (String.prefix needle (String c s)) eqn:P.
    + intros [= <-]. apply prefix_correct in P.
      pose proof (substring_length_le (String.length needle) (String c s)) as Hle.
      rewrite P in Hle. lia.
    + destruct (index 0 needle s) eqn:E; [|discriminate].
      intros [= <-]. apply IH in E. simpl. lia.
  - destruct (index n needle s) eqn:E; [|discriminate].
    intros [= <-]. apply IH in E. simpl. lia.
Qed.

(** The [while] loop of [Formatter::output]: [newText] collects the text
    between the matches of [space]. *)
Equations? output_loop (text space : string) (Hsp : 0 < String.length space)
    (startPos : nat) (newText : string) : string
    by wf (String.length text - startPos) lt :=
  output_loop text space Hsp startPos newText
    with inspect (find text space startPos) := {
    | exist _ None _ => newText +:+ substr_from text startPos
    | exist _ (Some matchPos) e =>
        output_loop text space Hsp (matchPos + String.length space)
          (newText +:+ substr text startPos (matchPos - startPos)) }.
Proof.
  pose proof (find_ge _ _ _ _ e). pose proof (find_lt _ _ _ _ Hsp e). lia.
Qed.

(** [Formatter::output(const std::string &text)]. *)
Definition output (f : Formatter) (text : string) (io : Streams) : Streams :=
  match lt_dec 0 (String.length (mSpace f)) with
  | left Hsp =>
      match find text (mSpace f) 0 with
      | Some matchPos =>
          let newText := substr text 0 matchPos in
          let startPos := matchPos + String.length (mSpace f) in
          fputs (output_loop text (mSpace f) Hsp startPos newText) (mFile f) io
      | None => fputs text (mFile f) io
      end
  | right _ => fputs text (mFile f) io
  end.

(** The [while (start < len)] loop of [Formatter::operator<<]. *)
Equations? shl_loop (out : string) (start : nat) (st : Formatter * Streams)
    : Formatter * Streams by wf (String.length out - start) lt :=
  shl_loop out start st with Nat.ltb start (String.length out) := {
    | false => st
    | true with inspect (find out nl start) := {
        | exist _ None _ =>
            let st1 :=
              if mAtStartOfLine (fst st)
              then (setAtStartOfLine false (fst st),
                    print_line_start (fst st) (snd st))
              else st in
            (fst st1, output (fst st1) (substr_from out start) (snd st1))
        | exist _ (Some pos) e =>
            let st1 :=
              if Nat.eqb pos start then
                (setAtStartOfLine true (fst st), fputs nl (mFile (fst st)) (snd st))
              else if Nat.ltb start pos then
                let io1 :=
                  if mAtStartOfLine (fst st)
                  then print_line_start (fst st) (snd st)
                  else snd st in
                (setAtStartOfLine true (fst st),
                 output (fst st) (substr out start (pos - start + 1)) io1)
              else st in
            shl_loop out (pos + 1) st1 } }.
Proof.
  pose proof (find_ge _ _ _ _ e).
  assert (0 < String.length nl) as Hnl by (simpl; lia).
  pose proof (find_lt _ _ _ _ Hnl e). simpl in *. lia.
Qed.

(** [Formatter &Formatter::operator<<(const std::string &out)]. *)
Definition operator_shl (st : Formatter * Streams) (out : string)
    : Formatter * Streams :=
  shl_loop out 0 st.

(** Several [<<] in a row. *)
Definition shl_all (st : Formatter * Streams) (outs : list string)
    : Formatter * Streams :=
  fold_left operator_shl outs st.

End Fmt.
Import Fmt.

(** ** FQName, AST and Coordinator: what main.cpp uses of them *)

(** The fields of an [FQName] the driver reads: [isValid()], [package()],
    [version()] and [name()]. The class itself (FQName.cpp) is not part of
    the sources under verification. *)
Record FQName := mkFQName {
  isValid : bool;
  package : string;
  version : string;
  name : string
}.

#[global] Instance FQName_eq_dec : EqDecision FQName.
Proof. solve_decision. Defined.

#[global] Instance FQName_countable : Countable FQName.
Proof.
  refine (inj_countable'
            (fun q => (isValid q, package q, version q, name q))
            (fun t => match t with (v, p, r, n) => mkFQName v p r n end) _).
  intros []; reflexivity.
Defined.

Definition empty (s : string) : bool := if decide (s = "") then true else false.

(** Modelled from the spec: [FQName::isFullyQualified] (FQName.cpp is not
    among the sources). A name is either package-only, with an empty [name],
    or fully qualified: package, version and name all present. *)
Definition isFullyQualified (q : FQName) : bool :=
  negb (empty (package q)) && negb (empty (version q)) && negb (empty (name q)).

(** Modelled from the spec: [FQName::getTypesForPackage], the shared "types"
    unit of the package of [q]. *)
Definition getTypesForPackage (q : FQName) : FQName :=
  mkFQName (isValid q) (package q) (version q) "types".

Inductive status_t :=
| OK
| UNKNOWN_ERROR
| IO_ERROR.   (* the status of a package directory that cannot be enumerated *)

#[global] Instance status_t_eq_dec : EqDecision status_t.
Proof. solve_decision. Defined.

(** A top-level type declaration of a unit's root scope. *)
Record NamedType := mkNamedType {
  isTypeDef : bool;
  localName : string
}.

(** What the driver asks of a parsed unit. [getImportedPackages] and
    [getImportedPackagesHierarchy] fill a [std::set<FQName>]; the lists give
    the order in which the set is then iterated. *)
Record AST := mkAST {
  isJavaCompatible : bool;
  getImportedPackages : list FQName;
  getImportedPackagesHierarchy : list FQName;
  exportedTypes : list string;
  getSubTypes : list NamedType     (* getRootScope()->getSubTypes() *)
}.

(** The Coordinator as the driver sees it: the member units of every package
    directory it can enumerate, in enumeration order, and the parsed unit of
    every name it can parse. *)
Record Coordinator := mkCoordinator {
  packages : gmap FQName (list FQName);
  units : gmap FQName AST
}.

(** [coordinator->parse(fqName)]; [None] is the null pointer. *)
Definition parse (c : Coordinator) (fqName : FQName) : option AST :=
  units c !! fqName.

(** [coordinator->appendPackageInterfacesToVector(package, &vec)]. *)
Definition appendPackageInterfacesToVector
    (c : Coordinator) (pkg : FQName) (vec : list FQName) : status_t * list FQName :=
  match packages c !! pkg with
  | Some members => (OK, vec ++ members)
  | None => (IO_ERROR, vec)
  end.

(** ** std::vector as a list: the back of the vector is the end of the list *)

Definition back {A} (v : list A) : option A := last v.
Definition pop_back {A} (v : list A) : list A := removelast v.
Definition push_back {A} (v : list A) (x : A) : list A := v ++ [x].

(** ** isPackageJavaCompatible *)

(** What a call hands back: the status, and the value stored through the
    [bool *] when there is one. *)
Inductive result (A : Type) :=
| Ok (a : A)
| Err (err : status_t).
Arguments Ok {A} a.
Arguments Err {A} err.

(** The state of the worklist loop; [parsed] records, in order, the names
    handed to [coordinator->parse]. *)
Record Worklist := mkWorklist {
  todo : list FQName;
  seen : gset FQName;
  parsed : list FQName
}.

(** [for (const auto &iface : packageInterfaces)] in the loop body. *)
Fixpoint pushUnseen (packageInterfaces : list FQName) (wl : Worklist) : Worklist :=
  match packageInterfaces with
  | [] => wl
  | iface :: rest =>
      if decide (iface ∈ seen wl) then pushUnseen rest wl
      else pushUnseen rest
             (mkWorklist (push_back (todo wl) iface) ({[iface]} ∪ seen wl) (parsed wl))
  end.

(** [for (const auto &package : importedPackages)] in the loop body. *)
Fixpoint pushImports (c : Coordinator) (importedPackages : list FQName)
    (wl : Worklist) : result Worklist :=
  match importedPackages with
  | [] => Ok wl
  | package :: rest =>
      match appendPackageInterfacesToVector c package [] with
      | (OK, packageInterfaces) => pushImports c rest (pushUnseen packageInterfaces wl)
      | (err, _) => Err err
      end
  end.

(** [while (!todo.empty())]; [None] when [fuel] iterations were not enough. *)
Fixpoint closureLoop (fuel : nat) (c : Coordinator) (wl : Worklist)
    : option (result bool * Worklist) :=
  match fuel with
  | O => None
  | S fuel' =>
      match back (todo wl) with
      | None => Some (Ok true, wl)
      | Some fqName =>
          let wl1 := mkWorklist (pop_back (todo wl)) (seen wl) (parsed wl ++ [fqName]) in
          match parse c fqName with
          | None => Some (Err UNKNOWN_ERROR, wl1)
          | Some ast =>
              if negb (isJavaCompatible ast) then Some (Ok false, wl1)
              else
                match pushImports c (getImportedPackages ast) wl1 with
                | Err err => Some (Err err, wl1)
                | Ok wl2 => closureLoop fuel' c wl2
                end
          end
      end
  end.

(** The function up to its result and the final loop state. *)
Definition javaCompatibleRun (fuel : nat) (c : Coordinator) (packageFQName : FQName)
    : option (result bool * Worklist) :=
  match appendPackageInterfacesToVector c packageFQName [] with
  | (OK, todo0) => closureLoop fuel c (mkWorklist todo0 (list_to_set todo0) [])
  | (err, _) => Some (Err err, mkWorklist [] ∅ [])
  end.

(** [isPackageJavaCompatible(packageFQName, coordinator, &compatible)]. *)
Definition isPackageJavaCompatible (fuel : nat) (c : Coordinator)
    (packageFQName : FQName) : option (result bool) :=
  fst <$> javaCompatibleRun fuel c packageFQName.

(** ** packageNeedsJavaCode *)

(** [None]: the call does not return a value, either because
    [packageInterfaces[0]] does not exist or because [CHECK(typesAST !=
    nullptr)] fails. *)
Definition packageNeedsJavaCode (packageInterfaces : list FQName)
    (typesAST : option AST) : option bool :=
  match packageInterfaces with
  | [] => None
  | first :: _ =>
      if (1 <? length packageInterfaces)%nat || negb (String.eqb (name first) "types")
      then Some true
      else
        match typesAST with
        | None => None
        | Some ast => Some (existsb (fun subType => negb (isTypeDef subType)) (getSubTypes ast))
        end
  end.

(** ** Backends *)

(** [validateIsPackage]. *)
Definition validateIsPackage (fqName : FQName) (language : string) : bool :=
  if empty (package fqName) then false
  else if empty (version fqName) then false
  else if negb (empty (name fqName)) then false
  else true.

(** [validateForSource]; [name.find('.')] and [name.find("types.")]. *)
Definition validateForSource (fqName : FQName) (language : string) : bool :=
  if empty (package fqName) then false
  else if empty (version fqName) then false
  else
    if negb (empty (name fqName)) then
      match find (name fqName) "." 0 with
      | None => true
      | Some _ =>
          if negb (String.eqb language "java")
             || negb (bool_decide (find (name fqName) "types." 0 = Some O))
          then false
          else true
      end
    else true.

(** What a backend routine leaves behind: it returns a status, or a [CHECK]
    fails and the process aborts. *)
Inductive ret :=
| Return (err : status_t)
| Abort.

(** The per-unit emitters of [AST] that [generateSourcesForFile] selects. *)
Inductive Emitter :=
| generateCpp | generateCppHeaders | generateCppSources
| generateCppImpl | generateCppImplHeader | generateCppImplSource
| generateCppAdapter | generateCppAdapterHeader | generateCppAdapterSource
| generateJava | generateVts.

Inductive OutputMode := NEEDS_DIR | NEEDS_FILE | NEEDS_SRC | NOT_NEEDED.

Section Driver.

(** The file system the backends write to, and the collaborators that
    write to it: the emitters of a parsed unit, the backends whose routines
    lie outside the verified part of main.cpp, and the part of the makefile
    backend that opens Android.mk and fills it. Messages on [stderr] are
    not part of [World]. *)
Variable World : Type.
Variable emit : Emitter -> AST -> string -> string -> World -> status_t * World.

(** [generateSourcesForFile]. *)
Definition generateSourcesForFile (fqName : FQName) (c : Coordinator)
    (outputDir lang : string) (w : World) : ret * World :=
  if negb (isFullyQualified fqName) then (Abort, w)
  else
    let typesMember := bool_decide (find (name fqName) "types." 0 = Some O) in
    if typesMember && negb (String.eqb lang "java") then (Abort, w)
    else
      let limitToType :=
        if typesMember then substr_from (name fqName) (String.length "types.")
        else "" in
      let ast :=
        if typesMember then parse c (getTypesForPackage fqName)
        else parse c fqName in
      match ast with
      | None => (Return UNKNOWN_ERROR, w)
      | Some ast =>
          let run e := let '(err, w') := emit e ast outputDir limitToType w in
                       (Return err, w') in
          if String.eqb lang "check" then (Return OK, w)
          else if String.eqb lang "c++" then run generateCpp
          else if String.eqb lang "c++-headers" then run generateCppHeaders
          else if String.eqb lang "c++-sources" then run generateCppSources
          else if String.eqb lang "c++-impl" then run generateCppImpl
          else if String.eqb lang "c++-impl-headers" then run generateCppImplHeader
          else if String.eqb lang "c++-impl-sources" then run generateCppImplSource
          else if String.eqb lang "c++-adapter" then run generateCppAdapter
          else if String.eqb lang "c++-adapter-headers" then run generateCppAdapterHeader
          else if String.eqb lang "c++-adapter-sources" then run generateCppAdapterSource
          else if String.eqb lang "java" then run generateJava
          else if String.eqb lang "vts" then run generateVts
          else (Return UNKNOWN_ERROR, w)
      end.

(** The [for] loop of [generateSourcesForPackage]. *)
Fixpoint generateEach (packageInterfaces : list FQName) (c : Coordinator)
    (outputDir lang : string) (w : World) : ret * World :=
  match packageInterfaces with
  | [] => (Return OK, w)
  | fqName :: rest =>
      match generateSourcesForFile fqName c outputDir lang w with
      | (Return OK, w') => generateEach rest c outputDir lang w'
      | stop => stop
      end
  end.

(** [generateSourcesForPackage]. *)
Definition generateSourcesForPackage (packageFQName : FQName) (c : Coordinator)
    (outputDir lang : string) (w : World) : ret * World :=
  if negb (isValid packageFQName && negb (isFullyQualified packageFQName)
           && empty (name packageFQName))
  then (Abort, w)
  else
    match appendPackageInterfacesToVector c packageFQName [] with
    | (OK, packageInterfaces) => generateEach packageInterfaces c outputDir lang w
    | (err, _) => (Return err, w)
    end.

(** [generationFunctionForFileOrPackage(language)]. *)
Definition generationFunctionForFileOrPackage (language : string)
    (fqName : FQName) (hidl_gen : string) (c : Coordinator) (outputDir : string)
    (w : World) : ret * World :=
  if isFullyQualified fqName
  then generateSourcesForFile fqName c outputDir language w
  else generateSourcesForPackage fqName c outputDir language w.

(** An entry of the table [formats]. *)
Record OutputHandler := mkOutputHandler {
  mKey : string;
  mOutputMode : OutputMode;
  validate : FQName -> string -> bool;
  generate : FQName -> string -> Coordinator -> string -> World -> ret * World
}.

(** What [main] ends with. *)
Inductive Exit :=
| exit (code : Z)
| aborted.

(** The loop of [main] over the names on the command line, each already
    converted by [FQName fqName(argv[i])]. *)
Fixpoint mainLoop (outputFormat : OutputHandler) (me : string) (c : Coordinator)
    (outputPath : string) (argv : list FQName) (w : World) : Exit * World :=
  match argv with
  | [] => (exit 0, w)
  | fqName :: rest =>
      if negb (isValid fqName) then (exit 1, w)
      else if negb (validate outputFormat fqName (mKey outputFormat)) then (exit 1, w)
      else
        match generate outputFormat fqName me c outputPath w with
        | (Return OK, w') => mainLoop outputFormat me c outputPath rest w'
        | (Return _, w') => (exit 1, w')
        | (Abort, w') => (aborted, w')
        end
  end.

(** The makefile backend. [getFormatter] opens (creates or truncates) the
    file and returns the emitter on it, [Formatter_isValid] is the
    emitter's validity query (Formatter.h), and [writeAndroidMk] stands for
    the text written between the validity check and the final [return OK]. *)
Variable getFormatter :
  Coordinator -> string -> FQName -> string -> World -> Formatter * World.
Variable Formatter_isValid : Formatter -> bool.
Variable writeAndroidMk :
  FQName -> string -> Coordinator -> list FQName -> gset FQName -> option AST ->
  bool -> bool -> Formatter -> World -> World.

(** What the first loop of [generateMakefileForPackage] gathers. *)
Record Gathered := mkGathered {
  typesAST : option AST;
  importedPackages : gset FQName;
  gatheredTypes : list string
}.

Fixpoint gather (c : Coordinator) (packageInterfaces : list FQName) (g : Gathered)
    : result Gathered :=
  match packageInterfaces with
  | [] => Ok g
  | fqName :: rest =>
      match parse c fqName with
      | None => Err UNKNOWN_ERROR
      | Some ast =>
          gather c rest
            (mkGathered
               (if String.eqb (name fqName) "types" then Some ast else typesAST g)
               (list_to_set (getImportedPackagesHierarchy ast) ∪ importedPackages g)
               (gatheredTypes g ++ exportedTypes ast))
      end
  end.

(** [generateMakefileForPackage]; [None] when the fuel given to
    [isPackageJavaCompatible] was not enough. *)
Definition generateMakefileForPackage (fuel : nat) (packageFQName : FQName)
    (hidl_gen : string) (c : Coordinator) (outputPath : string) (w : World)
    : option (ret * World) :=
  if negb (isValid packageFQName && negb (isFullyQualified packageFQName)
           && empty (name packageFQName))
  then Some (Abort, w)
  else
    match appendPackageInterfacesToVector c packageFQName [] with
    | (OK, packageInterfaces) =>
        match gather c packageInterfaces (mkGathered None ∅ []) with
        | Err err => Some (Return err, w)
        | Ok g =>
            match isPackageJavaCompatible fuel c packageFQName with
            | None => None
            | Some (Err err) => Some (Return err, w)
            | Some (Ok packageIsJavaCompatible) =>
                let haveJavaConstants :=
                  negb (bool_decide (gatheredTypes g = [])) in
                if negb packageIsJavaCompatible && negb haveJavaConstants
                then Some (Return OK, w)
                else
                  match packageNeedsJavaCode packageInterfaces (typesAST g) with
                  | None => Some (Abort, w)
                  | Some false => Some (Return OK, w)
                  | Some true =>
                      let '(out, w1) :=
                        getFormatter c outputPath packageFQName "Android.mk" w in
                      if negb (Formatter_isValid out)
                      then Some (Return UNKNOWN_ERROR, w1)
                      else Some (Return OK,
                                 writeAndroidMk packageFQName hidl_gen c
                                   packageInterfaces (importedPackages g) (typesAST g)
                                   packageIsJavaCompatible haveJavaConstants out w1)
                  end
            end
        end
    | (err, _) => Some (Return err, w)
    end.

End Driver.

(** ** More of main.cpp *)

(** [isTypesOnlyPackage(package, coordinator, &result)]: the status and the
    value stored through [result]. *)
Definition isTypesOnlyPackage (c : Coordinator) (pkg : FQName) : status_t * bool :=
  match appendPackageInterfacesToVector c pkg [] with
  | (OK, packageInterfaces) =>
      let hasInterface :=
        existsb (fun fqName => negb (String.eqb (name fqName) "types"))
          packageInterfaces in
      (OK, negb hasInterface)
  | (err, _) => (err, false)
  end.

(** ** Backends that write through a Formatter *)

(** The characters the generated texts need besides printable ones. *)
Definition tab : string := String "009"%char "".
Definition backslash : string := String "092"%char "".
Definition dquote : string := String "034"%char "".

(** A routine that works on [Formatter &out]: it hands the emitter and the
    streams on, or a [CHECK] or an [assert] fails in it ([None]). *)
Definition Out : Type := Formatter * Streams -> option (Formatter * Streams).

(** [out << s;] *)
Definition shl (s : string) : Out := fun st => Some (operator_shl st s).

(** [out.indent();] and [out.unindent();], the level defaulting to 1. *)
Definition out_indent : Out := fun st => Some (indent 1 (fst st), snd st).

Definition out_unindent : Out := fun st =>
  match unindent 1 (fst st) with
  | Some f => Some (f, snd st)
  | None => None
  end.

(** [CHECK(cond);] *)
Definition CHECK (cond : bool) : Out := fun st => if cond then Some st else None.

(** Statements one after the other. *)
Fixpoint steps (body : list Out) : Out := fun st =>
  match body with
  | [] => Some st
  | s :: rest =>
      match s st with
      | Some st' => steps rest st'
      | None => None
      end
  end.

(** [for (const auto &x : l) body(x);] and [if (cond) body;] *)
Definition forEach {A} (l : list A) (body : A -> Out) : Out := steps (map body l).

Definition when (cond : bool) (body : Out) : Out := if cond then body else steps [].

(** [std::set<std::string>::insert]: the set as its elements in ascending
    order, which is the order a range-for visits them in. *)
Fixpoint set_insert (x : string) (s : list string) : list string :=
  match s with
  | [] => [x]
  | y :: s' =>
      match String.compare x y with
      | Lt => x :: s
      | Eq => s
      | Gt => y :: set_insert x s'
      end
  end.

(** [makeJavaLibraryName]. *)
Definition makeJavaLibraryName (packageFQName : FQName) : string :=
  package packageFQName +:+ "-V" +:+ version packageFQName.

(** [Coordinator::Location], as far as main.cpp names its values. *)
Inductive Location := DIRECT | PACKAGE_ROOT | GEN_SANITIZED.

Section TextBackends.

(** What lies outside main.cpp: the Coordinator's path queries for the run at
    hand, [FQName::string()] and the other renderings of a name, the order in
    which a [std::set<FQName>] is visited ([FQName::operator<]), the names a
    unit imports, the order [std::sort] leaves the sub-types in, and
    [Type::emitExportedHeader]. *)
Variable getPackageRootOption : FQName -> string.
Variable convertPackageRootToPath : FQName -> string.
Variable getPackagePath : FQName -> bool -> bool -> string.
Variable FQName_string : FQName -> string.
Variable javaPackage : FQName -> string.
Variable tokenName : FQName -> string.
Variable getInterfaceBaseName : FQName -> string.
Variable Uppercase : string -> string.
Variable gIBaseFqName : FQName.
Variable gIBasePackageFqName : FQName.
Variable gIManagerPackageFqName : FQName.
Variable inOrder : gset FQName -> list FQName.
Variable getImportedNames : AST -> list FQName.
Variable sortByFqName : list NamedType -> list NamedType.
Variable emitExportedHeader : string -> bool -> Out.

(** [makeLibraryName]. *)
Definition makeLibraryName (packageFQName : FQName) : string :=
  FQName_string packageFQName.

(** [isHidlTransportPackage]. *)
Definition isHidlTransportPackage (fqName : FQName) : bool :=
  String.eqb (package fqName) (FQName_string gIBasePackageFqName)
  || String.eqb (package fqName) (FQName_string gIManagerPackageFqName).

(** The set [options] that [generatePackagePathsSection] fills. *)
Definition packageRootOptions (packageFQName : FQName) (importedPackages : gset FQName)
    : list string :=
  let options :=
    fold_left (fun options interface => set_insert (getPackageRootOption interface) options)
      (inOrder importedPackages) [] in
  let options := set_insert (getPackageRootOption packageFQName) options in
  set_insert (getPackageRootOption gIBaseFqName) options.

(** [generatePackagePathsSection]. *)
Definition generatePackagePathsSection (packageFQName : FQName)
    (importedPackages : gset FQName) (forMakefiles : bool) : Out :=
  forEach (packageRootOptions packageFQName importedPackages) (fun option =>
    steps [shl "-r"; shl option; shl " ";
           when forMakefiles (shl (backslash +:+ nl))]).

(** [generateMakefileSectionForType]; [typeName] is [None] for [nullptr],
    and a C string otherwise, which becomes a [std::string] up to its first
    NUL. *)
Definition generateMakefileSectionForType (c : Coordinator)
    (packageFQName fqName : FQName) (importedPackages : gset FQName)
    (typeName : option string) : Out :=
  steps [
    shl nl; shl (nl +:+ "#"); shl (nl +:+ "# Build "); shl (name fqName); shl ".hal";
    match typeName with
    | Some typeName => steps [shl " ("; shl (c_str typeName); shl ")"]
    | None => steps []
    end;
    shl (nl +:+ "#"); shl (nl +:+ "GEN := $(intermediates)/");
    shl (convertPackageRootToPath packageFQName);
    shl (getPackagePath packageFQName true true);
    match typeName with
    | None => steps [shl (name fqName); shl ".java"]
    | Some typeName => steps [shl (c_str typeName); shl ".java"]
    end;
    shl (nl +:+ "$(GEN): $(HIDL)");
    shl (nl +:+ "$(GEN): PRIVATE_HIDL := $(HIDL)");
    shl (nl +:+ "$(GEN): PRIVATE_DEPS := $(LOCAL_PATH)/"); shl (name fqName); shl ".hal";
    match parse c fqName with
    | None => CHECK false
    | Some ast =>
        forEach (getImportedNames ast) (fun depFQName =>
          when (bool_decide (package fqName = package depFQName)
                && bool_decide (version fqName = version depFQName))
            (steps [shl (nl +:+ "$(GEN): PRIVATE_DEPS += $(LOCAL_PATH)/");
                    shl (name depFQName); shl ".hal";
                    shl (nl +:+ "$(GEN): $(LOCAL_PATH)/");
                    shl (name depFQName); shl ".hal"]))
    end;
    shl (nl +:+ "$(GEN): PRIVATE_OUTPUT_DIR := $(intermediates)");
    shl (nl +:+ "$(GEN): PRIVATE_CUSTOM_TOOL = " +:+ backslash);
    out_indent;
    out_indent;
    shl (nl +:+ "$(PRIVATE_HIDL) -o $(PRIVATE_OUTPUT_DIR) " +:+ backslash);
    shl (nl +:+ "-Ljava " +:+ backslash +:+ nl);
    generatePackagePathsSection packageFQName importedPackages true;
    shl (FQName_string packageFQName); shl "::"; shl (name fqName);
    match typeName with
    | Some typeName => steps [shl "."; shl (c_str typeName)]
    | None => steps []
    end;
    shl nl;
    out_unindent;
    out_unindent;
    shl (nl +:+ "$(GEN): $(LOCAL_PATH)/"); shl (name fqName); shl ".hal";
    shl (nl +:+ tab +:+ "$(transform-generated-source)");
    shl (nl +:+ "LOCAL_GENERATED_SOURCES += $(GEN)")
  ].

(** [generateMakefileSection]. *)
Definition generateMakefileSection (c : Coordinator) (packageFQName : FQName)
    (packageInterfaces : list FQName) (importedPackages : gset FQName)
    (typesAST : option AST) : Out :=
  forEach packageInterfaces (fun fqName =>
    if String.eqb (name fqName) "types" then
      match typesAST with
      | None => CHECK false
      | Some typesAST =>
          forEach (sortByFqName (getSubTypes typesAST)) (fun type =>
            if isTypeDef type then steps []
            else generateMakefileSectionForType c packageFQName fqName importedPackages
                   (Some (localName type)))
      end
    else generateMakefileSectionForType c packageFQName fqName importedPackages None).

(** [generateMakefileSectionForJavaConstants]. *)
Definition generateMakefileSectionForJavaConstants (packageFQName : FQName)
    (packageInterfaces : list FQName) (importedPackages : gset FQName) : Out :=
  steps [
    shl (nl +:+ "#"); shl (nl +:+ "GEN := $(intermediates)/");
    shl (convertPackageRootToPath packageFQName);
    shl (getPackagePath packageFQName true true);
    shl "Constants.java";
    shl (nl +:+ "$(GEN): $(HIDL)" +:+ nl);
    forEach packageInterfaces (fun iface =>
      steps [shl "$(GEN): $(LOCAL_PATH)/"; shl (name iface); shl (".hal" +:+ nl)]);
    shl (nl +:+ "$(GEN): PRIVATE_HIDL := $(HIDL)");
    shl (nl +:+ "$(GEN): PRIVATE_OUTPUT_DIR := $(intermediates)");
    shl (nl +:+ "$(GEN): PRIVATE_CUSTOM_TOOL = " +:+ backslash);
    out_indent;
    out_indent;
    shl (nl +:+ "$(PRIVATE_HIDL) -o $(PRIVATE_OUTPUT_DIR) " +:+ backslash);
    shl (nl +:+ "-Ljava-constants " +:+ backslash +:+ nl);
    generatePackagePathsSection packageFQName importedPackages true;
    shl (FQName_string packageFQName);
    shl nl;
    out_unindent;
    out_unindent;
    shl (nl +:+ "$(GEN):");
    shl (nl +:+ tab +:+ "$(transform-generated-source)");
    shl (nl +:+ "LOCAL_GENERATED_SOURCES += $(GEN)")
  ].

(** The text of Android.mk: [generateMakefileForPackage] from the validity
    check of the emitter to the final [return OK]; [hidl_gen] is a C string,
    which becomes a [std::string] up to its first NUL. *)
Definition androidMkText (packageFQName : FQName) (hidl_gen : string)
    (c : Coordinator) (packageInterfaces : list FQName)
    (importedPackages : gset FQName) (typesAST : option AST)
    (packageIsJavaCompatible haveJavaConstants : bool) : Out :=
  let libraryName := makeJavaLibraryName packageFQName in
  steps [
    shl ("# This file is autogenerated by hidl-gen. Do not edit manually." +:+ nl +:+ nl);
    shl ("LOCAL_PATH := $(call my-dir)" +:+ nl);
    when packageIsJavaCompatible (steps [
      shl nl;
      shl "########################################";
      shl ("########################################" +:+ nl +:+ nl);
      shl ("include $(CLEAR_VARS)" +:+ nl);
      shl "LOCAL_MODULE := ";
      shl libraryName;
      shl "-java";
      shl (nl +:+ "LOCAL_MODULE_CLASS := JAVA_LIBRARIES" +:+ nl +:+ nl);
      shl "intermediates := $(call local-generated-sources-dir, COMMON)";
      shl (nl +:+ nl);
      shl "HIDL := $(HOST_OUT_EXECUTABLES)/";
      shl (c_str hidl_gen);
      shl "$(HOST_EXECUTABLE_SUFFIX)";
      when (negb (bool_decide (importedPackages = ∅))) (steps [
        shl (nl +:+ nl +:+ "LOCAL_JAVA_LIBRARIES := " +:+ backslash);
        out_indent;
        forEach (inOrder importedPackages) (fun importedPackage =>
          steps [shl nl; shl (makeJavaLibraryName importedPackage); shl "-java";
                 shl (" " +:+ backslash)]);
        shl nl;
        out_unindent
      ]);
      shl (nl +:+ "LOCAL_NO_STANDARD_LIBRARIES := true");
      shl (nl +:+ "LOCAL_JAVA_LIBRARIES += core-oj hwbinder");
      generateMakefileSection c packageFQName packageInterfaces importedPackages typesAST;
      shl (nl +:+ "include $(BUILD_JAVA_LIBRARY)" +:+ nl +:+ nl)
    ]);
    when haveJavaConstants (steps [
      shl nl;
      shl "########################################";
      shl ("########################################" +:+ nl +:+ nl);
      shl ("include $(CLEAR_VARS)" +:+ nl);
      shl "LOCAL_MODULE := ";
      shl libraryName;
      shl "-java-constants";
      shl (nl +:+ "LOCAL_MODULE_CLASS := JAVA_LIBRARIES" +:+ nl +:+ nl);
      shl "intermediates := $(call local-generated-sources-dir, COMMON)";
      shl (nl +:+ nl);
      shl "HIDL := $(HOST_OUT_EXECUTABLES)/";
      shl (c_str hidl_gen);
      shl "$(HOST_EXECUTABLE_SUFFIX)";
      generateMakefileSectionForJavaConstants packageFQName packageInterfaces
        importedPackages;
      shl (nl +:+ "# Avoid dependency cycle of framework.jar -> this-library ");
      shl ("-> framework.jar" +:+ nl);
      shl ("LOCAL_NO_STANDARD_LIBRARIES := true" +:+ nl);
      shl ("LOCAL_JAVA_LIBRARIES := core-oj" +:+ nl +:+ nl);
      shl ("include $(BUILD_STATIC_JAVA_LIBRARY)" +:+ nl +:+ nl)
    ]);
    shl (nl +:+ nl);
    shl ("include $(call all-makefiles-under,$(LOCAL_PATH))" +:+ nl)
  ].

(** The sink a backend opens with [coordinator->getFormatter], and the
    emitter's validity query (Formatter.h). *)
Variable getFormatter :
  Coordinator -> string -> FQName -> Location -> string -> Streams -> Formatter * Streams.
Variable Formatter_isValid : Formatter -> bool.

(** The first loop of [generateExportHeaderForPackage]. *)
Fixpoint gatherExported (c : Coordinator) (packageInterfaces : list FQName)
    (exported : list string) : result (list string) :=
  match packageInterfaces with
  | [] => Ok exported
  | fqName :: rest =>
      match parse c fqName with
      | None => Err UNKNOWN_ERROR
      | Some ast => gatherExported c rest (exported ++ exportedTypes ast)
      end
  end.

(** What [generateExportHeaderForPackage] writes once the sink is open. *)
Definition writeExportHeader (forJava : bool) (packageFQName : FQName)
    (exported : list string) : Out :=
  let guard :=
    if forJava then ""
    else (("HIDL_GENERATED_" +:+ Uppercase (tokenName packageFQName)) +:+ "_")
         +:+ "EXPORTED_CONSTANTS_H_" in
  steps [
    shl ("// This file is autogenerated by hidl-gen. Do not edit manually." +:+ nl);
    shl "// Source: "; shl (FQName_string packageFQName); shl nl;
    shl "// Root: "; shl (getPackageRootOption packageFQName); shl (nl +:+ nl);
    if forJava then
      steps [shl "package "; shl (javaPackage packageFQName); shl (";" +:+ nl +:+ nl);
             shl ("public class Constants {" +:+ nl);
             out_indent]
    else
      steps [shl "#ifndef "; shl guard; shl (nl +:+ "#define "); shl guard;
             shl (nl +:+ nl +:+ "#ifdef __cplusplus" +:+ nl +:+ "extern " +:+ dquote +:+ "C"
                  +:+ dquote +:+ " {" +:+ nl +:+ "#endif" +:+ nl +:+ nl)];
    forEach exported (fun type => emitExportedHeader type forJava);
    if forJava then
      steps [out_unindent; shl ("}" +:+ nl)]
    else
      steps [shl ("#ifdef __cplusplus" +:+ nl +:+ "}" +:+ nl +:+ "#endif" +:+ nl +:+ nl
                  +:+ "#endif  // ");
             shl guard; shl nl]
  ].

(** [generateExportHeaderForPackage(forJava)]. A [CHECK] that fails while
    the text is written leaves the streams as the abort finds them; they are
    given here as they were when the sink was opened. *)
Definition generateExportHeaderForPackage (forJava : bool) (packageFQName : FQName)
    (hidl_gen : string) (c : Coordinator) (outputPath : string) (io : Streams)
    : ret * Streams :=
  if negb (isValid packageFQName && negb (empty (package packageFQName))
           && negb (empty (version packageFQName)) && empty (name packageFQName))
  then (Abort, io)
  else
    match appendPackageInterfacesToVector c packageFQName [] with
    | (OK, packageInterfaces) =>
        match gatherExported c packageInterfaces [] with
        | Err err => (Return err, io)
        | Ok exported =>
            if bool_decide (exported = []) then (Return OK, io)
            else
              let filename := if forJava then "Constants.java" else "" in
              let location := if forJava then GEN_SANITIZED else DIRECT in
              let '(out, io1) :=
                getFormatter c outputPath packageFQName location filename io in
              if negb (Formatter_isValid out) then (Return UNKNOWN_ERROR, io1)
              else
                match writeExportHeader forJava packageFQName exported (out, io1) with
                | Some (_, io2) => (Return OK, io2)
                | None => (Abort, io1)
                end
        end
    | (err, _) => (Return err, io)
    end.

(** The first loop of [generateAndroidBpImplForPackage]. *)
Fixpoint gatherImported (c : Coordinator) (packageInterfaces : list FQName)
    (importedPackages : gset FQName) : result (gset FQName) :=
  match packageInterfaces with
  | [] => Ok importedPackages
  | fqName :: rest =>
      match parse c fqName with
      | None => Err UNKNOWN_ERROR
      | Some ast =>
          gatherImported c rest (list_to_set (getImportedPackages ast) ∪ importedPackages)
      end
  end.

(** What [generateAndroidBpImplForPackage] writes once the sink is open. *)
Definition writeAndroidBpImpl (packageFQName : FQName) (packageInterfaces : list FQName)
    (importedPackages : gset FQName) : Out :=
  let libraryName := makeLibraryName packageFQName +:+ "-impl" in
  steps [
    shl ("cc_library_shared {" +:+ nl);
    indent_scoped1 (steps [
      shl ("name: " +:+ dquote); shl libraryName; shl (dquote +:+ "," +:+ nl);
      shl ("relative_install_path: " +:+ dquote +:+ "hw" +:+ dquote +:+ "," +:+ nl);
      shl ("proprietary: true," +:+ nl);
      shl ("srcs: [" +:+ nl);
      indent_scoped1 (
        forEach packageInterfaces (fun fqName =>
          if String.eqb (name fqName) "types" then steps []
          else steps [shl dquote; shl (getInterfaceBaseName fqName);
                      shl (".cpp" +:+ dquote +:+ "," +:+ nl)]));
      shl ("]," +:+ nl);
      shl ("shared_libs: [" +:+ nl);
      indent_scoped1 (steps [
        shl (dquote +:+ "libhidlbase" +:+ dquote +:+ "," +:+ nl);
        shl (dquote +:+ "libhidltransport" +:+ dquote +:+ "," +:+ nl);
        shl (dquote +:+ "libutils" +:+ dquote +:+ "," +:+ nl);
        shl dquote; shl (makeLibraryName packageFQName); shl (dquote +:+ "," +:+ nl);
        forEach (inOrder importedPackages) (fun importedPackage =>
          if isHidlTransportPackage importedPackage then steps []
          else steps [shl dquote; shl (makeLibraryName importedPackage);
                      shl (dquote +:+ "," +:+ nl)])
      ]);
      shl ("]," +:+ nl)
    ]);
    shl ("}" +:+ nl)
  ].

(** [generateAndroidBpImplForPackage]. *)
Definition generateAndroidBpImplForPackage (packageFQName : FQName)
    (hidl_gen : string) (c : Coordinator) (outputPath : string) (io : Streams)
    : ret * Streams :=
  match appendPackageInterfacesToVector c packageFQName [] with
  | (OK, packageInterfaces) =>
      match gatherImported c packageInterfaces ∅ with
      | Err err => (Return err, io)
      | Ok importedPackages =>
          let '(out, io1) :=
            getFormatter c outputPath packageFQName DIRECT "Android.bp" io in
          if negb (Formatter_isValid out) then (Return UNKNOWN_ERROR, io1)
          else
            match writeAndroidBpImpl packageFQName packageInterfaces importedPackages
                    (out, io1) with
            | Some (_, io2) => (Return OK, io2)
            | None => (Abort, io1)
            end
      end
  | (err, _) => (Return err, io)
  end.

(** [generateAndroidBpGenSection]; [hidl_gen] and [language] are C strings,
    which become a [std::string] up to their first NUL. *)
Definition generateAndroidBpGenSection (packageFQName : FQName) (hidl_gen : string)
    (halFilegroupName genName language : string) (packageInterfaces : list FQName)
    (importedPackages : gset FQName) (outputFn : FQName -> Out) : Out :=
  steps [
    shl ("genrule {" +:+ nl);
    out_indent;
    shl ("name: " +:+ dquote); shl genName; shl (dquote +:+ "," +:+ nl);
    shl ("tools: [" +:+ dquote); shl (c_str hidl_gen); shl (dquote +:+ "]," +:+ nl);
    shl ("cmd: " +:+ dquote +:+ "$(location "); shl (c_str hidl_gen);
    shl ") -o $(genDir)";
    shl " -L"; shl (c_str language); shl " ";
    generatePackagePathsSection packageFQName importedPackages false;
    shl (FQName_string packageFQName); shl (dquote +:+ "," +:+ nl);
    shl ("srcs: [" +:+ nl);
    out_indent;
    shl (dquote +:+ ":"); shl halFilegroupName; shl (dquote +:+ "," +:+ nl);
    out_unindent;
    shl ("]," +:+ nl);
    shl ("out: [" +:+ nl);
    out_indent;
    forEach packageInterfaces outputFn;
    out_unindent;
    shl ("]," +:+ nl);
    out_unindent;
    shl ("}" +:+ nl +:+ nl)
  ].

(** The hash backend: [coordinator->parse] with hash enforcement off, and the
    digest [Hash::getHash(ast->getFilename()).hexString()] of a unit. *)
Variable parseNoHash : Coordinator -> FQName -> option AST.
Variable hexString : AST -> string.

(** The [for] loop of [generateHashOutput]; [printf] writes to [stdout], each
    [%s] argument up to its first NUL. *)
Fixpoint printHashes (packageInterfaces : list FQName) (c : Coordinator) (io : Streams)
    : status_t * Streams :=
  match packageInterfaces with
  | [] => (OK, io)
  | currentFqName :: rest =>
      match parseNoHash c currentFqName with
      | None => (UNKNOWN_ERROR, io)
      | Some ast =>
          printHashes rest c
            (append_bytes (c_str (hexString ast) +:+ " "
                             +:+ c_str (FQName_string currentFqName) +:+ nl) stdout io)
      end
  end.

(** [generateHashOutput]. *)
Definition generateHashOutput (fqName : FQName) (hidl_gen : string) (c : Coordinator)
    (outputDir : string) (io : Streams) : status_t * Streams :=
  if isFullyQualified fqName then printHashes [fqName] c io
  else
    match appendPackageInterfacesToVector c fqName [] with
    | (OK, packageInterfaces) => printHashes packageInterfaces c io
    | (err, _) => (err, io)
    end.

End TextBackends.

(** [generateMakefileForPackage] with the text it writes: the sink is
    opened at [Location::PACKAGE_ROOT] and filled with [androidMkText]. A
    [CHECK] that fails while the text is written leaves the streams as the
    abort finds them; they are given here as they were when the sink was
    opened. [None] when the fuel given to [isPackageJavaCompatible] was not
    enough. *)
Definition makefileBackend (getPackageRootOption convertPackageRootToPath : FQName -> string)
    (getPackagePath : FQName -> bool -> bool -> string) (FQName_string : FQName -> string)
    (gIBaseFqName : FQName) (inOrder : gset FQName -> list FQName)
    (getImportedNames : AST -> list FQName)
    (sortByFqName : list NamedType -> list NamedType)
    (getFormatter : Coordinator -> string -> FQName -> Location -> string -> Streams ->
                    Formatter * Streams)
    (Formatter_isValid : Formatter -> bool)
    (fuel : nat) (packageFQName : FQName) (hidl_gen : string) (c : Coordinator)
    (outputPath : string) (io : Streams) : option (ret * Streams) :=
  if negb (isValid packageFQName && negb (isFullyQualified packageFQName)
           && empty (name packageFQName))
  then Some (Abort, io)
  else
    match appendPackageInterfacesToVector c packageFQName [] with
    | (OK, packageInterfaces) =>
        match gather c packageInterfaces (mkGathered None ∅ []) with
        | Err err => Some (Return err, io)
        | Ok g =>
            match isPackageJavaCompatible fuel c packageFQName with
            | None => None
            | Some (Err err) => Some (Return err, io)
            | Some (Ok packageIsJavaCompatible) =>
                let haveJavaConstants :=
                  negb (bool_decide (gatheredTypes g = [])) in
                if negb packageIsJavaCompatible && negb haveJavaConstants
                then Some (Return OK, io)
                else
                  match packageNeedsJavaCode packageInterfaces (typesAST g) with
                  | None => Some (Abort, io)
                  | Some false => Some (Return OK, io)
                  | Some true =>
                      let '(out, io1) :=
                        getFormatter c outputPath packageFQName PACKAGE_ROOT
                          "Android.mk" io in
                      if negb (Formatter_isValid out)
                      then Some (Return UNKNOWN_ERROR, io1)
                      else
                        match androidMkText getPackageRootOption convertPackageRootToPath
                                getPackagePath FQName_string gIBaseFqName inOrder
                                getImportedNames sortByFqName packageFQName hidl_gen c
                                packageInterfaces (importedPackages g) (typesAST g)
                                packageIsJavaCompatible haveJavaConstants (out, io1) with
                        | Some (_, io2) => Some (Return OK, io2)
                        | None => Some (Abort, io1)
                        end
                  end
            end
        end
    | (err, _) => Some (Return err, io)
    end.

(** The loop over the interfaces inside the block of
    [generateAdapterMainSource], which writes the template arguments of
    [adapterMain]; [cppName] is [getInterfaceAdapterFqName().cppName()], and
    [&interface != &packageInterfaces.back()] holds for every element but the
    last one. *)
Fixpoint adapterArguments (cppName : FQName -> string)
    (packageInterfaces : list FQName) : Out :=
  match packageInterfaces with
  | [] => steps []
  | interface :: rest =>
      if String.eqb (name interface) "types" then adapterArguments cppName rest
      else steps [shl (cppName interface);
                  when (negb (bool_decide (rest = []))) (shl ("," +:+ nl));
                  adapterArguments cppName rest]
  end.

(** ** The command line *)

(** What the [switch] on [mOutputMode] in [main] makes of the [-o] argument:
    the process exits after [usage], or goes on with a path, or calls
    [back()] on an empty string, which C++ leaves undefined. *)
Inductive Prepared :=
| usage_exit
| undefined
| goes_on (outputPath : string).

(** [outputPath.back()]. *)
Fixpoint string_back (s : string) : option ascii :=
  match s with
  | "" => None
  | String c "" => Some c
  | String _ s' => string_back s'
  end.

(** [if (outputPath.back() != '/') outputPath += "/";] *)
Definition withSlash (outputPath : string) : Prepared :=
  match string_back outputPath with
  | None => undefined
  | Some c => if decide (c = "/"%char) then goes_on outputPath
              else goes_on (outputPath +:+ "/")
  end.

(** The [switch (outputFormat->mOutputMode)] of [main]; [rootPath] is
    [coordinator.getRootPath()]. *)
Definition prepareOutputPath (mode : OutputMode) (rootPath outputPath : string)
    : Prepared :=
  match mode with
  | NEEDS_DIR =>
      if empty outputPath then usage_exit else withSlash outputPath
  | NEEDS_FILE =>
      if empty outputPath then usage_exit else goes_on outputPath
  | NEEDS_SRC =>
      withSlash (if empty outputPath then rootPath else outputPath)
  | NOT_NEEDED => goes_on ""
  end.

(** main.cpp's [realpath]: [resolve] is realpath(3) on a C string, [None]
    when it fails; what it fills in is a C string as well. *)
Definition realpath (resolve : string -> option string) (path : string) : string :=
  match resolve (c_str path) with
  | None => path
  | Some result => c_str result
  end.

(** What a case of the option loop of [main] ends with: the process exits,
    or the loop goes on with the Coordinator as the case leaves it. *)
Inductive OptionCase (Roots : Type) :=
| option_exit (code : Z)
| option_break (coordinator : Roots).

Arguments option_exit {Roots} code.
Arguments option_break {Roots} coordinator.

(** The [-r] case of [main]: [std::string val(optarg)] is split at
    [val.find_first_of(':')] and the root registered with the Coordinator.
    [addPackagePath] is [Coordinator::addPackagePath], which lies outside
    main.cpp: its status and the Coordinator it leaves. *)
Definition main_option_r {Roots : Type} (resolve : string -> option string)
    (addPackagePath : string -> string -> Roots -> status_t * Roots)
    (optarg : string) (coordinator : Roots) : OptionCase Roots :=
  let val := c_str optarg in
  match find val ":" 0 with
  | None => option_exit 1
  | Some index =>
      let root := substr val 0 index in
      let path := realpath resolve (substr_from val (index + 1)) in
      match addPackagePath root path coordinator with
      | (OK, coordinator') => option_break coordinator'
      | (_, _) => option_exit 1
      end
  end.

(** * Specifications *)

(** ** What a write should produce, in the words of the design *)

(** The line chunks of a text: it is cut after every newline. *)
Fixpoint chunks (s : string) : list string :=
  match s with
  | "" => []
  | String c s' =>
      if decide (c = newline) then nl :: chunks s'
      else match chunks s' with
           | [] => [String c ""]
           | k :: ks => String c k :: ks
           end
  end.

Fixpoint endsWithNewline (s : string) : bool :=
  match s with
  | "" => false
  | String c "" => bool_decide (c = newline)
  | String _ s' => endsWithNewline s'
  end.

(** The chunks written one after the other: a bare newline goes out as it
    is; any other chunk is preceded by [lead] when the emitter is at the start
    of a line, and goes through the filter [flt]. The result is the text for
    the sink and the new start-of-line flag. *)
Fixpoint renderChunks (lead : string) (flt : string -> string) (atStart : bool)
    (ks : list string) : string * bool :=
  match ks with
  | [] => ("", atStart)
  | k :: ks' =>
      let '(r, b) := renderChunks lead flt (endsWithNewline k) ks' in
      if decide (k = nl) then (nl +:+ r, b)
      else ((if atStart then lead else "") +:+ flt k +:+ r, b)
  end.

(** Character by character, without a filter: a newline is copied and puts
    the emitter at the start of a line; any other character is preceded by
    [lead] when it is the first one of its line. *)
Fixpoint layout (lead : string) (atStart : bool) (s : string) : string * bool :=
  match s with
  | "" => ("", atStart)
  | String c s' =>
      if decide (c = newline)
      then let '(r, b) := layout lead true s' in (String c r, b)
      else let '(r, b) := layout lead false s' in
           ((if atStart then lead else "") +:+ String c r, b)
  end.

(** Deleting every occurrence of [tok], scanning from the left; [skip] is
    the number of characters of the current occurrence still to drop. *)
Fixpoint deleteFrom (tok : string) (skip : nat) (s : string) : string :=
  match s with
  | "" => ""
  | String c s' =>
      match skip with
      | S k => deleteFrom tok k s'
      | O =>
          if String.prefix tok s then deleteFrom tok (String.length tok - 1) s'
          else String c (deleteFrom tok 0 s')
      end
  end.

Definition deleteAll (tok s : string) : string :=
  if decide (tok = "") then s else deleteFrom tok 0 s.

(** What [output] prints of a text: the occurrences of the token are
    deleted, and what is left is printed up to its first NUL. *)
Definition printed (tok text : string) : string := c_str (deleteAll tok text).

(** What opens a line: the line prefix, printed as a C string, then the
    indentation. *)
Definition line_lead (f : Formatter) : string :=
  c_str (mLinePrefix f) +:+ spaces (indent_width f).

(** The result of a write: the new start-of-line flag, and the bytes put at
    the end of the emitter's stream. *)
Definition written (f : Formatter) (io : Streams) (rb : string * bool)
    : Formatter * Streams :=
  (setAtStartOfLine (snd rb) f, append_bytes (fst rb) (mFile f) io).

(** The wording "prefixed at the first character written after a newline",
    taken literally: the first character of a line pulls the lead in front of
    it whatever it is, a newline included. *)
Fixpoint layoutEager (lead : string) (atStart : bool) (s : string) : string * bool :=
  match s with
  | "" => ("", atStart)
  | String c s' =>
      let '(r, b) := layoutEager lead (bool_decide (c = newline)) s' in
      ((if atStart then lead else "") +:+ String c r, b)
  end.

(** ** What the driver should do *)

(** The emitter each source language stands for; "check" has none. *)
Definition languageEmitters : list (string * Emitter) :=
  [("c++", generateCpp); ("c++-headers", generateCppHeaders);
   ("c++-sources", generateCppSources); ("c++-impl", generateCppImpl);
   ("c++-impl-headers", generateCppImplHeader);
   ("c++-impl-sources", generateCppImplSource);
   ("c++-adapter", generateCppAdapter);
   ("c++-adapter-headers", generateCppAdapterHeader);
   ("c++-adapter-sources", generateCppAdapterSource);
   ("java", generateJava); ("vts", generateVts)].

(** The units of a list generated one after the other by the emitter [e]:
    each one is parsed and emitted in full, with status OK, from the world
    the unit before it left. *)
Inductive Generated (World : Type)
    (emit : Emitter -> AST -> string -> string -> World -> status_t * World)
    (c : Coordinator) (outputDir : string) (e : Emitter)
    : list FQName -> World -> World -> Prop :=
| Generated_nil w : Generated World emit c outputDir e [] w w
| Generated_cons m rest ast w w1 w2 :
    parse c m = Some ast ->
    emit e ast outputDir "" w = (OK, w1) ->
    Generated World emit c outputDir e rest w1 w2 ->
    Generated World emit c outputDir e (m :: rest) w w2.

(** Every unit some package of the Coordinator enumerates. *)
Definition universe (c : Coordinator) : gset FQName :=
  ⋃ ((fun kv : FQName * list FQName => list_to_set kv.2) <$> map_to_list (packages c)).

(** The units the closure is about: the members of the requested package, and
    the members of every package imported by a unit already reached. *)
Inductive reachable (c : Coordinator) (pkg : FQName) : FQName -> Prop :=
| reach_member members u :
    packages c !! pkg = Some members -> u ∈ members -> reachable c pkg u
| reach_import v ast p members u :
    reachable c pkg v -> units c !! v = Some ast ->
    p ∈ getImportedPackages ast ->
    packages c !! p = Some members -> u ∈ members ->
    reachable c pkg u.

(** A unit that parses, is Java-compatible, and whose imported packages can
    all be enumerated. *)
Definition unitCompatible (c : Coordinator) (u : FQName) : Prop :=
  exists ast, units c !! u = Some ast /\ isJavaCompatible ast = true
              /\ forall p, p ∈ getImportedPackages ast -> is_Some (packages c !! p).

(** A unit that parses and is marked incompatible. *)
Definition unitIncompatible (c : Coordinator) (u : FQName) : Prop :=
  exists ast, units c !! u = Some ast /\ isJavaCompatible ast = false.

(** A unit at which resolution fails: it does not parse, or a package it
    imports cannot be enumerated. *)
Definition unitUnresolved (c : Coordinator) (u : FQName) : Prop :=
  units c !! u = None
  \/ exists ast p, units c !! u = Some ast /\ p ∈ getImportedPackages ast
                   /\ packages c !! p = None.

(** Iterations that are always enough for the loop. *)
Definition closureFuel (c : Coordinator) (pkg : FQName) : nat :=
  S (size (universe c) + length (default [] (packages c !! pkg))).


(** What the loop still has to go through: the units not yet seen and the
    units waiting on the worklist. *)
Definition measure (c : Coordinator) (wl : Worklist) : nat :=
  size (universe c ∖ seen wl) + length (todo wl).

(** The units parsed and the units waiting are all distinct, have all been
    seen, and everything seen is a unit of the Coordinator. *)
Definition Once (c : Coordinator) (wl : Worklist) : Prop :=
  NoDup (parsed wl ++ todo wl)
  /\ (forall u, u ∈ parsed wl ++ todo wl -> u ∈ seen wl)
  /\ (forall u, u ∈ seen wl -> u ∈ universe c).

(** A unit the loop is done with: it parsed, was compatible, and the members
    of the packages it imports have all been seen. *)
Definition Done (c : Coordinator) (s : gset FQName) (u : FQName) : Prop :=
  exists ast, units c !! u = Some ast /\ isJavaCompatible ast = true
              /\ forall p, p ∈ getImportedPackages ast ->
                   exists l, packages c !! p = Some l /\ forall x, x ∈ l -> x ∈ s.

(** The invariant of the worklist loop for the package [pkg]. *)
Definition Inv (c : Coordinator) (pkg : FQName) (wl : Worklist) : Prop :=
  (forall u, u ∈ seen wl -> reachable c pkg u)
  /\ (forall u, u ∈ todo wl -> u ∈ seen wl)
  /\ (forall members u, packages c !! pkg = Some members -> u ∈ members -> u ∈ seen wl)
  /\ (forall u, u ∈ seen wl -> u ∉ todo wl -> Done c (seen wl) u).

(** ** Further notions *)

(** A body that hands the emitter back at the depth it received it, a
    [size_t]. *)
Definition Balanced (func : Formatter * Streams -> option (Formatter * Streams)) : Prop :=
  forall st st',
    (0 <= mIndentDepth (fst st) < SIZE_MOD)%Z -> func st = Some st' ->
    mIndentDepth (fst st') = mIndentDepth (fst st).

(** The texts of several writes joined into one. *)
Definition joined (outs : list string) : string := foldr String.append "" outs.

(** The languages for which [generateSourcesForFile] calls an emitter. *)
Definition emitterLanguages : list string :=
  ["c++"; "c++-headers"; "c++-sources"; "c++-impl"; "c++-impl-headers";
   "c++-impl-sources"; "c++-adapter"; "c++-adapter-headers";
   "c++-adapter-sources"; "java"; "vts"].

(** The requests of a run served one after the other, each valid, accepted
    by the backend and generated with status OK. *)
Inductive Served (World : Type) (h : OutputHandler World) (me : string)
    (c : Coordinator) (outputPath : string) : list FQName -> World -> World -> Prop :=
| Served_nil w : Served World h me c outputPath [] w w
| Served_cons q rest w w1 w2 :
    isValid q = true -> validate World h q (mKey World h) = true ->
    generate World h q me c outputPath w = (Return OK, w1) ->
    Served World h me c outputPath rest w1 w2 ->
    Served World h me c outputPath (q :: rest) w w2.

(** The members an enumeration may hold for the source backends: fully
    qualified names of units, none of them a "types.X" sub-name. *)
Definition unitNames (members : list FQName) : Prop :=
  Forall (fun m => isFullyQualified m = true /\ find (name m) "types." 0 <> Some 0)
    members.

(** Everything seen is either parsed or waiting. *)
Definition Covered (wl : Worklist) : Prop :=
  forall u, u ∈ seen wl -> u ∈ parsed wl ++ todo wl.

(** A routine that, started at depth [d], returns at depth [d'] and has done
    nothing but append a text to the emitter's own stream. *)
Definition Runs (m : Out) (d d' : Z) : Prop :=
  forall st, mIndentDepth (fst st) = d ->
    exists b r,
      m st = Some (mkFormatter (mFile (fst st)) d' b (mLinePrefix (fst st))
                     (mSpace (fst st)),
                   fputs r (mFile (fst st)) (snd st)).

(** The line [generateHashOutput] prints for a unit. *)
Definition hashLine (FQName_string : FQName -> string)
    (parseNoHash : Coordinator -> FQName -> option AST) (hexString : AST -> string)
    (c : Coordinator) (m : FQName) : string :=
  match parseNoHash c m with
  | Some ast => c_str (hexString ast) +:+ " " +:+ c_str (FQName_string m) +:+ nl
  | None => ""
  end.

(** What every Android.mk begins with and what it ends with. *)
Definition androidMkBanner : string :=
  "# This file is autogenerated by hidl-gen. Do not edit manually." +:+ nl +:+ nl
  +:+ "LOCAL_PATH := $(call my-dir)" +:+ nl.

Definition androidMkClosing : string :=
  nl +:+ nl +:+ "include $(call all-makefiles-under,$(LOCAL_PATH))" +:+ nl.

(** The texts of the [-r] options, each followed by a blank and, in a
    makefile, by a line continuation. *)
Definition pathOptionTexts (forMakefiles : bool) (options : list string) : list string :=
  concat (map (fun option =>
                 ["-r"; option; " "]
                 ++ (if forMakefiles then [backslash +:+ nl] else [])) options).

(** Every text followed by the separator of a template argument list. *)
Definition withCommas (texts : list string) : list string :=
  concat (map (fun text => [text; "," +:+ nl]) texts).

(** The texts the loop of [adapterArguments] writes, as one list. *)
Fixpoint argumentTexts (cppName : FQName -> string) (packageInterfaces : list FQName)
    : list string :=
  match packageInterfaces with
  | [] => []
  | interface :: rest =>
      if String.eqb (name interface) "types" then argumentTexts cppName rest
      else cppName interface
           :: (if bool_decide (rest = []) then [] else ["," +:+ nl])
           ++ argumentTexts cppName rest
  end.

(** ** Sample packages *)

Definition pkgFoo : FQName := mkFQName true "android.hardware.foo" "1.0" "".
Definition fooTypes : FQName := mkFQName true "android.hardware.foo" "1.0" "types".
Definition fooIFoo : FQName := mkFQName true "android.hardware.foo" "1.0" "IFoo".

(** A types unit that declares two typedefs and nothing else. *)
Definition aliasesOnly : AST :=
  mkAST true [] [] [] [mkNamedType true "Handle"; mkNamedType true "Cookie"].

(** A world that only remembers which units were emitted, and an emitter that
    fails on a unit that is not Java-compatible. *)
Definition logEmit (e : Emitter) (ast : AST) (outputDir limitToType : string)
    (w : list AST) : status_t * list AST :=
  (if isJavaCompatible ast then OK else UNKNOWN_ERROR, w ++ [ast]).

Definition fooIBar : FQName := mkFQName true "android.hardware.foo" "1.0" "IBar".
Definition fooIBaz : FQName := mkFQName true "android.hardware.foo" "1.0" "IBaz".

Definition goodUnit : AST := mkAST true [] [] [] [].
Definition badUnit : AST := mkAST false [] [] [] [].

(** A package of three interfaces, the second of which fails to generate. *)
Definition threeUnits : Coordinator :=
  mkCoordinator {[ pkgFoo := [fooIFoo; fooIBar; fooIBaz] ]}
    (<[fooIFoo := goodUnit]> (<[fooIBar := badUnit]> {[ fooIBaz := goodUnit ]})).

(** A bare-package backend whose routine would leave a file behind. *)
Definition makefileLike : OutputHandler (list string) :=
  mkOutputHandler (list string) "makefile" NEEDS_SRC validateIsPackage
    (fun fqName _ _ outputPath w => (Return OK, w ++ [outputPath +:+ "Android.mk"])).

(** Three packages that import each other in a cycle, one interface each. *)
Definition pkgA : FQName := mkFQName true "vendor.a" "1.0" "".
Definition pkgB : FQName := mkFQName true "vendor.b" "1.0" "".
Definition pkgC : FQName := mkFQName true "vendor.c" "1.0" "".
Definition unitA : FQName := mkFQName true "vendor.a" "1.0" "IA".
Definition unitB : FQName := mkFQName true "vendor.b" "1.0" "IB".
Definition unitC : FQName := mkFQName true "vendor.c" "1.0" "IC".

Definition importing (compatible : bool) (pkg : FQName) : AST :=
  mkAST compatible [pkg] [pkg] [] [].

Definition cycle : Coordinator :=
  mkCoordinator
    (<[pkgA := [unitA]]> (<[pkgB := [unitB]]> {[ pkgC := [unitC] ]}))
    (<[unitA := importing true pkgB]>
       (<[unitB := importing true pkgC]> {[ unitC := importing true pkgA ]})).

(** A diamond: A imports B and C, and both import D. *)
Definition pkgD : FQName := mkFQName true "vendor.d" "1.0" "".
Definition unitD : FQName := mkFQName true "vendor.d" "1.0" "ID".

Definition diamond : Coordinator :=
  mkCoordinator
    (<[pkgA := [unitA]]>
       (<[pkgB := [unitB]]> (<[pkgC := [unitC]]> {[ pkgD := [unitD] ]})))
    (<[unitA := mkAST true [pkgB; pkgC] [pkgB; pkgC; pkgD] [] []]>
       (<[unitB := importing true pkgD]>
          (<[unitC := importing true pkgD]> {[ unitD := goodUnit ]}))).

(** A package whose first interface is incompatible and whose second one does
    not parse, and a package whose only interface is compatible but imports a
    package that cannot be enumerated. *)
Definition halfParsed : Coordinator :=
  mkCoordinator {[ pkgFoo := [fooIFoo; fooIBar] ]} {[ fooIFoo := badUnit ]}.


(** A package whose only member is a types unit of typedefs, and a package
    whose only interface is not Java-compatible and exports nothing. *)
Definition typedefsOnly : Coordinator :=
  mkCoordinator {[ pkgFoo := [fooTypes] ]} {[ fooTypes := aliasesOnly ]}.

Definition incompatibleOnly : Coordinator :=
  mkCoordinator {[ pkgFoo := [fooIFoo] ]} {[ fooIFoo := badUnit ]}.

(** Opening a sink leaves its path in the world. *)
Definition openSink (c : Coordinator) (outputPath : string) (pkg : FQName)
    (fileName : string) (w : list string) : Formatter * list string :=
  (Formatter_ctor (Some (stream 3)), w ++ [outputPath +:+ fileName]).

(** Renderings of a name and a sink for the examples of the text backends. *)
Definition sampleString (q : FQName) : string := package q +:+ "@" +:+ version q.
Definition sampleRootOption (q : FQName) : string := package q +:+ ":roots".
Definition samplePath (q : FQName) (relative sanitized : bool) : string :=
  package q +:+ "/".
Definition sampleSink (c : Coordinator) (outputPath : string) (pkg : FQName)
    (location : Location) (fileName : string) (io : Streams) : Formatter * Streams :=
  (Formatter_ctor (Some (stream 3)), <[stream 3 := ""]> io).

(** * Facts about the embedding *)

(** ** Strings and streams *)

Section StringFacts.

Lemma append_nil_r s : s +:+ "" = s.
Proof. induction s; simpl; congruence. Qed.

Lemma append_assoc s t u : (s +:+ t) +:+ u = s +:+ t +:+ u.
Proof. induction s; simpl; congruence. Qed.

Lemma append_eq_nil s t : s +:+ t = "" -> s = "" /\ t = "".
Proof. destruct s; simpl; [tauto | discriminate]. Qed.

Lemma drop_nil n : drop n "" = "".
Proof. destruct n; reflexivity. Qed.

Lemma drop_ge n s : String.length s <= n -> drop n s = "".
Proof.
  revert n. induction s as [|c s IH]; intros [|n] H; simpl in *; auto; try lia.
  apply IH. lia.
Qed.

Lemma drop_length n s : String.length (drop n s) = String.length s - n.
Proof.
  revert n. induction s as [|c s IH]; intros [|n]; simpl; auto.
Qed.

Lemma drop_drop n m s : drop m (drop n s) = drop (n + m) s.
Proof.
  revert n. induction s as [|c s IH]; intros [|n]; simpl; auto using drop_nil.
Qed.

Lemma substring_drop n m s : substring n m s = substring 0 m (drop n s).
Proof.
  revert n. induction s as [|c s IH]; intros [|n]; simpl; auto.
  destruct m; reflexivity.
Qed.

Lemma substring_all s : substring 0 (String.length s) s = s.
Proof. induction s; simpl; congruence. Qed.

Lemma substr_from_drop s n : substr_from s n = drop n s.
Proof.
  unfold substr_from. rewrite substring_drop, <- drop_length.
  apply substring_all.
Qed.

Lemma find_drop s needle pos :
  pos <= String.length s ->
  find s needle pos = (fun p => pos + p) <$> find (drop pos s) needle 0.
Proof.
  unfold find. revert pos.
  induction s as [|c s IH]; intros [|n] Hle; simpl in Hle; try lia.
  - change (drop 0 "") with "".
    destruct (index 0 needle ""); reflexivity.
  - change (drop 0 (String c s)) with (String c s).
    destruct (index 0 needle (String c s)); reflexivity.
  - cbn [index drop]. rewrite IH by lia.
    destruct (index 0 needle (drop n s)); reflexivity.
Qed.

Lemma c_str_nul_free s : nul_free s = true -> c_str s = s.
Proof.
  induction s as [|c s IH]; [reflexivity|]. cbn [nul_free c_str].
  destruct (decide (c = NUL)) as [->|Hc].
  - rewrite bool_decide_eq_true_2 by reflexivity. discriminate.
  - rewrite bool_decide_eq_false_2 by exact Hc. cbn [negb andb].
    intros H. rewrite IH by exact H. reflexivity.
Qed.

Lemma nul_free_c_str s : nul_free (c_str s) = true.
Proof.
  induction s as [|c s IH]; [reflexivity|]. cbn [c_str].
  destruct (decide (c = NUL)) as [->|Hc]; [reflexivity|].
  cbn [nul_free]. rewrite bool_decide_eq_false_2 by exact Hc. exact IH.
Qed.

Lemma nul_free_app s t : nul_free (s +:+ t) = nul_free s && nul_free t.
Proof.
  induction s as [|c s IH]; [reflexivity|].
  change (String c s +:+ t) with (String c (s +:+ t)). cbn [nul_free].
  rewrite IH, andb_assoc. reflexivity.
Qed.

Lemma c_str_app s t : nul_free s = true -> c_str (s +:+ t) = s +:+ c_str t.
Proof.
  induction s as [|c s IH]; [reflexivity|].
  change (String c s +:+ t) with (String c (s +:+ t)). cbn [nul_free c_str].
  destruct (decide (c = NUL)) as [->|Hc].
  - rewrite bool_decide_eq_true_2 by reflexivity. discriminate.
  - rewrite bool_decide_eq_false_2 by exact Hc. cbn [negb andb].
    intros H. rewrite IH by exact H. reflexivity.
Qed.

Lemma nul_free_spaces n : nul_free (spaces n) = true.
Proof. induction n as [|n IH]; [reflexivity | exact IH]. Qed.

Lemma nul_free_cons c s : nul_free (String c s) = true -> c <> NUL /\ nul_free s = true.
Proof.
  cbn [nul_free]. intros H. apply andb_true_iff in H as [Hc Hs].
  split; [|exact Hs]. intros ->. rewrite bool_decide_eq_true_2 in Hc by reflexivity.
  discriminate Hc.
Qed.

Lemma nul_free_drop n s : nul_free s = true -> nul_free (drop n s) = true.
Proof.
  revert n. induction s as [|c s IH]; intros [|n] H; cbn [drop]; try exact H.
  apply IH. apply nul_free_cons in H as [_ H]. exact H.
Qed.

Lemma nul_free_substring n m s : nul_free s = true -> nul_free (substring n m s) = true.
Proof.
  revert n m. induction s as [|c s IH]; intros n m H.
  - destruct n, m; reflexivity.
  - pose proof (nul_free_cons _ _ H) as [Hc Hs]. destruct n as [|n].
    + destruct m as [|m]; [reflexivity|]. cbn [substring nul_free].
      rewrite bool_decide_eq_false_2 by exact Hc. apply IH, Hs.
    + cbn [substring]. apply IH, Hs.
Qed.

Lemma append_bytes_nil fp io : append_bytes "" fp io = io.
Proof. reflexivity. Qed.

Lemma contents_append_bytes t fp io :
  contents (append_bytes t fp io) fp = contents io fp +:+ t.
Proof.
  unfold append_bytes. destruct (decide (t = "")) as [->|].
  - symmetry. apply append_nil_r.
  - unfold contents at 1. rewrite lookup_insert_eq. reflexivity.
Qed.

Lemma lookup_append_bytes_ne t fp g io : g ≠ fp -> append_bytes t fp io !! g = io !! g.
Proof.
  intros Hne. unfold append_bytes. destruct (decide (t = "")); [reflexivity|].
  apply lookup_insert_ne. intros E. apply Hne. symmetry. exact E.
Qed.

Lemma append_bytes_append_bytes s t fp io :
  append_bytes t fp (append_bytes s fp io) = append_bytes (s +:+ t) fp io.
Proof.
  unfold append_bytes at 1. destruct (decide (t = "")) as [->|Ht].
  - rewrite append_nil_r. reflexivity.
  - rewrite contents_append_bytes. unfold append_bytes.
    destruct (decide (s = "")) as [->|Hs]; simpl.
    + destruct (decide (t = "")); [contradiction|].
      rewrite append_nil_r. reflexivity.
    + destruct (decide (s +:+ t = "")) as [E|_].
      * apply append_eq_nil in E. tauto.
      * rewrite insert_insert_eq, append_assoc. reflexivity.
Qed.

Lemma fputs_nil fp io : fputs "" fp io = io.
Proof. reflexivity. Qed.

Lemma fputs_nul_free s fp io : nul_free s = true -> fputs s fp io = append_bytes s fp io.
Proof. intros H. unfold fputs. rewrite c_str_nul_free by exact H. reflexivity. Qed.

Lemma contents_fputs s fp io :
  contents (fputs s fp io) fp = contents io fp +:+ c_str s.
Proof. apply contents_append_bytes. Qed.

Lemma lookup_fputs_ne s fp g io : g ≠ fp -> fputs s fp io !! g = io !! g.
Proof. apply lookup_append_bytes_ne. Qed.

Lemma fputs_fputs s t fp io :
  fputs t fp (fputs s fp io) = fputs (c_str s +:+ t) fp io.
Proof.
  unfold fputs. rewrite append_bytes_append_bytes, c_str_app by apply nul_free_c_str.
  reflexivity.
Qed.

End StringFacts.

(** ** The deletion loop of [output] against left-to-right deletion *)

Section Deletion.

Lemma deleteFrom_skip tok k s : deleteFrom tok k s = deleteFrom tok 0 (drop k s).
Proof.
  revert k. induction s as [|c s IH]; intros [|k]; simpl; auto.
Qed.

Lemma find_0_cons s needle c p :
  find (String c s) needle 0 = Some p ->
  (String.prefix needle (String c s) = true /\ p = 0) \/
  (String.prefix needle (String c s) = false /\
   exists p', find s needle 0 = Some p' /\ p = S p').
Proof.
  unfold find. cbn [index].
  destruct (String.prefix needle (String c s)).
  - intros [= <-]. left. auto.
  - destruct (index 0 needle s) as [p'|]; [|discriminate].
    intros [= <-]. right. eauto.
Qed.

Lemma find_0_cons_None s needle c :
  find (String c s) needle 0 = None ->
  String.prefix needle (String c s) = false /\ find s needle 0 = None.
Proof.
  unfold find. cbn [index].
  destruct (String.prefix needle (String c s)); [discriminate|].
  destruct (index 0 needle s); [discriminate|]. auto.
Qed.

Lemma deleteFrom_none tok s : find s tok 0 = None -> deleteFrom tok 0 s = s.
Proof.
  induction s as [|c s IH]; [reflexivity|].
  intros H. apply find_0_cons_None in H as [P H].
  cbn [deleteFrom]. rewrite P, IH by exact H. reflexivity.
Qed.

Lemma deleteFrom_some tok s p :
  0 < String.length tok -> find s tok 0 = Some p ->
  deleteFrom tok 0 s
  = substring 0 p s +:+ deleteFrom tok 0 (drop (p + String.length tok) s).
Proof.
  intros Htok. revert p. induction s as [|c s IH]; intros p H.
  - unfold find in H. simpl in H. destruct tok; [simpl in Htok; lia | discriminate].
  - apply find_0_cons in H as [[P ->] | [P (p' & H & ->)]].
    + cbn [deleteFrom]. rewrite P, deleteFrom_skip.
      destruct (String.length tok) as [|m]; [lia|].
      simpl. rewrite Nat.sub_0_r. reflexivity.
    + cbn [deleteFrom]. rewrite P, (IH _ H). reflexivity.
Qed.

Lemma output_loop_spec text tok Hsp startPos newText :
  startPos <= String.length text ->
  output_loop text tok Hsp startPos newText
  = newText +:+ deleteFrom tok 0 (drop startPos text).
Proof.
  funelim (output_loop text tok Hsp startPos newText); intros Hle.
  - pose proof (find_ge _ _ _ _ e) as Hge.
    pose proof (find_lt _ _ _ _ Hsp e) as Hlt.
    rewrite H by lia. rewrite append_assoc. f_equal.
    pose proof e as e'. rewrite find_drop in e' by exact Hle.
    destruct (find (drop startPos text) space 0) as [q|] eqn:E; [|discriminate].
    injection e' as e'. subst matchPos.
    rewrite (deleteFrom_some _ _ _ Hsp E), drop_drop.
    unfold substr. rewrite substring_drop.
    replace (startPos + q - startPos) with q by lia.
    replace (startPos + (q + String.length space))
      with (startPos + q + String.length space) by lia.
    reflexivity.
  - rewrite substr_from_drop. f_equal. symmetry. apply deleteFrom_none.
    pose proof e as e'. rewrite find_drop in e' by exact Hle.
    destruct (find (drop startPos text) space 0); [discriminate | reflexivity].
Qed.

Lemma output_spec f text io :
  output f text io = fputs (deleteAll (mSpace f) text) (mFile f) io.
Proof.
  unfold output, deleteAll.
  destruct (lt_dec 0 (String.length (mSpace f))) as [Hsp|Hsp].
  - destruct (decide (mSpace f = "")) as [E|_].
    { exfalso. pose proof Hsp as Hsp'. rewrite E in Hsp'. simpl in Hsp'. lia. }
    destruct (find text (mSpace f) 0) as [p|] eqn:E.
    + pose proof (find_lt _ _ _ _ Hsp E).
      rewrite output_loop_spec by lia.
      rewrite (deleteFrom_some _ _ _ Hsp E). reflexivity.
    + rewrite deleteFrom_none by exact E. reflexivity.
  - destruct (decide (mSpace f = "")) as [_|E]; [reflexivity|].
    destruct (mSpace f); [contradiction | simpl in Hsp; lia].
Qed.

End Deletion.

(** ** The scanning loop of [operator<<] against the line chunks *)

Section Chunks.

Lemma find_nl_cons c s :
  find (String c s) nl 0
  = if decide (c = newline) then Some 0 else S <$> find s nl 0.
Proof.
  unfold find, nl. cbn [index String.prefix].
  destruct (ascii_dec newline c) as [E|E]; destruct (decide (c = newline)) as [D|D];
    try congruence.
  - destruct s; reflexivity.
  - destruct (index 0 (String newline "") s); reflexivity.
Qed.

Lemma chunks_no_newline t :
  find t nl 0 = None -> t <> "" -> chunks t = [t].
Proof.
  induction t as [|c t IH]; [congruence|]. intros H _.
  rewrite find_nl_cons in H. cbn [chunks].
  destruct (decide (c = newline)); [discriminate|].
  destruct (find t nl 0) eqn:E; [discriminate|].
  destruct t as [|d t]; [reflexivity|].
  rewrite IH by congruence. reflexivity.
Qed.

Lemma chunks_newline t p :
  find t nl 0 = Some p ->
  chunks t = substring 0 (p + 1) t :: chunks (drop (p + 1) t).
Proof.
  revert p. induction t as [|c t IH]; intros p H.
  - discriminate.
  - rewrite find_nl_cons in H. cbn [chunks].
    destruct (decide (c = newline)) as [->|Hc].
    + injection H as <-. simpl. destruct t; reflexivity.
    + destruct (find t nl 0) as [q|] eqn:E; [|discriminate].
      injection H as <-. rewrite (IH _ eq_refl). reflexivity.
Qed.

Lemma endsWithNewline_chunk t p :
  find t nl 0 = Some p -> endsWithNewline (substring 0 (p + 1) t) = true.
Proof.
  revert p. induction t as [|c t IH]; intros p H; [discriminate|].
  rewrite find_nl_cons in H.
  destruct (decide (c = newline)) as [->|Hc].
  - injection H as <-. simpl. destruct t; reflexivity.
  - destruct (find t nl 0) as [q|] eqn:E; [|discriminate].
    injection H as <-. specialize (IH _ eq_refl).
    change (substring 0 (S q + 1) (String c t))
      with (String c (substring 0 (q + 1) t)).
    cbn [endsWithNewline].
    destruct (substring 0 (q + 1) t) eqn:S; [discriminate IH | exact IH].
Qed.

Lemma endsWithNewline_no_newline t :
  find t nl 0 = None -> endsWithNewline t = false.
Proof.
  induction t as [|c t IH]; [reflexivity|]. intros H.
  rewrite find_nl_cons in H.
  destruct (decide (c = newline)) as [->|Hc]; [discriminate|].
  destruct (find t nl 0) eqn:E; [discriminate|].
  cbn [endsWithNewline]. destruct t as [|d t].
  - apply bool_decide_eq_false. exact Hc.
  - apply IH. reflexivity.
Qed.

Lemma chunk_is_nl t p :
  find t nl 0 = Some p -> (substring 0 (p + 1) t = nl <-> p = 0).
Proof.
  destruct t as [|c t]; [discriminate|]. intros H.
  rewrite find_nl_cons in H.
  destruct (decide (c = newline)) as [->|Hc].
  - injection H as <-. split; [reflexivity|]. intros _. simpl. destruct t; reflexivity.
  - destruct (find t nl 0) as [q|]; [|discriminate]. injection H as <-.
    split; [|discriminate]. simpl. intros [= E _]. contradiction.
Qed.

Lemma print_line_start_spec f io :
  print_line_start f io = append_bytes (line_lead f) (mFile f) io.
Proof.
  unfold print_line_start, line_lead, fputs. rewrite append_bytes_append_bytes.
  rewrite (c_str_nul_free (spaces _)) by apply nul_free_spaces. reflexivity.
Qed.

Lemma output_printed f text io :
  output f text io = append_bytes (printed (mSpace f) text) (mFile f) io.
Proof. rewrite output_spec. reflexivity. Qed.

Lemma setAtStartOfLine_id f : setAtStartOfLine (mAtStartOfLine f) f = f.
Proof. destruct f; reflexivity. Qed.

Lemma setAtStartOfLine_twice a b f :
  setAtStartOfLine b (setAtStartOfLine a f) = setAtStartOfLine b f.
Proof. reflexivity. Qed.

Ltac simpl_setAt :=
  repeat match goal with
  | |- context [line_lead (setAtStartOfLine ?b ?f)] =>
      change (line_lead (setAtStartOfLine b f)) with (line_lead f)
  | |- context [mSpace (setAtStartOfLine ?b ?f)] =>
      change (mSpace (setAtStartOfLine b f)) with (mSpace f)
  | |- context [mFile (setAtStartOfLine ?b ?f)] =>
      change (mFile (setAtStartOfLine b f)) with (mFile f)
  | |- context [mAtStartOfLine (setAtStartOfLine ?b ?f)] =>
      change (mAtStartOfLine (setAtStartOfLine b f)) with b
  | |- context [setAtStartOfLine ?b (setAtStartOfLine ?a ?f)] =>
      change (setAtStartOfLine b (setAtStartOfLine a f)) with (setAtStartOfLine b f)
  end.

Lemma shl_loop_spec out start st :
  start <= String.length out ->
  shl_loop out start st
  = written (fst st) (snd st)
      (renderChunks (line_lead (fst st)) (printed (mSpace (fst st)))
         (mAtStartOfLine (fst st)) (chunks (drop start out))).
Proof.
  funelim (shl_loop out start st); intros Hle.
  - apply Nat.ltb_ge in Heq.
    rewrite drop_ge by exact Heq. destruct st as [f io]. unfold written. simpl.
    rewrite setAtStartOfLine_id. reflexivity.
  - pose proof (find_ge _ _ _ _ e) as Hge.
    assert (Hlt : pos + 1 <= String.length out).
    { apply (find_lt _ nl start); [simpl; lia | exact e]. }
    rewrite (H Hlt). clear H Heqcall.
    pose proof e as e'. rewrite find_drop in e' by exact Hle.
    destruct (find (drop start out) nl 0) as [p|] eqn:E; [|discriminate].
    injection e' as e'. subst pos.
    rewrite (chunks_newline _ _ E), drop_drop.
    replace (start + (p + 1)) with (start + p + 1) by lia.
    pose proof (chunk_is_nl _ _ E) as Hnl.
    pose proof (endsWithNewline_chunk _ _ E) as Hend.
    destruct st as [f io]. cbn [fst snd renderChunks]. rewrite Hend.
    destruct (Nat.eqb_spec (start + p) start) as [Hp|Hp].
    + assert (p = 0) as -> by lia.
      destruct (decide (substring 0 (0 + 1) (drop start out) = nl)) as [_|N];
        [|exfalso; apply N, Hnl; reflexivity].
      unfold written. cbn [fst snd]. simpl_setAt.
      destruct (renderChunks (line_lead f) (printed (mSpace f)) true
                  (chunks (drop (start + 0 + 1) out))) as [r b].
      cbn [fst snd]. change (fputs nl (mFile f) io) with (append_bytes nl (mFile f) io).
      rewrite append_bytes_append_bytes. reflexivity.
    + destruct (Nat.ltb_spec start (start + p)) as [_|]; [|lia].
      destruct (decide (substring 0 (p + 1) (drop start out) = nl)) as [N|_];
        [apply Hnl in N; lia|].
      unfold written. cbn [fst snd]. simpl_setAt.
      destruct (renderChunks (line_lead f) (printed (mSpace f)) true
                  (chunks (drop (start + p + 1) out))) as [r b].
      cbn [fst snd].
      rewrite output_printed. unfold substr. rewrite substring_drop.
      replace (start + p - start + 1) with (p + 1) by lia.
      destruct (mAtStartOfLine f).
      * rewrite print_line_start_spec, !append_bytes_append_bytes, ?append_assoc.
        reflexivity.
      * rewrite !append_bytes_append_bytes. reflexivity.
  - clear Heqcall. apply Nat.ltb_lt in Heq.
    pose proof e as e'. rewrite find_drop in e' by exact Hle.
    destruct (find (drop start out) nl 0) as [p|] eqn:E; [discriminate|].
    assert (drop start out <> "") as Hne.
    { intros D. pose proof (drop_length start out) as L. rewrite D in L.
      simpl in L. lia. }
    rewrite (chunks_no_newline _ E Hne).
    destruct st as [f io]. cbn [fst snd renderChunks].
    rewrite (endsWithNewline_no_newline _ E).
    destruct (decide (drop start out = nl)) as [D|_].
    { rewrite D in E. discriminate E. }
    rewrite substr_from_drop. unfold written. cbn [fst snd].
    destruct (mAtStartOfLine f) eqn:A; cbn [fst snd].
    + rewrite output_printed, print_line_start_spec. cbn [mSpace mFile setAtStartOfLine].
      rewrite append_bytes_append_bytes, append_nil_r. reflexivity.
    + rewrite output_printed, append_nil_r. simpl.
      rewrite <- A, setAtStartOfLine_id. reflexivity.
Qed.

Lemma operator_shl_chunks f io out :
  operator_shl (f, io) out
  = written f io
      (renderChunks (line_lead f) (printed (mSpace f)) (mAtStartOfLine f)
         (chunks out)).
Proof. unfold operator_shl. rewrite shl_loop_spec by lia. reflexivity. Qed.

End Chunks.

(** ** Chunk by chunk and character by character agree *)

Section Layout.

Lemma chunks_head_nonempty s k ks : chunks s = k :: ks -> k <> "".
Proof.
  destruct s as [|c s]; [discriminate|]. cbn [chunks].
  destruct (decide (c = newline)); [intros [= <- _]; discriminate|].
  destruct (chunks s); intros [= <- _]; discriminate.
Qed.

Lemma chunks_nil s : chunks s = [] -> s = "".
Proof.
  destruct s as [|c s]; [reflexivity|]. cbn [chunks].
  destruct (decide (c = newline)); [discriminate|].
  destruct (chunks s); discriminate.
Qed.

Lemma deleteAll_nil s : deleteAll "" s = s.
Proof. reflexivity. Qed.

Lemma renderChunks_false_cons lead k ks :
  renderChunks lead (deleteAll "") false (k :: ks)
  = (k +:+ fst (renderChunks lead (deleteAll "") (endsWithNewline k) ks),
     snd (renderChunks lead (deleteAll "") (endsWithNewline k) ks)).
Proof.
  cbn [renderChunks].
  destruct (renderChunks lead (deleteAll "") (endsWithNewline k) ks) as [r b].
  destruct (decide (k = nl)) as [->|]; reflexivity.
Qed.

Lemma renderChunks_layout lead atStart s :
  renderChunks lead (deleteAll "") atStart (chunks s) = layout lead atStart s.
Proof.
  revert atStart. induction s as [|c s IH]; intros atStart; [reflexivity|].
  cbn [chunks layout]. destruct (decide (c = newline)) as [->|Hc].
  - cbn [renderChunks]. change (endsWithNewline nl) with true.
    rewrite IH. destruct (layout lead true s) as [r b].
    destruct (decide (nl = nl)); [reflexivity | contradiction].
  - rewrite <- (IH false). destruct (chunks s) as [|k ks] eqn:K.
    + cbn [renderChunks endsWithNewline].
      rewrite bool_decide_eq_false_2 by exact Hc.
      destruct (decide (String c "" = nl)) as [[= E]|_]; [contradiction|].
      rewrite deleteAll_nil. reflexivity.
    + rewrite renderChunks_false_cons.
      pose proof (chunks_head_nonempty _ _ _ K) as Hk.
      cbn [renderChunks].
      replace (endsWithNewline (String c k)) with (endsWithNewline k)
        by (destruct k; [contradiction | reflexivity]).
      destruct (renderChunks lead (deleteAll "") (endsWithNewline k) ks) as [r b].
      destruct (decide (String c k = nl)) as [[= E1 E2]|_]; [contradiction|].
      rewrite deleteAll_nil. reflexivity.
Qed.

Lemma layout_flag lead atStart s :
  snd (layout lead atStart s)
  = if decide (s = "") then atStart else endsWithNewline s.
Proof.
  revert atStart. induction s as [|c s IH]; intros atStart; [reflexivity|].
  cbn [layout endsWithNewline].
  destruct (decide (String c s = "")) as [|_]; [discriminate|].
  destruct (decide (c = newline)) as [->|Hc].
  - specialize (IH true). destruct (layout lead true s) as [r b]. simpl in *.
    rewrite IH. destruct s; reflexivity.
  - specialize (IH false). destruct (layout lead false s) as [r b]. simpl in *.
    rewrite IH. destruct s; [|reflexivity]. simpl.
    symmetry. apply bool_decide_eq_false_2. exact Hc.
Qed.

Lemma layout_trailing_newline lead atStart s :
  layout lead atStart (s +:+ nl) = (fst (layout lead atStart s) +:+ nl, true).
Proof.
  revert atStart. induction s as [|c s IH]; intros atStart; [reflexivity|].
  simpl. destruct (decide (c = newline)).
  - rewrite IH. destruct (layout lead true s). reflexivity.
  - rewrite IH. destruct (layout lead false s). simpl.
    rewrite append_assoc. reflexivity.
Qed.

Lemma to_int_small x : (0 <= x <= INT_MAX)%Z -> to_int (x mod SIZE_MOD) = x.
Proof.
  unfold INT_MAX, SIZE_MOD, to_int. intros H.
  rewrite (Z.mod_small x (2 ^ 64)) by lia.
  rewrite (Z.mod_small x (2 ^ 32)) by lia.
  destruct (Z.ltb_spec x (2 ^ 31)); lia.
Qed.

Lemma indent_width_small f :
  (0 <= mIndentDepth f)%Z -> (4 * mIndentDepth f <= INT_MAX)%Z ->
  indent_width f = 4 * Z.to_nat (mIndentDepth f).
Proof.
  intros H0 H1. unfold indent_width. cbv zeta. rewrite to_int_small by lia.
  destruct (Z.eqb_spec (4 * mIndentDepth f) INT_MIN) as [E|_];
    [unfold INT_MIN in E; lia | lia].
Qed.

Lemma line_lead_small f :
  (0 <= mIndentDepth f)%Z -> (4 * mIndentDepth f <= INT_MAX)%Z ->
  line_lead f = c_str (mLinePrefix f) +:+ spaces (4 * Z.to_nat (mIndentDepth f)).
Proof. intros H0 H1. unfold line_lead. rewrite indent_width_small by assumption. reflexivity. Qed.

Lemma renderChunks_ext lead flt flt' atStart ks :
  Forall (fun k => flt k = flt' k) ks ->
  renderChunks lead flt atStart ks = renderChunks lead flt' atStart ks.
Proof.
  intros H. revert atStart. induction H as [|k ks Hk _ IH]; intros atStart;
    [reflexivity|].
  cbn [renderChunks]. rewrite IH, Hk. reflexivity.
Qed.

Lemma renderChunks_flag lead flt lead' flt' atStart ks :
  snd (renderChunks lead flt atStart ks) = snd (renderChunks lead' flt' atStart ks).
Proof.
  revert atStart. induction ks as [|k ks IH]; intros atStart; [reflexivity|].
  cbn [renderChunks]. specialize (IH (endsWithNewline k)).
  destruct (renderChunks lead flt (endsWithNewline k) ks) as [r b].
  destruct (renderChunks lead' flt' (endsWithNewline k) ks) as [r' b'].
  cbn [snd] in IH. subst b'. destruct (decide (k = nl)); reflexivity.
Qed.

Lemma chunks_nul_free s :
  nul_free s = true -> Forall (fun k => nul_free k = true) (chunks s).
Proof.
  induction s as [|c s IH]; intros H; [constructor|].
  pose proof (nul_free_cons _ _ H) as [Hc Hs]. specialize (IH Hs). cbn [chunks].
  destruct (decide (c = newline)); [constructor; [reflexivity | exact IH]|].
  destruct (chunks s) as [|k ks].
  - constructor; [|constructor]. cbn [nul_free].
    rewrite bool_decide_eq_false_2 by exact Hc. reflexivity.
  - inversion IH as [|? ? Hk Hks]; subst. constructor; [|exact Hks].
    cbn [nul_free]. rewrite bool_decide_eq_false_2 by exact Hc. exact Hk.
Qed.

Lemma deleteFrom_nul_free tok k s :
  nul_free s = true -> nul_free (deleteFrom tok k s) = true.
Proof.
  revert k. induction s as [|c s IH]; intros k H; [reflexivity|].
  pose proof (nul_free_cons _ _ H) as [Hc Hs]. cbn [deleteFrom]. destruct k as [|k].
  - destruct (String.prefix tok (String c s)); [apply IH, Hs|].
    cbn [nul_free]. rewrite bool_decide_eq_false_2 by exact Hc. apply IH, Hs.
  - apply IH, Hs.
Qed.

Lemma printed_nul_free tok s : nul_free s = true -> printed tok s = deleteAll tok s.
Proof.
  intros H. unfold printed. apply c_str_nul_free. unfold deleteAll.
  destruct (decide (tok = "")); [exact H | apply deleteFrom_nul_free, H].
Qed.

Lemma renderChunks_printed lead tok atStart s :
  nul_free s = true ->
  renderChunks lead (printed tok) atStart (chunks s)
  = renderChunks lead (deleteAll tok) atStart (chunks s).
Proof.
  intros H. apply renderChunks_ext.
  eapply Forall_impl; [apply chunks_nul_free, H|]. intros k Hk.
  apply printed_nul_free, Hk.
Qed.

Lemma layout_nolead atStart s :
  fst (layout "" atStart s) = s.
Proof.
  revert atStart. induction s as [|c s IH]; intros atStart; [reflexivity|].
  cbn [layout]. destruct (decide (c = newline)).
  - specialize (IH true). destruct (layout "" true s). cbn in *. congruence.
  - specialize (IH false). destruct (layout "" false s). cbn [fst] in *.
    destruct atStart; cbn; congruence.
Qed.

Lemma operator_shl_flag f io out :
  mAtStartOfLine (fst (operator_shl (f, io) out))
  = if decide (out = "") then mAtStartOfLine f else endsWithNewline out.
Proof.
  rewrite operator_shl_chunks. unfold written. cbn [fst mAtStartOfLine setAtStartOfLine].
  rewrite (renderChunks_flag _ _ "" (deleteAll "")), renderChunks_layout.
  apply layout_flag.
Qed.

Lemma shl_all_empty st n : shl_all st (replicate n "") = st.
Proof.
  induction n as [|n IH]; [reflexivity|]. simpl. destruct st as [f io].
  exact IH.
Qed.

End Layout.

(** * The emitter's properties *)

(** C5, as stated, fails: at indent depth 2 the text "a", newline, newline,
    "b" comes out with an empty second line, where prefixing every new output
    line would give that line its 8 blanks. Four more things limit the
    claim: a NUL in the text cuts off the rest of its line chunk, newline
    included; a NUL in the line prefix cuts off the rest of the prefix; at
    depth 2^30 the width 4 x depth is 0 as an [int], so the line gets no
    blank at all; and with the newline as elision token the trailing newline
    of a line is deleted. *)
Lemma blank_line_gets_no_prefix :
  let f := indent 2 (Formatter_ctor (Some (stream 3))) in
  let out := "a" +:+ nl +:+ nl +:+ "b" in
  (contents (snd (operator_shl (f, ∅) out)) (stream 3)
   = spaces 8 +:+ "a" +:+ nl +:+ nl +:+ spaces 8 +:+ "b"
   /\ fst (layoutEager (line_lead f) (mAtStartOfLine f) out)
      = spaces 8 +:+ "a" +:+ nl +:+ spaces 8 +:+ nl +:+ spaces 8 +:+ "b"
   /\ operator_shl (f, ∅) out
      <> written f ∅ (layoutEager (line_lead f) (mAtStartOfLine f) out))
  /\ contents (snd (operator_shl (f, ∅) ("a" +:+ String NUL "b" +:+ nl +:+ "c")))
       (stream 3)
     = spaces 8 +:+ "a" +:+ spaces 8 +:+ "c"
  /\ contents (snd (operator_shl
                      (setLinePrefix ("// " +:+ String NUL "!")
                         (Formatter_ctor (Some (stream 3))), ∅) "x")) (stream 3)
     = "// x"
  /\ contents (snd (operator_shl (indent (2 ^ 30) (Formatter_ctor (Some (stream 3))), ∅)
                      "x")) (stream 3)
     = "x"
  /\ contents (snd (operator_shl (setNamespace nl (Formatter_ctor (Some (stream 3))), ∅)
                      ("x" +:+ nl))) (stream 3)
     = "x".
Proof.
  split; [|repeat split; vm_compute; reflexivity].
  split; [vm_compute; reflexivity|]. split; [vm_compute; reflexivity|].
  intros E. apply (f_equal (fun r => contents (snd r) (stream 3))) in E.
  vm_compute in E. discriminate E.
Qed.

(** C5, amended: for a text without NUL and an indent depth whose fourfold
    fits an [int], a write sends its line chunks to the sink one after the
    other: a bare newline is copied as it is, and any other chunk goes out,
    with the occurrences of the elision token deleted, after the line prefix,
    up to its first NUL, and 4 blanks per indent level when the emitter is at
    the start of a line. With no elision token this is the text laid out
    character by character. The emitter ends at the start of a line exactly
    when the text ended in a newline (an empty text leaves the flag alone),
    so a text without a trailing newline stays a pending partial line; with
    no elision token a trailing newline adds that newline and nothing else;
    and any number of zero-length writes changes nothing. *)
Theorem write_lays_out_lines (f : Formatter) (io : Streams) (out : string) (n : nat) :
  (0 <= mIndentDepth f)%Z -> (4 * mIndentDepth f <= INT_MAX)%Z ->
  nul_free out = true ->
  let lead := c_str (mLinePrefix f) +:+ spaces (4 * Z.to_nat (mIndentDepth f)) in
  operator_shl (f, io) out
  = written f io
      (renderChunks lead (deleteAll (mSpace f)) (mAtStartOfLine f) (chunks out))
  /\ (mSpace f = "" ->
      operator_shl (f, io) out = written f io (layout lead (mAtStartOfLine f) out))
  /\ mAtStartOfLine (fst (operator_shl (f, io) out))
     = (if decide (out = "") then mAtStartOfLine f else endsWithNewline out)
  /\ (mSpace f = "" ->
      operator_shl (f, io) (out +:+ nl)
      = written f io (fst (layout lead (mAtStartOfLine f) out) +:+ nl, true))
  /\ shl_all (f, io) (replicate n "") = (f, io).
Proof.
  intros H0 Hmax Hout lead.
  assert (Hlead : line_lead f = lead) by (apply line_lead_small; assumption).
  assert (Hany : forall text, nul_free text = true ->
            operator_shl (f, io) text
            = written f io
                (renderChunks lead (deleteAll (mSpace f)) (mAtStartOfLine f)
                   (chunks text))).
  { intros text Htext. rewrite operator_shl_chunks, Hlead.
    rewrite renderChunks_printed by exact Htext. reflexivity. }
  split; [apply Hany, Hout|]. split; [|split; [|split]].
  - intros Hns. rewrite Hany by exact Hout. rewrite Hns, renderChunks_layout.
    reflexivity.
  - apply operator_shl_flag.
  - intros Hns. rewrite Hany by (rewrite nul_free_app, Hout; reflexivity).
    rewrite Hns, renderChunks_layout, layout_trailing_newline. reflexivity.
  - apply shl_all_empty.
Qed.

Lemma write_lays_out_lines_witness :
  operator_shl (indent 2 (Formatter_ctor (Some (stream 3))), ∅)
    ("line1" +:+ nl +:+ "line2")
  = (setAtStartOfLine false (indent 2 (Formatter_ctor (Some (stream 3)))),
     fputs (spaces 8 +:+ "line1" +:+ nl +:+ spaces 8 +:+ "line2") (stream 3) ∅).
Proof.
  destruct (write_lays_out_lines
              (indent 2 (Formatter_ctor (Some (stream 3)))) ∅
              ("line1" +:+ nl +:+ "line2") 0) as (_ & H & _).
  - vm_compute. discriminate.
  - vm_compute. discriminate.
  - reflexivity.
  - rewrite H by reflexivity. vm_compute. reflexivity.
Defined.

(** C6, as stated, fails: a token that contains a newline reaches the sink
    intact, and so does an occurrence of "foo::" that two consecutive writes
    put together. A token that is the newline itself is not deleted from a
    blank line, and a NUL in the text cuts off the rest of its line chunk,
    token or not. *)
Lemma token_across_chunks_survives :
  let tok := "a" +:+ nl +:+ "b" in
  let f := setNamespace tok (Formatter_ctor (Some (stream 3))) in
  let g := setNamespace "foo::" (Formatter_ctor (Some (stream 3))) in
  contents (snd (operator_shl (f, ∅) tok)) (stream 3) = tok
  /\ deleteAll tok tok = ""
  /\ contents (snd (shl_all (g, ∅) ["foo"; "::Bar"])) (stream 3) = "foo::Bar"
  /\ deleteAll "foo::" ("foo" +:+ "::Bar") = "Bar"
  /\ contents (snd (operator_shl (setNamespace nl (Formatter_ctor (Some (stream 3))), ∅)
                      (nl +:+ "x"))) (stream 3)
     = nl +:+ "x"
  /\ contents (snd (operator_shl (g, ∅) ("foo::a" +:+ String NUL "foo::b")))
       (stream 3)
     = "a".
Proof. repeat split; vm_compute; reflexivity. Qed.

(** C6, amended: after [setNamespace(token)] with a non-empty token, a write
    is cut into its line chunks; a chunk that is a bare newline is copied as
    it is, and every other chunk reaches the sink, after the line lead when
    one is due, with every occurrence of the token, found scanning the chunk
    from the left, deleted, and then only up to its first NUL. Occurrences
    that straddle a newline or two writes are left alone. In particular a
    non-empty text without a newline reaches the sink with every such
    occurrence deleted. The line lead is the same for every write: the line
    prefix and 4 blanks per indent level when the fourfold depth fits an
    [int]. *)
Theorem namespace_elided_per_chunk (f : Formatter) (tok : string) :
  tok <> "" ->
  let g := setNamespace tok f in
  exists lead,
    ((0 <= mIndentDepth f)%Z -> (4 * mIndentDepth f <= INT_MAX)%Z ->
     lead = c_str (mLinePrefix f) +:+ spaces (4 * Z.to_nat (mIndentDepth f)))
    /\ forall io out,
         operator_shl (g, io) out
         = written g io
             (renderChunks lead (fun k => c_str (deleteFrom tok 0 k))
                (mAtStartOfLine f) (chunks out))
         /\ (find out nl 0 = None -> out <> "" ->
             operator_shl (g, io) out
             = written g io ((if mAtStartOfLine f then lead else "")
                             +:+ c_str (deleteFrom tok 0 out), false)).
Proof.
  intros Htok g. exists (line_lead f). split; [apply line_lead_small|].
  assert (Hflt : forall k, printed tok k = c_str (deleteFrom tok 0 k)).
  { intros k. unfold printed, deleteAll.
    destruct (decide (tok = "")); [contradiction | reflexivity]. }
  intros io out.
  assert (Hall : operator_shl (g, io) out
                 = written g io
                     (renderChunks (line_lead f) (fun k => c_str (deleteFrom tok 0 k))
                        (mAtStartOfLine f) (chunks out))).
  { rewrite operator_shl_chunks. unfold g.
    cbn [mSpace setNamespace mAtStartOfLine].
    change (line_lead (setNamespace tok f)) with (line_lead f).
    f_equal. apply renderChunks_ext, Forall_forall. intros k _. apply Hflt. }
  split; [exact Hall|].
  intros Hnl Hne. rewrite Hall, (chunks_no_newline _ Hnl Hne). cbn [renderChunks].
  rewrite (endsWithNewline_no_newline _ Hnl).
  destruct (decide (out = nl)) as [->|_]; [discriminate Hnl|].
  rewrite append_nil_r. reflexivity.
Qed.

Lemma namespace_elided_per_chunk_witness :
  operator_shl (setNamespace "foo::" (Formatter_ctor (Some (stream 3))), ∅)
    "foo::Bar foo::Baz"
  = (setAtStartOfLine false (setNamespace "foo::" (Formatter_ctor (Some (stream 3)))),
     fputs "Bar Baz" (stream 3) ∅).
Proof.
  destruct (namespace_elided_per_chunk (Formatter_ctor (Some (stream 3))) "foo::")
    as (lead & Hlead & H); [discriminate|].
  rewrite (proj2 (H ∅ "foo::Bar foo::Baz")) by (reflexivity || discriminate).
  rewrite Hlead by (vm_compute; discriminate). reflexivity.
Defined.

(** C8: an [unindent] by more than the current depth fails the assertion
    instead of clamping or wrapping; any other [unindent] lowers the depth by
    exactly the given amount and changes nothing else; and the depth, a
    [size_t], stays within [0, 2^64) under [indent] and [unindent]. *)
Theorem unindent_checked (f : Formatter) (level : Z) :
  (0 <= mIndentDepth f < SIZE_MOD)%Z -> (0 <= level < SIZE_MOD)%Z ->
  ((mIndentDepth f < level)%Z -> unindent level f = None)
  /\ ((level <= mIndentDepth f)%Z ->
      unindent level f = Some (setIndentDepth (mIndentDepth f - level) f))
  /\ (forall f', unindent level f = Some f' ->
      mIndentDepth f' = (mIndentDepth f - level)%Z
      /\ (0 <= mIndentDepth f' < SIZE_MOD)%Z)
  /\ (0 <= mIndentDepth (indent level f) < SIZE_MOD)%Z.
Proof.
  intros Hd Hl. unfold unindent.
  destruct (Z.leb_spec level (mIndentDepth f)) as [Hle|Hlt].
  - split; [lia|]. split; [reflexivity|]. split.
    + intros f' [= <-]. simpl. lia.
    + simpl. apply Z.mod_pos_bound. reflexivity.
  - split; [reflexivity|]. split; [lia|]. split.
    + discriminate.
    + simpl. apply Z.mod_pos_bound. reflexivity.
Qed.

Lemma unindent_checked_witness :
  unindent 2 (indent 1 (Formatter_ctor None)) = None
  /\ unindent 1 (indent 1 (Formatter_ctor None))
     = Some (setIndentDepth 0 (indent 1 (Formatter_ctor None))).
Proof.
  split.
  - apply (unindent_checked (indent 1 (Formatter_ctor None)) 2); vm_compute; intuition discriminate.
  - apply (unindent_checked (indent 1 (Formatter_ctor None)) 1); vm_compute; intuition discriminate.
Defined.

(** C9, as stated, fails: the emitter built from a null [FILE *] is directed
    to standard output, and a write to it puts its text there. *)
Lemma write_to_null_file_reaches_stdout :
  mFile (Formatter_ctor None) = stdout
  /\ contents (snd (operator_shl (Formatter_ctor None, ∅) "x")) stdout = "x"
  /\ snd (operator_shl (Formatter_ctor None, ∅) "x") <> ∅.
Proof.
  split; [reflexivity|]. split; [vm_compute; reflexivity|].
  intros E. apply (f_equal (fun io => contents io stdout)) in E.
  vm_compute in E. discriminate E.
Qed.

(** C9, amended: an emitter built from a null [FILE *] answers the validity
    query of Formatter.h, whichever query that is, and a caller may write to
    it before asking: the write returns whatever the answer would have been.
    But the write is no no-op: the emitter is directed to standard output,
    and the write appends to it the line chunks of the text, each up to its
    first NUL, so a text without NUL is appended as it is; no other stream is
    touched, and the emitter stays directed to standard output. *)
Theorem null_file_writes_to_stdout (isValid : Formatter -> bool) (io : Streams)
    (out : string) :
  let f := Formatter_ctor None in
  let st := operator_shl (f, io) out in
  (isValid f = true \/ isValid f = false)
  /\ (if isValid f then operator_shl (f, io) out else operator_shl (f, io) out) = st
  /\ mFile (fst st) = stdout
  /\ contents (snd st) stdout
     = contents io stdout +:+ fst (renderChunks "" c_str true (chunks out))
  /\ (nul_free out = true -> contents (snd st) stdout = contents io stdout +:+ out)
  /\ forall fd, snd st !! stream fd = io !! stream fd.
Proof.
  cbv zeta.
  assert (Hst : operator_shl (Formatter_ctor None, io) out
                = written (Formatter_ctor None) io
                    (renderChunks "" c_str true (chunks out))).
  { rewrite operator_shl_chunks. f_equal. }
  split; [destruct (isValid (Formatter_ctor None)); tauto|].
  split; [destruct (isValid (Formatter_ctor None)); reflexivity|].
  rewrite Hst. unfold written. cbn [fst snd]. repeat split.
  - apply contents_append_bytes.
  - intros Hout. rewrite contents_append_bytes. f_equal.
    change c_str with (fun k => c_str k).
    rewrite (renderChunks_ext "" (fun k => c_str k) (deleteAll "")).
    + rewrite renderChunks_layout. apply layout_nolead.
    + eapply Forall_impl; [apply chunks_nul_free, Hout|]. intros k Hk.
      apply c_str_nul_free, Hk.
  - intros fd. apply lookup_append_bytes_ne. discriminate.
Qed.

(** * The driver's properties *)

(** C4: [packageNeedsJavaCode] returns false exactly when the only member is
    the "types" unit and every type declared in it is a typedef; it returns
    true exactly when the list is not empty and there is a second member, or
    the first member is not "types", or some declared type is not a typedef;
    and it returns one or the other for every non-empty list when the types
    unit is at hand. *)
Theorem packageNeedsJavaCode_spec (packageInterfaces : list FQName) (t : option AST) :
  (packageNeedsJavaCode packageInterfaces t = Some false <->
   exists m ast,
     packageInterfaces = [m] /\ name m = "types" /\ t = Some ast
     /\ Forall (fun ty => isTypeDef ty = true) (getSubTypes ast))
  /\ (packageNeedsJavaCode packageInterfaces t = Some true <->
      packageInterfaces <> []
      /\ (2 <= length packageInterfaces
          \/ (exists m rest, packageInterfaces = m :: rest /\ name m <> "types")
          \/ (exists ast, t = Some ast
              /\ Exists (fun ty => isTypeDef ty = false) (getSubTypes ast))))
  /\ (packageInterfaces <> [] -> forall ast, t = Some ast ->
      is_Some (packageNeedsJavaCode packageInterfaces t)).
Proof.
  assert (Hall : forall l, existsb (fun ty => negb (isTypeDef ty)) l = false
                           <-> Forall (fun ty => isTypeDef ty = true) l).
  { induction l as [|ty l IH]; simpl.
    - split; auto.
    - rewrite orb_false_iff, IH, Forall_cons, negb_false_iff. tauto. }
  assert (Hex : forall l, existsb (fun ty => negb (isTypeDef ty)) l = true
                          <-> Exists (fun ty => isTypeDef ty = false) l).
  { induction l as [|ty l IH]; simpl.
    - split; [discriminate | intros H; inversion H].
    - rewrite orb_true_iff, IH, Exists_cons, negb_true_iff. tauto. }
  unfold packageNeedsJavaCode.
  destruct packageInterfaces as [|m rest].
  { split; [|split].
    - split; [discriminate | intros (? & ? & [=] & _)].
    - split; [discriminate | intros [H _]; contradiction].
    - intros H; contradiction. }
  destruct (Nat.ltb_spec 1 (length (m :: rest))) as [Hlen|Hlen]; cbn [orb].
  { split; [|split].
    - split; [discriminate|]. intros (m' & ast & [= -> ->] & _). simpl in Hlen. lia.
    - split; [|reflexivity]. intros _. split; [discriminate | left; lia].
    - intros _ ast _. eauto. }
  assert (rest = []) as -> by (destruct rest; [reflexivity | simpl in Hlen; lia]).
  destruct (String.eqb_spec (name m) "types") as [Hn|Hn]; cbn [negb].
  - destruct t as [ast|].
    + split; [|split].
      * split.
        -- intros [= H]. apply Hall in H. eauto 10.
        -- intros (m' & ast' & _ & _ & [= <-] & H). f_equal. apply Hall, H.
      * split.
        -- intros [= H]. apply Hex in H. split; [discriminate|]. eauto 10.
        -- intros [_ [H | [(m' & r' & [= <- _] & H) | (ast' & [= <-] & H)]]].
           ++ simpl in H. lia.
           ++ contradiction.
           ++ f_equal. apply Hex, H.
      * intros _ ast' _. eauto.
    + split; [|split].
      * split; [discriminate | intros (? & ? & _ & _ & [=] & _)].
      * split; [discriminate|].
        intros [_ [H | [(m' & r' & [= <- _] & H) | (ast' & [=] & _)]]].
        -- simpl in H. lia.
        -- contradiction.
      * intros _ ast [=].
  - split; [|split].
    + split; [discriminate|]. intros (m' & ast & [= <-] & H & _). contradiction.
    + split; [|reflexivity]. intros _. split; [discriminate|]. right. left. eauto.
    + intros _ ast _. eauto.
Qed.

Lemma packageNeedsJavaCode_spec_witness :
  packageNeedsJavaCode [fooTypes] (Some aliasesOnly) = Some false
  /\ is_Some (packageNeedsJavaCode [fooTypes; fooIFoo] (Some aliasesOnly)).
Proof.
  split.
  - apply (packageNeedsJavaCode_spec [fooTypes] (Some aliasesOnly)).
    exists fooTypes, aliasesOnly. repeat split. repeat constructor.
  - destruct (packageNeedsJavaCode_spec [fooTypes; fooIFoo] (Some aliasesOnly))
      as (_ & _ & H).
    apply (H ltac:(discriminate) aliasesOnly eq_refl).
Defined.

Section Dispatch.

Variable World : Type.
Variable emit : Emitter -> AST -> string -> string -> World -> status_t * World.

Variable c : Coordinator.
Variables outputDir language : string.

Local Abbreviation genFile :=
  (fun m => generateSourcesForFile World emit m c outputDir language).

Lemma genFile_emits e m w :
  (language, e) ∈ languageEmitters ->
  isFullyQualified m = true -> find (name m) "types." 0 <> Some 0 ->
  genFile m w
  = match parse c m with
    | Some ast => let '(err, w') := emit e ast outputDir "" w in (Return err, w')
    | None => (Return UNKNOWN_ERROR, w)
    end.
Proof.
  intros He Hq Hn. unfold generateSourcesForFile.
  rewrite Hq, bool_decide_eq_false_2 by exact Hn. cbn [negb andb].
  destruct (parse c m) as [ast|]; [|reflexivity].
  unfold languageEmitters in He.
  repeat (apply elem_of_cons in He as [He|He];
          [injection He as Hl Hem; rewrite Hl, Hem; reflexivity|]).
  inversion He.
Qed.

Lemma genFile_emits_type e m w :
  (language, e) ∈ languageEmitters ->
  isFullyQualified m = true -> find (name m) "types." 0 = Some 0 ->
  genFile m w
  = if String.eqb language "java" then
      match parse c (getTypesForPackage m) with
      | Some ast =>
          let '(err, w') :=
            emit generateJava ast outputDir
              (substr_from (name m) (String.length "types.")) w in
          (Return err, w')
      | None => (Return UNKNOWN_ERROR, w)
      end
    else (Abort, w).
Proof.
  intros He Hq Hn. unfold generateSourcesForFile.
  rewrite Hq, bool_decide_eq_true_2 by exact Hn. cbn [negb andb].
  unfold languageEmitters in He.
  repeat (apply elem_of_cons in He as [He|He];
          [injection He as Hl Hem; rewrite Hl; cbn [String.eqb Ascii.eqb Bool.eqb negb];
           try reflexivity;
           destruct (parse c (getTypesForPackage m)); reflexivity|]).
  inversion He.
Qed.

Lemma generateEach_outcome e members w :
  (language, e) ∈ languageEmitters -> unitNames members ->
  (exists w', generateEach World emit members c outputDir language w = (Return OK, w')
              /\ Generated World emit c outputDir e members w w')
  \/ exists pre m post w1,
       members = pre ++ m :: post
       /\ Generated World emit c outputDir e pre w w1
       /\ ((parse c m = None
            /\ generateEach World emit members c outputDir language w
               = (Return UNKNOWN_ERROR, w1))
           \/ exists ast err w',
                parse c m = Some ast /\ emit e ast outputDir "" w1 = (err, w')
                /\ err <> OK
                /\ generateEach World emit members c outputDir language w
                   = (Return err, w')).
Proof.
  intros He Hnames. revert w.
  induction Hnames as [|m rest [Hq Hn] _ IH]; intros w; cbn [generateEach].
  - left. exists w. split; [reflexivity | constructor].
  - rewrite (genFile_emits e m w He Hq Hn).
    destruct (parse c m) as [ast|] eqn:Hm.
    + destruct (emit e ast outputDir "" w) as [err w1] eqn:Hemit.
      destruct (decide (err = OK)) as [->|Herr].
      * destruct (IH w1) as [(w' & Hrun & Hall)
                            |(pre & m0 & post & w0 & -> & Hpre & Hstop)].
        -- left. exists w'. split; [exact Hrun | econstructor; eassumption].
        -- right. exists (m :: pre), m0, post, w0.
           split; [reflexivity|]. split; [econstructor; eassumption | exact Hstop].
      * right. exists [], m, rest, w. split; [reflexivity|]. split; [constructor|].
        right. exists ast, err, w1. repeat split; try assumption.
        destruct err; [contradiction | reflexivity | reflexivity].
    + right. exists [], m, rest, w. split; [reflexivity|]. split; [constructor|].
      left. split; [exact Hm | reflexivity].
Qed.

(** C3: for a source language with an emitter, a fully qualified name has
    exactly its own unit parsed and handed to that emitter, whose status is
    returned (UNKNOWN_ERROR, and nothing emitted, when it does not parse); a
    "types.X" name has the types unit of its package emitted for Java,
    limited to [X]. A bare package has its members emitted in enumeration
    order, each from the world the previous one left, and either all return
    OK or the first failure, of the parse or of the emitter, is returned at
    once: the members after it are not attempted, and the world is the one
    the failing member left, with the earlier units still in it. *)
Theorem generation_fans_out_fail_fast (e : Emitter) (fqName : FQName)
    (hidl_gen : string) (w : World) :
  (language, e) ∈ languageEmitters ->
  let run :=
    generationFunctionForFileOrPackage World emit language fqName hidl_gen c outputDir w in
  (isFullyQualified fqName = true -> find (name fqName) "types." 0 <> Some 0 ->
   run = match parse c fqName with
         | Some ast => let '(err, w') := emit e ast outputDir "" w in (Return err, w')
         | None => (Return UNKNOWN_ERROR, w)
         end)
  /\ (isFullyQualified fqName = true -> find (name fqName) "types." 0 = Some 0 ->
      run = if String.eqb language "java" then
              match parse c (getTypesForPackage fqName) with
              | Some ast =>
                  let '(err, w') :=
                    emit generateJava ast outputDir
                      (substr_from (name fqName) (String.length "types.")) w in
                  (Return err, w')
              | None => (Return UNKNOWN_ERROR, w)
              end
            else (Abort, w))
  /\ (isValid fqName = true -> isFullyQualified fqName = false ->
      name fqName = "" ->
      forall members, packages c !! fqName = Some members -> unitNames members ->
      (exists w', run = (Return OK, w')
                  /\ Generated World emit c outputDir e members w w')
      \/ exists pre m post w1,
           members = pre ++ m :: post
           /\ Generated World emit c outputDir e pre w w1
           /\ ((parse c m = None /\ run = (Return UNKNOWN_ERROR, w1))
               \/ exists ast err w',
                    parse c m = Some ast /\ emit e ast outputDir "" w1 = (err, w')
                    /\ err <> OK /\ run = (Return err, w'))).
Proof.
  intros He run. subst run. unfold generationFunctionForFileOrPackage.
  split; [|split].
  - intros Hq Hn. rewrite Hq. apply genFile_emits; assumption.
  - intros Hq Hn. rewrite Hq. apply (genFile_emits_type e); assumption.
  - intros Hv Hq Hn members Hm Hnames. rewrite Hq.
    unfold generateSourcesForPackage, appendPackageInterfacesToVector.
    rewrite Hv, Hq, Hn, Hm. cbn [negb andb empty app].
    destruct (decide ("" = "")) as [_|]; [|contradiction]. cbn [negb].
    apply (generateEach_outcome e members w He Hnames).
Qed.

End Dispatch.

Lemma generation_fans_out_fail_fast_witness :
  generationFunctionForFileOrPackage (list AST) logEmit "c++" fooIFoo "hidl-gen"
    threeUnits "out/" []
  = (Return OK, [goodUnit])
  /\ ((exists w',
         generationFunctionForFileOrPackage (list AST) logEmit "c++" pkgFoo "hidl-gen"
           threeUnits "out/" []
         = (Return OK, w')
         /\ Generated (list AST) logEmit threeUnits "out/" generateCpp
              [fooIFoo; fooIBar; fooIBaz] [] w')
      \/ exists pre m post w1,
           [fooIFoo; fooIBar; fooIBaz] = pre ++ m :: post
           /\ Generated (list AST) logEmit threeUnits "out/" generateCpp pre [] w1
           /\ ((parse threeUnits m = None
                /\ generationFunctionForFileOrPackage (list AST) logEmit "c++" pkgFoo
                     "hidl-gen" threeUnits "out/" []
                   = (Return UNKNOWN_ERROR, w1))
               \/ exists ast err w',
                    parse threeUnits m = Some ast
                    /\ logEmit generateCpp ast "out/" "" w1 = (err, w')
                    /\ err <> OK
                    /\ generationFunctionForFileOrPackage (list AST) logEmit "c++"
                         pkgFoo "hidl-gen" threeUnits "out/" []
                       = (Return err, w'))).
Proof.
  assert (He : ("c++", generateCpp) ∈ languageEmitters) by (left).
  split.
  - rewrite (proj1 (generation_fans_out_fail_fast (list AST) logEmit threeUnits
                      "out/" "c++" generateCpp fooIFoo "hidl-gen" [] He)
               eq_refl ltac:(discriminate)).
    vm_compute. reflexivity.
  - apply (proj2 (proj2 (generation_fans_out_fail_fast (list AST) logEmit threeUnits
                           "out/" "c++" generateCpp pkgFoo "hidl-gen" [] He))
             eq_refl eq_refl eq_refl [fooIFoo; fooIBar; fooIBaz] eq_refl).
    repeat constructor; discriminate.
Defined.

(** The same request, evaluated: the first unit is emitted, the second fails,
    and the third is never reached. *)
Example fail_fast_run :
  generationFunctionForFileOrPackage (list AST) logEmit "c++" fooIFoo "hidl-gen"
    threeUnits "out/" []
  = (Return OK, [goodUnit])
  /\ generationFunctionForFileOrPackage (list AST) logEmit "c++" pkgFoo "hidl-gen"
       threeUnits "out/" []
     = (Return UNKNOWN_ERROR, [goodUnit; badUnit]).
Proof. split; vm_compute; reflexivity. Qed.

Section Validation.

Variable World : Type.

(** Requests that follow one another: the loop over [pre ++ rest] is the
    loop over [pre] and then, when that one ran to its end, over [rest]. *)
Lemma mainLoop_app (h : OutputHandler World) me c outputPath pre rest w :
  mainLoop World h me c outputPath (pre ++ rest) w
  = match mainLoop World h me c outputPath pre w with
    | (exit 0, w1) => mainLoop World h me c outputPath rest w1
    | stopped => stopped
    end.
Proof.
  revert w. induction pre as [|q pre IH]; intros w; cbn [app mainLoop].
  - reflexivity.
  - destruct (negb (isValid q)); [reflexivity|].
    destruct (negb (validate World h q (mKey World h))); [reflexivity|].
    destruct (generate World h q me c outputPath w) as [[[| |]|] w1];
      [apply IH | reflexivity ..].
Qed.

(** C7: a name the selected backend's [validate] rejects ends the run with
    exit status 1 (unless an earlier request already ended it) and is never
    handed to [generate]: the world is the one the earlier requests left, so
    nothing is written for it. A name that is fully qualified is rejected by
    [validateIsPackage], the predicate of the backends that take bare
    packages only. *)
Theorem validation_precedes_generation (h : OutputHandler World)
    (me : string) (c : Coordinator) (outputPath : string)
    (pre post : list FQName) (fqName : FQName) (w : World) :
  validate World h fqName (mKey World h) = false ->
  mainLoop World h me c outputPath (pre ++ fqName :: post) w
  = match mainLoop World h me c outputPath pre w with
    | (exit 0, w1) => (exit 1, w1)
    | stopped => stopped
    end
  /\ mainLoop World h me c outputPath (fqName :: post) w = (exit 1, w)
  /\ (isFullyQualified fqName = true ->
      forall lang, validateIsPackage fqName lang = false).
Proof.
  intros Hv.
  assert (Hone : forall w1, mainLoop World h me c outputPath (fqName :: post) w1
                            = (exit 1, w1)).
  { intros w1. cbn [mainLoop]. rewrite Hv.
    destruct (negb (isValid fqName)); reflexivity. }
  split; [|split].
  - rewrite mainLoop_app.
    destruct (mainLoop World h me c outputPath pre w) as [[[| |]|] w1];
      [apply Hone | reflexivity ..].
  - apply Hone.
  - unfold isFullyQualified, validateIsPackage. intros Hq lang.
    destruct (empty (package fqName)); [reflexivity|].
    destruct (empty (version fqName)); [reflexivity|].
    destruct (empty (name fqName)); [discriminate Hq | reflexivity].
Qed.

End Validation.

Lemma validation_precedes_generation_witness :
  validate (list string) makefileLike fooIFoo "makefile" = false
  /\ mainLoop (list string) makefileLike "hidl-gen" threeUnits "out/"
       ([pkgFoo] ++ fooIFoo :: [pkgFoo]) []
     = (exit 1, ["out/Android.mk"])
  /\ mainLoop (list string) makefileLike "hidl-gen" threeUnits "out/" [fooIFoo] []
     = (exit 1, []).
Proof.
  split; [reflexivity|].
  destruct (validation_precedes_generation (list string) makefileLike "hidl-gen"
              threeUnits "out/" [pkgFoo] [pkgFoo] fooIFoo [] eq_refl) as (H & _ & _).
  destruct (validation_precedes_generation (list string) makefileLike "hidl-gen"
              threeUnits "out/" [] [] fooIFoo [] eq_refl) as (_ & H' & _).
  split; [rewrite H; reflexivity | exact H'].
Defined.

Section Makefile.

Variable World : Type.
Variable getFormatter :
  Coordinator -> string -> FQName -> string -> World -> Formatter * World.
Variable Formatter_isValid : Formatter -> bool.
Variable writeAndroidMk :
  FQName -> string -> Coordinator -> list FQName -> gset FQName -> option AST ->
  bool -> bool -> Formatter -> World -> World.

(** C10: when the package is not Java-compatible and exports no constants,
    or when it needs no generated Java code, the makefile backend returns OK
    and leaves the world as it found it: [getFormatter] is not reached, so
    no Android.mk is opened or written. *)
Theorem makefile_ok_without_output (fuel : nat) (packageFQName : FQName)
    (hidl_gen : string) (c : Coordinator) (outputPath : string) (w : World)
    (members : list FQName) (g : Gathered) (compatible : bool) :
  isValid packageFQName = true -> isFullyQualified packageFQName = false ->
  name packageFQName = "" ->
  packages c !! packageFQName = Some members ->
  gather c members (mkGathered None ∅ []) = Ok g ->
  isPackageJavaCompatible fuel c packageFQName = Some (Ok compatible) ->
  (compatible = false /\ gatheredTypes g = [])
  \/ packageNeedsJavaCode members (typesAST g) = Some false ->
  generateMakefileForPackage World getFormatter Formatter_isValid writeAndroidMk
    fuel packageFQName hidl_gen c outputPath w
  = Some (Return OK, w).
Proof.
  intros Hv Hq Hn Hm Hg Hc Hcase.
  unfold generateMakefileForPackage, appendPackageInterfacesToVector.
  rewrite Hv, Hq, Hn, Hm. cbn [negb andb empty app].
  destruct (decide ("" = "")) as [_|]; [|contradiction]. cbn [negb].
  rewrite Hg, Hc.
  destruct Hcase as [[-> Hnone] | Hneed].
  - rewrite Hnone. reflexivity.
  - rewrite Hneed.
    destruct (negb compatible && negb (negb (bool_decide (gatheredTypes g = []))));
      reflexivity.
Qed.

End Makefile.

(** * The transitive closure of imported units *)

Section Closure.

Variable c : Coordinator.

Lemma universe_member p members u :
  packages c !! p = Some members -> u ∈ members -> u ∈ universe c.
Proof.
  intros Hp Hu. unfold universe. apply elem_of_union_list.
  exists (list_to_set members). split.
  - apply list_elem_of_fmap. exists (p, members). split; [reflexivity|].
    apply elem_of_map_to_list. exact Hp.
  - apply elem_of_list_to_set. exact Hu.
Qed.

Lemma enumerate_spec p :
  appendPackageInterfacesToVector c p []
  = match packages c !! p with
    | Some members => (OK, members)
    | None => (IO_ERROR, [])
    end.
Proof.
  unfold appendPackageInterfacesToVector. destruct (packages c !! p); reflexivity.
Qed.

Lemma back_pop {A} (v : list A) x : back v = Some x -> v = pop_back v ++ [x].
Proof.
  unfold back, pop_back. intros H. apply last_Some in H as [v' ->].
  rewrite removelast_last. reflexivity.
Qed.

Lemma back_None {A} (v : list A) : back v = None -> v = [].
Proof. unfold back. apply last_None. Qed.

(** *** What the two inner loops do to the worklist *)

Lemma pushUnseen_spec l wl :
  (forall u, u ∈ seen (pushUnseen l wl) <-> u ∈ seen wl \/ u ∈ l)
  /\ (exists new, todo (pushUnseen l wl) = todo wl ++ new
                  /\ NoDup new
                  /\ forall u, u ∈ new <-> u ∈ l /\ u ∉ seen wl)
  /\ parsed (pushUnseen l wl) = parsed wl.
Proof.
  revert wl. induction l as [|i l IH]; intros wl; cbn [pushUnseen].
  - split; [|split]; [set_solver | | reflexivity].
    exists []. rewrite app_nil_r. split; [reflexivity|].
    split; [constructor | set_solver].
  - destruct (decide (i ∈ seen wl)) as [Hi|Hi].
    + destruct (IH wl) as (Hs & (new & Ht & Hnd & Hnew) & Hp).
      split; [|split]; [set_solver | | exact Hp].
      exists new. split; [exact Ht|]. split; [exact Hnd|]. set_solver.
    + destruct (IH (mkWorklist (push_back (todo wl) i) ({[i]} ∪ seen wl) (parsed wl)))
        as (Hs & (new & Ht & Hnd & Hnew) & Hp).
      cbn [seen todo parsed] in *.
      split; [|split]; [set_solver | | exact Hp].
      exists (i :: new). split.
      * rewrite Ht. unfold push_back. rewrite <- app_assoc. reflexivity.
      * split; [constructor; [set_solver | exact Hnd]|].
        intros u. rewrite elem_of_cons, Hnew.
        destruct (decide (u = i)) as [->|Hne]; set_solver.
Qed.

Lemma pushImports_Err pkgs wl err :
  pushImports c pkgs wl = Err err ->
  exists p, p ∈ pkgs /\ packages c !! p = None.
Proof.
  revert wl. induction pkgs as [|p pkgs IH]; intros wl; cbn [pushImports].
  - discriminate.
  - rewrite enumerate_spec. destruct (packages c !! p) as [l|] eqn:Hp.
    + intros H. apply IH in H as (q & Hq & Hn). exists q. set_solver.
    + intros _. exists p. set_solver.
Qed.

Lemma pushImports_Ok pkgs wl wl' :
  pushImports c pkgs wl = Ok wl' ->
  (forall p, p ∈ pkgs -> is_Some (packages c !! p))
  /\ (forall u, u ∈ seen wl' <->
                u ∈ seen wl
                \/ exists p l, p ∈ pkgs /\ packages c !! p = Some l /\ u ∈ l)
  /\ (exists new, todo wl' = todo wl ++ new /\ NoDup new
                  /\ forall u, u ∈ new <-> u ∈ seen wl' /\ u ∉ seen wl)
  /\ parsed wl' = parsed wl.
Proof.
  revert wl. induction pkgs as [|p pkgs IH]; intros wl; cbn [pushImports].
  - intros [= <-]. split; [set_solver|]. split; [set_solver|]. split; [|reflexivity].
    exists []. rewrite app_nil_r. split; [reflexivity|].
    split; [constructor | set_solver].
  - rewrite enumerate_spec. destruct (packages c !! p) as [l|] eqn:Hp; [|discriminate].
    intros H. apply IH in H as (Hall & Hs & (new2 & Ht2 & Hnd2 & Hnew2) & Hpar).
    destruct (pushUnseen_spec l wl) as (Hs1 & (new1 & Ht1 & Hnd1 & Hnew1) & Hpar1).
    split; [|split; [|split]].
    + intros q Hq. apply elem_of_cons in Hq as [->|Hq]; [eauto | auto].
    + intros u. rewrite Hs, Hs1. split.
      * intros [[Hu|Hu]|(q & l' & Hq & Hl' & Hu)];
          [left; exact Hu | right; exists p, l; set_solver
           | right; exists q, l'; set_solver].
      * intros [Hu|(q & l' & Hq & Hl' & Hu)]; [tauto|].
        apply elem_of_cons in Hq as [->|Hq].
        -- rewrite Hp in Hl'. injection Hl' as <-. tauto.
        -- right. eauto.
    + exists (new1 ++ new2). split; [rewrite Ht2, Ht1, <- app_assoc; reflexivity|].
      split.
      * apply NoDup_app. split; [exact Hnd1|]. split; [|exact Hnd2].
        intros u Hu1 Hu2. apply Hnew1 in Hu1. apply Hnew2 in Hu2.
        destruct Hu2 as [_ Hu2]. apply Hu2, Hs1. tauto.
      * intros u. rewrite elem_of_app, Hnew1, Hnew2, Hs1.
        assert (u ∈ seen wl' <-> (u ∈ seen wl \/ u ∈ l) \/
                  exists q l', q ∈ pkgs /\ packages c !! q = Some l' /\ u ∈ l')
          as Hs' by (rewrite Hs, Hs1; reflexivity).
        destruct (decide (u ∈ seen wl)); destruct (decide (u ∈ l)); tauto.
    + rewrite Hpar. exact Hpar1.
Qed.

(** *** Termination: every iteration uses up one unit of the universe *)

Lemma size_difference_insert (U s : gset FQName) i :
  i ∈ U -> i ∉ s -> size (U ∖ s) = S (size (U ∖ ({[i]} ∪ s))).
Proof.
  intros HU Hs.
  assert (U ∖ s = {[i]} ∪ U ∖ ({[i]} ∪ s)) as ->.
  { apply set_eq. intros x. destruct (decide (x = i)) as [->|]; set_solver. }
  rewrite size_union by set_solver. rewrite size_singleton. reflexivity.
Qed.

Lemma pushUnseen_measure l wl :
  (forall u, u ∈ l -> u ∈ universe c) ->
  measure c (pushUnseen l wl) = measure c wl.
Proof.
  revert wl. induction l as [|i l IH]; intros wl Hl; cbn [pushUnseen].
  - reflexivity.
  - destruct (decide (i ∈ seen wl)) as [Hi|Hi].
    + apply IH. set_solver.
    + rewrite IH by set_solver. unfold measure, push_back. cbn [seen todo].
      rewrite (size_difference_insert (universe c) (seen wl) i) by set_solver.
      rewrite length_app. simpl. lia.
Qed.

Lemma pushImports_measure pkgs wl wl' :
  pushImports c pkgs wl = Ok wl' -> measure c wl' = measure c wl.
Proof.
  revert wl. induction pkgs as [|p pkgs IH]; intros wl; cbn [pushImports].
  - intros [= <-]. reflexivity.
  - rewrite enumerate_spec. destruct (packages c !! p) as [l|] eqn:Hp; [|discriminate].
    intros H. rewrite (IH _ H). apply pushUnseen_measure.
    intros u Hu. eapply universe_member; eassumption.
Qed.

Lemma closureLoop_terminates fuel wl :
  measure c wl < fuel -> is_Some (closureLoop fuel c wl).
Proof.
  revert wl. induction fuel as [|fuel IH]; intros wl Hm; [lia|].
  cbn [closureLoop]. destruct (back (todo wl)) as [fqName|] eqn:Hb; [|eauto].
  destruct (parse c fqName) as [ast|]; [|eauto].
  destruct (negb (isJavaCompatible ast)); [eauto|].
  destruct (pushImports c (getImportedPackages ast) _) as [wl2|err] eqn:Hp; [|eauto].
  apply IH. rewrite (pushImports_measure _ _ _ Hp).
  apply back_pop, (f_equal length) in Hb. rewrite length_app in Hb. simpl in Hb.
  revert Hm. unfold measure. cbn [seen todo]. lia.
Qed.

(** *** Each unit enters the worklist once and is parsed once *)

Lemma Once_pop wl fqName :
  Once c wl -> back (todo wl) = Some fqName ->
  Once c (mkWorklist (pop_back (todo wl)) (seen wl) (parsed wl ++ [fqName])).
Proof.
  intros (Hnd & Hin & HU) Hb. apply back_pop in Hb.
  assert (parsed wl ++ todo wl ≡ₚ (parsed wl ++ [fqName]) ++ pop_back (todo wl)) as HP.
  { rewrite Hb at 1. rewrite <- app_assoc. apply Permutation_app_head.
    apply Permutation_app_comm. }
  split; [|split]; cbn [parsed todo seen].
  - rewrite <- HP. exact Hnd.
  - intros u Hu. apply Hin. rewrite HP. exact Hu.
  - exact HU.
Qed.

Lemma Once_pushImports pkgs wl wl' :
  Once c wl -> pushImports c pkgs wl = Ok wl' -> Once c wl'.
Proof.
  intros (Hnd & Hin & HU) Hp.
  apply pushImports_Ok in Hp as (_ & Hs & (new & Ht & Hndn & Hnew) & Hpar).
  split; [|split].
  - rewrite Hpar, Ht, app_assoc. apply NoDup_app. split; [exact Hnd|].
    split; [|exact Hndn]. intros u Hu Hn. apply Hnew in Hn as [_ Hn].
    apply Hn, Hin, Hu.
  - intros u. rewrite Hpar, Ht, app_assoc, elem_of_app, Hnew.
    intros [Hu|[Hu _]]; [apply Hs; left; apply Hin, Hu | exact Hu].
  - intros u Hu. apply Hs in Hu as [Hu|(p & l & _ & Hl & Hu)]; [apply HU, Hu|].
    eapply universe_member; eassumption.
Qed.

Lemma closureLoop_Once fuel wl r wl' :
  Once c wl -> closureLoop fuel c wl = Some (r, wl') -> Once c wl'.
Proof.
  revert wl. induction fuel as [|fuel IH]; intros wl Hwl; [discriminate|].
  cbn [closureLoop]. destruct (back (todo wl)) as [fqName|] eqn:Hb.
  2: { intros [= _ <-]. exact Hwl. }
  pose proof (Once_pop _ _ Hwl Hb) as H1.
  destruct (parse c fqName) as [ast|]; [|intros [= _ <-]; exact H1].
  destruct (negb (isJavaCompatible ast)); [intros [= _ <-]; exact H1|].
  destruct (pushImports c (getImportedPackages ast) _) as [wl2|err] eqn:Hp.
  - apply IH. eapply Once_pushImports; eassumption.
  - intros [= _ <-]. exact H1.
Qed.

Lemma NoDup_length_le_size (l : list FQName) (X : gset FQName) :
  NoDup l -> (forall u, u ∈ l -> u ∈ X) -> length l <= size X.
Proof.
  intros Hnd Hsub. rewrite <- (size_list_to_set (C := gset FQName) l Hnd).
  apply subseteq_size. set_solver.
Qed.

Lemma closureLoop_mono fuel fuel' wl x :
  closureLoop fuel c wl = Some x -> fuel <= fuel' -> closureLoop fuel' c wl = Some x.
Proof.
  revert fuel' wl. induction fuel as [|fuel IH]; intros fuel' wl; [discriminate|].
  intros H Hle. destruct fuel' as [|fuel']; [lia|].
  cbn [closureLoop] in *. destruct (back (todo wl)) as [fqName|]; [|exact H].
  destruct (parse c fqName) as [ast|]; [|exact H].
  destruct (negb (isJavaCompatible ast)); [exact H|].
  destruct (pushImports c (getImportedPackages ast) _) as [wl2|err]; [|exact H].
  apply IH; [exact H | lia].
Qed.

Lemma initial_measure pkg members :
  packages c !! pkg = Some members ->
  measure c (mkWorklist members (list_to_set members) []) < closureFuel c pkg.
Proof.
  intros Hp. unfold measure, closureFuel. rewrite Hp. simpl.
  pose proof (subseteq_size (universe c ∖ list_to_set members) (universe c)) as H.
  specialize (H ltac:(set_solver)). lia.
Qed.

Lemma initial_Once pkg members :
  packages c !! pkg = Some members -> NoDup members ->
  Once c (mkWorklist members (list_to_set members) []).
Proof.
  intros Hp Hnd. split; [|split]; cbn [parsed todo seen app].
  - exact Hnd.
  - intros u Hu. apply elem_of_list_to_set. exact Hu.
  - intros u Hu. apply elem_of_list_to_set in Hu.
    eapply universe_member; eassumption.
Qed.

End Closure.

Lemma javaCompatibleRun_returns (c : Coordinator) (pkg : FQName) (fuel : nat) :
  closureFuel c pkg <= fuel ->
  exists r wl,
    javaCompatibleRun fuel c pkg = Some (r, wl)
    /\ javaCompatibleRun (closureFuel c pkg) c pkg = Some (r, wl).
Proof.
  intros Hfuel. unfold javaCompatibleRun. rewrite enumerate_spec.
  destruct (packages c !! pkg) as [members|] eqn:Hp.
  - destruct (closureLoop_terminates c (closureFuel c pkg)
                (mkWorklist members (list_to_set members) []))
      as [[r wl] Hrun]; [eapply initial_measure; exact Hp|].
    exists r, wl. split; [eapply closureLoop_mono; eassumption | exact Hrun].
  - exists (Err IO_ERROR), (mkWorklist [] ∅ []). split; reflexivity.
Qed.

Lemma javaCompatibleRun_Once (c : Coordinator) (pkg : FQName) (fuel : nat) r wl :
  javaCompatibleRun fuel c pkg = Some (r, wl) ->
  (forall members, packages c !! pkg = Some members -> NoDup members) ->
  NoDup (parsed wl ++ todo wl) /\ length (parsed wl) <= size (universe c).
Proof.
  unfold javaCompatibleRun. rewrite enumerate_spec.
  destruct (packages c !! pkg) as [members|] eqn:Hp.
  - intros Hrun Hnd.
    pose proof (closureLoop_Once c _ _ _ _
                  (initial_Once c _ _ Hp (Hnd _ eq_refl)) Hrun) as (H1 & H2 & H3).
    split; [exact H1|]. apply NoDup_length_le_size.
    + apply NoDup_app in H1. tauto.
    + intros u Hu. apply H3, H2, elem_of_app. left. exact Hu.
  - intros [= _ <-] _. split; [constructor | simpl; lia].
Qed.

(** C2: for every Coordinator, whose packages and units are finitely many,
    the worklist loop returns once it is given [closureFuel] iterations, and
    more iterations do not change what it returns. When the requested
    package's enumeration lists no unit twice, no unit is parsed twice or
    put on the worklist twice (the units parsed and the units still waiting
    are all distinct), so at most as many units are parsed as the Coordinator
    has. *)
Theorem closure_terminates_each_unit_once (c : Coordinator) (packageFQName : FQName)
    (fuel : nat) :
  closureFuel c packageFQName <= fuel ->
  exists r wl,
    javaCompatibleRun fuel c packageFQName = Some (r, wl)
    /\ javaCompatibleRun (closureFuel c packageFQName) c packageFQName = Some (r, wl)
    /\ ((forall members, packages c !! packageFQName = Some members -> NoDup members) ->
        NoDup (parsed wl ++ todo wl) /\ length (parsed wl) <= size (universe c)).
Proof.
  intros Hfuel.
  destruct (javaCompatibleRun_returns c packageFQName fuel Hfuel)
    as (r & wl & Hrun & Hmin).
  exists r, wl. split; [exact Hrun|]. split; [exact Hmin|].
  intros Hnd. eapply javaCompatibleRun_Once; eassumption.
Qed.

Lemma closure_terminates_each_unit_once_witness :
  closureFuel cycle pkgA <= 5
  /\ exists r wl,
       javaCompatibleRun 5 cycle pkgA = Some (r, wl)
       /\ javaCompatibleRun (closureFuel cycle pkgA) cycle pkgA = Some (r, wl)
       /\ ((forall members, packages cycle !! pkgA = Some members -> NoDup members) ->
           NoDup (parsed wl ++ todo wl) /\ length (parsed wl) <= size (universe cycle)).
Proof.
  assert (closureFuel cycle pkgA <= 5) as H by (vm_compute; lia).
  split; [exact H|].
  exact (closure_terminates_each_unit_once cycle pkgA 5 H).
Defined.

(** The cycle, evaluated: the loop stops after parsing each of the three
    units once, and the closure is those three units. *)
Example cycle_closure :
  fst <$> javaCompatibleRun 5 cycle pkgA = Some (Ok true)
  /\ parsed ∘ snd <$> javaCompatibleRun 5 cycle pkgA = Some [unitA; unitB; unitC]
  /\ todo ∘ snd <$> javaCompatibleRun 5 cycle pkgA = Some []
  /\ seen ∘ snd <$> javaCompatibleRun 5 cycle pkgA
     = Some (list_to_set [unitA; unitB; unitC]).
Proof. repeat split; vm_compute; reflexivity. Qed.

(** The diamond, evaluated: D is reached twice and parsed once. *)
Example diamond_closure :
  fst <$> javaCompatibleRun 6 diamond pkgA = Some (Ok true)
  /\ parsed ∘ snd <$> javaCompatibleRun 6 diamond pkgA
     = Some [unitA; unitC; unitD; unitB].
Proof. repeat split; vm_compute; reflexivity. Qed.

Section Correctness.

Variable c : Coordinator.
Variable pkg : FQName.

Lemma Done_mono s s' u : (forall x, x ∈ s -> x ∈ s') -> Done c s u -> Done c s' u.
Proof.
  intros Hsub (ast & Hu & Hc & Himp). exists ast. split; [exact Hu|].
  split; [exact Hc|]. intros p Hp. destruct (Himp p Hp) as (l & Hl & Hin).
  exists l. split; [exact Hl|]. intros x Hx. apply Hsub, Hin, Hx.
Qed.

Lemma Done_compatible s u : Done c s u -> unitCompatible c u.
Proof.
  intros (ast & Hu & Hc & Himp). exists ast. split; [exact Hu|].
  split; [exact Hc|]. intros p Hp. destruct (Himp p Hp) as (l & Hl & _). eauto.
Qed.

Lemma Inv_closed wl :
  Inv c pkg wl -> todo wl = [] ->
  forall u, reachable c pkg u -> u ∈ seen wl /\ unitCompatible c u.
Proof.
  intros (Hr & Ht & Hm & Hd) Hnil.
  assert (Hall : forall u, u ∈ seen wl -> Done c (seen wl) u).
  { intros u Hu. apply Hd; [exact Hu|]. rewrite Hnil. apply not_elem_of_nil. }
  assert (Hin : forall u, reachable c pkg u -> u ∈ seen wl).
  { induction 1 as [members u Hp Hu | v ast p members u _ IH Hv Hp Hl Hu].
    - eapply Hm; eassumption.
    - destruct (Hall v IH) as (ast' & Hv' & _ & Himp).
      rewrite Hv in Hv'. injection Hv' as <-.
      destruct (Himp p Hp) as (l & Hl' & Hsub).
      rewrite Hl in Hl'. injection Hl' as <-. apply Hsub, Hu. }
  intros u Hu. split; [apply Hin, Hu|].
  eapply Done_compatible, Hall, Hin, Hu.
Qed.

Lemma Inv_step wl fqName ast wl2 :
  Inv c pkg wl -> back (todo wl) = Some fqName ->
  units c !! fqName = Some ast -> isJavaCompatible ast = true ->
  pushImports c (getImportedPackages ast)
    (mkWorklist (pop_back (todo wl)) (seen wl) (parsed wl ++ [fqName])) = Ok wl2 ->
  Inv c pkg wl2.
Proof.
  intros (Hr & Ht & Hm & Hd) Hb Hu Hc Hp. apply back_pop in Hb.
  apply pushImports_Ok in Hp as (Hall & Hs & (new & Ht2 & _ & Hnew) & _).
  cbn [seen todo] in *.
  assert (Hfq : reachable c pkg fqName).
  { apply Hr, Ht. rewrite Hb. apply elem_of_app. right. apply list_elem_of_singleton.
    reflexivity. }
  assert (Hmono : forall x, x ∈ seen wl -> x ∈ seen wl2).
  { intros x Hx. apply Hs. left. exact Hx. }
  split; [|split; [|split]].
  - intros u Hu2. apply Hs in Hu2 as [Hu2|(p & l & Hp & Hl & Hu2)]; [apply Hr, Hu2|].
    eapply reach_import; eassumption.
  - intros u. rewrite Ht2, elem_of_app, Hnew. intros [Hu2|[Hu2 _]]; [|exact Hu2].
    apply Hmono, Ht. rewrite Hb. apply elem_of_app. left. exact Hu2.
  - intros members u Hpk Hm'. eapply Hmono, Hm; eassumption.
  - intros u Hu2 Hnt. rewrite Ht2, elem_of_app, Hnew in Hnt.
    assert (u ∈ seen wl) as Hu1.
    { destruct (decide (u ∈ seen wl)) as [|Hn]; [assumption|]. tauto. }
    destruct (decide (u = fqName)) as [->|Hne].
    + exists ast. split; [exact Hu|]. split; [exact Hc|]. intros p Hp.
      destruct (Hall p Hp) as [l Hl]. exists l. split; [exact Hl|].
      intros x Hx. apply Hs. right. eauto.
    + apply (Done_mono (seen wl)); [exact Hmono|]. apply Hd; [exact Hu1|].
      rewrite Hb, elem_of_app, list_elem_of_singleton. tauto.
Qed.

Lemma closureLoop_sound fuel wl r wl' :
  Inv c pkg wl -> closureLoop fuel c wl = Some (r, wl') ->
  match r with
  | Ok true => forall u, reachable c pkg u -> unitCompatible c u
  | Ok false => exists u, reachable c pkg u /\ unitIncompatible c u
  | Err _ => exists u, reachable c pkg u /\ unitUnresolved c u
  end.
Proof.
  revert wl. induction fuel as [|fuel IH]; intros wl Hinv; [discriminate|].
  cbn [closureLoop]. destruct (back (todo wl)) as [fqName|] eqn:Hb.
  2: { intros [= <- _]. intros u Hu.
       eapply Inv_closed; [exact Hinv | apply back_None, Hb | exact Hu]. }
  assert (Hfq : reachable c pkg fqName).
  { destruct Hinv as (Hr & Ht & _). apply Hr, Ht. apply back_pop in Hb.
    rewrite Hb. apply elem_of_app. right. apply list_elem_of_singleton. reflexivity. }
  unfold parse. destruct (units c !! fqName) as [ast|] eqn:Hu.
  2: { intros [= <- _]. exists fqName. split; [exact Hfq|]. left. exact Hu. }
  destruct (isJavaCompatible ast) eqn:Hc; cbn [negb].
  2: { intros [= <- _]. exists fqName. split; [exact Hfq|]. exists ast. tauto. }
  destruct (pushImports c (getImportedPackages ast) _) as [wl2|err] eqn:Hp.
  - apply IH. eapply Inv_step; eassumption.
  - intros [= <- _]. apply pushImports_Err in Hp as (p & Hp & Hn).
    exists fqName. split; [exact Hfq|]. right. exists ast, p. tauto.
Qed.

Lemma Inv_initial members :
  packages c !! pkg = Some members ->
  Inv c pkg (mkWorklist members (list_to_set members) []).
Proof.
  intros Hp. split; [|split; [|split]]; cbn [seen todo].
  - intros u Hu. apply elem_of_list_to_set in Hu. eapply reach_member; eassumption.
  - intros u Hu. apply elem_of_list_to_set. exact Hu.
  - intros members' u Hp' Hu. rewrite Hp in Hp'. injection Hp' as <-.
    apply elem_of_list_to_set. exact Hu.
  - intros u Hu Hn. apply elem_of_list_to_set in Hu. contradiction.
Qed.

End Correctness.




Lemma makefile_ok_without_output_witness :
  generateMakefileForPackage (list string) openSink (fun _ => true)
    (fun _ _ _ _ _ _ _ _ _ w => w) 5 pkgFoo "hidl-gen" typedefsOnly "out/" []
  = Some (Return OK, [])
  /\ generateMakefileForPackage (list string) openSink (fun _ => true)
       (fun _ _ _ _ _ _ _ _ _ w => w) 5 pkgFoo "hidl-gen" incompatibleOnly "out/" []
     = Some (Return OK, []).
Proof.
  split.
  - apply (makefile_ok_without_output (list string) openSink (fun _ => true)
             (fun _ _ _ _ _ _ _ _ _ w => w) 5 pkgFoo "hidl-gen" typedefsOnly "out/" []
             [fooTypes] (mkGathered (Some aliasesOnly) ∅ []) true);
      try reflexivity.
    right. reflexivity.
  - apply (makefile_ok_without_output (list string) openSink (fun _ => true)
             (fun _ _ _ _ _ _ _ _ _ w => w) 5 pkgFoo "hidl-gen" incompatibleOnly "out/" []
             [fooIFoo] (mkGathered None ∅ []) false);
      try reflexivity.
    left. split; reflexivity.
Defined.

(** With an interface next to the types unit the same backend opens its
    sink. *)
Example makefile_opens_sink :
  generateMakefileForPackage (list string) openSink (fun _ => true)
    (fun _ _ _ _ _ _ _ _ _ w => w) 5 pkgFoo "hidl-gen"
    (mkCoordinator {[ pkgFoo := [fooIFoo] ]} {[ fooIFoo := goodUnit ]}) "out/" []
  = Some (Return OK, ["out/Android.mk"]).
Proof. vm_compute. reflexivity. Qed.

(** * Further properties of the emitter *)

Section EmitterFacts.

Lemma layout_app lead atStart s t :
  layout lead atStart (s +:+ t)
  = (fst (layout lead atStart s)
     +:+ fst (layout lead (snd (layout lead atStart s)) t),
     snd (layout lead (snd (layout lead atStart s)) t)).
Proof.
  revert atStart. induction s as [|c s IH]; intros atStart.
  - simpl. destruct (layout lead atStart t). reflexivity.
  - simpl. destruct (decide (c = newline)).
    + rewrite IH. destruct (layout lead true s) as [r b]. reflexivity.
    + rewrite IH. destruct (layout lead false s) as [r b]. simpl.
      rewrite append_assoc. reflexivity.
Qed.

Lemma operator_shl_layout f io out :
  mSpace f = "" -> nul_free out = true ->
  operator_shl (f, io) out = written f io (layout (line_lead f) (mAtStartOfLine f) out).
Proof.
  intros Hns Hout. rewrite operator_shl_chunks, Hns.
  rewrite renderChunks_printed by exact Hout. rewrite renderChunks_layout. reflexivity.
Qed.

Lemma shl_plain f io out :
  mSpace f = "" -> mLinePrefix f = "" -> mIndentDepth f = 0%Z -> nul_free out = true ->
  operator_shl (f, io) out
  = (setAtStartOfLine (if decide (out = "") then mAtStartOfLine f else endsWithNewline out) f,
     append_bytes out (mFile f) io).
Proof.
  intros Hns Hpre Hd Hout. rewrite (operator_shl_layout f io out Hns Hout).
  unfold written. rewrite layout_flag.
  assert (Hlead : line_lead f = "").
  { unfold line_lead, indent_width. rewrite Hpre, Hd. reflexivity. }
  rewrite Hlead, layout_nolead. reflexivity.
Qed.

Lemma c_str_length s : String.length (c_str s) <= String.length s.
Proof.
  induction s as [|c s IH]; [reflexivity|]. cbn [c_str].
  destruct (decide (c = NUL)); simpl; lia.
Qed.

Lemma nul_free_line_lead f : nul_free (line_lead f) = true.
Proof.
  unfold line_lead. rewrite nul_free_app, nul_free_c_str, nul_free_spaces. reflexivity.
Qed.

Lemma renderChunks_nul_free lead flt atStart ks :
  nul_free lead = true -> (forall k, nul_free (flt k) = true) ->
  nul_free (fst (renderChunks lead flt atStart ks)) = true.
Proof.
  intros Hlead Hflt. revert atStart. induction ks as [|k ks IH]; intros atStart;
    [reflexivity|].
  cbn [renderChunks]. specialize (IH (endsWithNewline k)).
  destruct (renderChunks lead flt (endsWithNewline k) ks) as [r b]. cbn [fst] in *.
  destruct (decide (k = nl)); cbn [fst].
  - rewrite nul_free_app, IH. reflexivity.
  - rewrite !nul_free_app, Hflt, IH. destruct atStart; [rewrite Hlead|]; reflexivity.
Qed.

Lemma operator_shl_bytes st out :
  exists b r, nul_free r = true
              /\ operator_shl st out
                 = (setAtStartOfLine b (fst st), append_bytes r (mFile (fst st)) (snd st)).
Proof.
  destruct st as [f io]. rewrite operator_shl_chunks. unfold written.
  eexists _, _. split; [|reflexivity].
  apply renderChunks_nul_free; [apply nul_free_line_lead|].
  intros k. apply nul_free_c_str.
Qed.

Lemma deleteFrom_length tok k s : String.length (deleteFrom tok k s) <= String.length s.
Proof.
  revert k. induction s as [|c s IH]; intros k; [reflexivity|].
  cbn [deleteFrom]. destruct k as [|k].
  - destruct (String.prefix tok (String c s)); simpl.
    + specialize (IH (String.length tok - 1)). lia.
    + specialize (IH 0). lia.
  - specialize (IH k). simpl. lia.
Qed.

Lemma substring_length_le_count m t : String.length (substring 0 m t) <= m.
Proof.
  revert m. induction t as [|d t IHt]; intros [|m]; simpl; try lia.
  specialize (IHt m). lia.
Qed.

Lemma append_length s t :
  String.length (s +:+ t) = String.length s + String.length t.
Proof. induction s; simpl; congruence. Qed.

Lemma operator_shl_frame st out :
  exists b r, operator_shl st out
              = (setAtStartOfLine b (fst st), fputs r (mFile (fst st)) (snd st)).
Proof.
  destruct (operator_shl_bytes st out) as (b & r & Hr & ->).
  exists b, r. rewrite fputs_nul_free by exact Hr. reflexivity.
Qed.

Lemma shl_all_frame st outs :
  exists b r, shl_all st outs
              = (setAtStartOfLine b (fst st), fputs r (mFile (fst st)) (snd st)).
Proof.
  revert st. induction outs as [|o outs IH]; intros st.
  - exists (mAtStartOfLine (fst st)), "". destruct st as [f io]. simpl.
    rewrite setAtStartOfLine_id. reflexivity.
  - change (shl_all st (o :: outs)) with (shl_all (operator_shl st o) outs).
    destruct (operator_shl_frame st o) as (b & r & ->).
    destruct (IH (setAtStartOfLine b (fst st), fputs r (mFile (fst st)) (snd st)))
      as (b' & r' & ->).
    cbn [fst snd]. exists b', (c_str r +:+ r'). rewrite fputs_fputs. reflexivity.
Qed.

Lemma write_Balanced out : Balanced (fun st => Some (operator_shl st out)).
Proof.
  intros st st' _ [= <-]. destruct (operator_shl_frame st out) as (b & r & ->).
  reflexivity.
Qed.

Lemma mod_wrapped (d level : Z) :
  (0 <= d < SIZE_MOD)%Z -> (0 <= level < SIZE_MOD)%Z -> (SIZE_MOD <= d + level)%Z ->
  ((d + level) mod SIZE_MOD = d + level - SIZE_MOD)%Z.
Proof.
  intros Hd Hl Hw. symmetry. apply (Z.mod_unique _ _ 1); unfold SIZE_MOD in *; lia.
Qed.

End EmitterFacts.

(** X1: [unindent] undoes an [indent] by the same amount and gives back the
    very emitter, as long as the sum of depth and level fits a [size_t]; when
    it does not, the depth has wrapped and the [unindent] fails its
    assertion. *)
Theorem unindent_indent (f : Formatter) (level : Z) :
  (0 <= mIndentDepth f < SIZE_MOD)%Z -> (0 <= level < SIZE_MOD)%Z ->
  ((mIndentDepth f + level < SIZE_MOD)%Z -> unindent level (indent level f) = Some f)
  /\ ((SIZE_MOD <= mIndentDepth f + level)%Z -> unindent level (indent level f) = None).
Proof.
  intros Hd Hl. destruct f as [fp d a lp sp].
  unfold unindent, indent, setIndentDepth. cbn in *. split.
  - intros H. rewrite Z.mod_small by lia.
    destruct (Z.leb_spec level (d + level)); [|lia]. do 2 f_equal. lia.
  - intros H. rewrite mod_wrapped by assumption.
    destruct (Z.leb_spec level (d + level - SIZE_MOD)); [lia | reflexivity].
Qed.

Lemma unindent_indent_witness :
  unindent 3 (indent 3 (Formatter_ctor None)) = Some (Formatter_ctor None)
  /\ unindent 1 (indent 1 (indent (SIZE_MOD - 1) (Formatter_ctor None))) = None.
Proof.
  split.
  - apply (unindent_indent (Formatter_ctor None) 3); vm_compute; intuition discriminate.
  - apply (unindent_indent (indent (SIZE_MOD - 1) (Formatter_ctor None)) 1);
      vm_compute; intuition discriminate.
Defined.

(** X2: the scoped [indent] of a balanced body is itself balanced, so scopes
    nest: whenever it returns, the depth is the one before the call. It
    returns exactly when the body does and the deeper depth fits a
    [size_t]. *)
Theorem indent_scoped_balanced (level : Z)
    (func : Formatter * Streams -> option (Formatter * Streams)) :
  (0 <= level < SIZE_MOD)%Z -> Balanced func ->
  Balanced (indent_scoped level func)
  /\ forall st, (0 <= mIndentDepth (fst st) < SIZE_MOD)%Z ->
       (is_Some (indent_scoped level func st) <->
        is_Some (func (indent level (fst st), snd st))
        /\ (mIndentDepth (fst st) + level < SIZE_MOD)%Z).
Proof.
  intros Hl Hbal.
  assert (Hin : forall st : Formatter * Streams,
            (0 <= mIndentDepth (indent level (fst st)) < SIZE_MOD)%Z).
  { intros st. cbn. apply Z.mod_pos_bound. reflexivity. }
  split.
  - intros st st' Hd. unfold indent_scoped.
    destruct (func (indent level (fst st), snd st)) as [[f1 io1]|] eqn:Hf; [|discriminate].
    pose proof (Hbal (indent level (fst st), snd st) (f1, io1) (Hin st) Hf) as Hdepth.
    cbn [fst indent mIndentDepth setIndentDepth] in Hdepth.
    unfold unindent. rewrite Hdepth.
    destruct (Z_lt_ge_dec (mIndentDepth (fst st) + level) SIZE_MOD) as [Hfit|Hwrap].
    + rewrite Z.mod_small by lia.
      destruct (Z.leb_spec level (mIndentDepth (fst st) + level)); [|lia].
      intros [= <-]. cbn. lia.
    + rewrite mod_wrapped by lia.
      destruct (Z.leb_spec level (mIndentDepth (fst st) + level - SIZE_MOD));
        [lia | discriminate].
  - intros st Hd. unfold indent_scoped.
    destruct (func (indent level (fst st), snd st)) as [[f1 io1]|] eqn:Hf.
    2: { split; [intros [? [=]] | intros [[? [=]] _]]. }
    pose proof (Hbal (indent level (fst st), snd st) (f1, io1) (Hin st) Hf) as Hdepth.
    cbn [fst indent mIndentDepth setIndentDepth] in Hdepth.
    unfold unindent. rewrite Hdepth.
    destruct (Z_lt_ge_dec (mIndentDepth (fst st) + level) SIZE_MOD) as [Hfit|Hwrap].
    + rewrite Z.mod_small by lia.
      destruct (Z.leb_spec level (mIndentDepth (fst st) + level)); [|lia].
      split; [intros _; split; [eauto | exact Hfit] | eauto].
    + rewrite mod_wrapped by lia.
      destruct (Z.leb_spec level (mIndentDepth (fst st) + level - SIZE_MOD)); [lia|].
      split; [intros [? [=]] | intros [_ ?]; lia].
Qed.

Lemma indent_scoped_balanced_witness :
  is_Some (indent_scoped 1 (indent_scoped 2 (fun st => Some (operator_shl st "x")))
             (Formatter_ctor (Some (stream 3)), ∅)).
Proof.
  assert (0 <= 1 < SIZE_MOD)%Z as H1 by (vm_compute; intuition discriminate).
  assert (0 <= 2 < SIZE_MOD)%Z as H2 by (vm_compute; intuition discriminate).
  destruct (indent_scoped_balanced 2 _ H2 (write_Balanced "x")) as [Hinner _].
  destruct (indent_scoped_balanced 1 _ H1 Hinner) as [_ Houter].
  apply Houter.
  - vm_compute. intuition discriminate.
  - split; [vm_compute; eauto | vm_compute; reflexivity].
Defined.

(** The nested scopes, evaluated: the text goes out three levels deep and the
    emitter comes back at depth 0. *)
Example nested_scopes_run :
  indent_scoped 1 (indent_scoped 2 (fun st => Some (operator_shl st "x")))
    (Formatter_ctor (Some (stream 3)), ∅)
  = Some (setAtStartOfLine false (Formatter_ctor (Some (stream 3))),
          fputs (spaces 12 +:+ "x") (stream 3) ∅).
Proof. vm_compute. reflexivity. Qed.

(** X3: writes only append to the emitter's own stream. After any number of
    writes the emitter has the same stream, depth, line prefix and elision
    token; what its stream held before is still there, followed by the new
    text; and no other stream has changed. *)
Theorem writes_append_only (st : Formatter * Streams) (outs : list string) :
  let st' := shl_all st outs in
  mFile (fst st') = mFile (fst st)
  /\ mIndentDepth (fst st') = mIndentDepth (fst st)
  /\ mLinePrefix (fst st') = mLinePrefix (fst st)
  /\ mSpace (fst st') = mSpace (fst st)
  /\ (exists r, contents (snd st') (mFile (fst st))
                = contents (snd st) (mFile (fst st)) +:+ r)
  /\ (forall fp, fp <> mFile (fst st) -> snd st' !! fp = snd st !! fp).
Proof.
  cbv zeta. destruct (shl_all_frame st outs) as (b & r & ->). cbn [fst snd].
  repeat split.
  - exists (c_str r). apply contents_fputs.
  - intros fp Hfp. apply lookup_fputs_ne. exact Hfp.
Qed.

(** X4: with no elision token set, writing texts without NUL one after the
    other is the same as writing them joined in one go. *)
Theorem writes_compose (f : Formatter) (io : Streams) (outs : list string) :
  mSpace f = "" -> Forall (fun out => nul_free out = true) outs ->
  shl_all (f, io) outs = operator_shl (f, io) (joined outs).
Proof.
  intros Hns Houts. revert f io Hns.
  induction Houts as [|o outs Ho Houts IH]; intros f io Hns.
  - reflexivity.
  - change (shl_all (f, io) (o :: outs))
      with (shl_all (operator_shl (f, io) o) outs).
    assert (Hjoined : nul_free (joined outs) = true).
    { clear -Houts. induction Houts as [|x l Hx _ IHl]; [reflexivity|].
      cbn [joined foldr]. fold (joined l). rewrite nul_free_app, Hx, IHl. reflexivity. }
    cbn [joined foldr]. fold (joined outs).
    rewrite (operator_shl_layout f io (o +:+ joined outs) Hns)
      by (rewrite nul_free_app, Ho, Hjoined; reflexivity).
    rewrite layout_app.
    rewrite (operator_shl_layout f io o Hns Ho). unfold written at 1.
    rewrite IH by exact Hns.
    rewrite operator_shl_layout by assumption. unfold written. cbn [fst snd].
    change (line_lead (setAtStartOfLine (snd (layout (line_lead f) (mAtStartOfLine f) o)) f))
      with (line_lead f).
    cbn [mAtStartOfLine mFile setAtStartOfLine].
    rewrite append_bytes_append_bytes. reflexivity.
Qed.

Lemma writes_compose_witness :
  shl_all (indent 1 (Formatter_ctor (Some (stream 3))), ∅) ["a"; nl; nl; "b"; "c"]
  = operator_shl (indent 1 (Formatter_ctor (Some (stream 3))), ∅)
      (joined ["a"; nl; nl; "b"; "c"]).
Proof.
  apply (writes_compose (indent 1 (Formatter_ctor (Some (stream 3)))) ∅
           ["a"; nl; nl; "b"; "c"]).
  - reflexivity.
  - repeat constructor.
Defined.

(** A NUL in the first text is why the texts must be free of it: written one
    after the other, the second text follows what came before the NUL;
    written joined, it is cut off with everything after the NUL. *)
Example writes_do_not_compose_across_nul :
  contents (snd (shl_all (Formatter_ctor (Some (stream 3)), ∅)
                   ["a" +:+ String NUL "b"; "c"])) (stream 3) = "ac"
  /\ contents (snd (operator_shl (Formatter_ctor (Some (stream 3)), ∅)
                      (joined ["a" +:+ String NUL "b"; "c"]))) (stream 3) = "a".
Proof. split; vm_compute; reflexivity. Qed.

(** X5: [output] puts at the end of the emitter's stream the text with the
    occurrences of the elision token deleted, up to the first NUL of what is
    left: the text itself, as a C string, when no token is set or the token
    does not occur in it. It never puts more characters than the text has,
    and strictly fewer when a set token does occur. *)
Theorem output_never_lengthens (f : Formatter) (text : string) (io : Streams) :
  output f text io = append_bytes (printed (mSpace f) text) (mFile f) io
  /\ (mSpace f = "" \/ find text (mSpace f) 0 = None ->
      printed (mSpace f) text = c_str text)
  /\ String.length (printed (mSpace f) text) <= String.length text
  /\ (mSpace f <> "" -> is_Some (find text (mSpace f) 0) ->
      String.length (printed (mSpace f) text) < String.length text).
Proof.
  split; [apply output_printed|]. unfold printed, deleteAll. split; [|split].
  - intros [->|Hnone]; [reflexivity|].
    destruct (decide (mSpace f = "")); [reflexivity|].
    rewrite deleteFrom_none by exact Hnone. reflexivity.
  - destruct (decide (mSpace f = "")); [apply c_str_length|].
    pose proof (c_str_length (deleteFrom (mSpace f) 0 text)).
    pose proof (deleteFrom_length (mSpace f) 0 text). lia.
  - intros Hne [p Hp]. destruct (decide (mSpace f = "")); [contradiction|].
    assert (0 < String.length (mSpace f)) as Hsp.
    { destruct (mSpace f); [contradiction | simpl; lia]. }
    pose proof (c_str_length (deleteFrom (mSpace f) 0 text)) as Hc.
    rewrite (deleteFrom_some _ _ _ Hsp Hp), append_length in *.
    pose proof (find_lt _ _ _ _ Hsp Hp) as Hfit.
    pose proof (substring_length_le_count p text).
    pose proof (deleteFrom_length (mSpace f) 0
                  (drop (p + String.length (mSpace f)) text)) as Hrest.
    rewrite drop_length in Hrest. lia.
Qed.

(** * More of the driver *)

Section TypesOnlyFacts.

Lemma packageNeedsJavaCode_types_only members t :
  packageNeedsJavaCode members t = Some false ->
  exists m, members = [m] /\ name m = "types".
Proof.
  unfold packageNeedsJavaCode. destruct members as [|m rest]; [discriminate|].
  destruct (Nat.ltb_spec 1 (length (m :: rest))) as [Hlen|Hlen]; cbn [orb];
    [discriminate|].
  assert (rest = []) as -> by (destruct rest; [reflexivity | simpl in Hlen; lia]).
  destruct (String.eqb_spec (name m) "types") as [Hn|Hn]; cbn [negb]; [|discriminate].
  intros _. eauto.
Qed.

Lemma packageNeedsJavaCode_interface members t :
  existsb (fun q => negb (String.eqb (name q) "types")) members = true ->
  packageNeedsJavaCode members t = Some true.
Proof.
  unfold packageNeedsJavaCode. destruct members as [|m rest]; [discriminate|].
  destruct (Nat.ltb_spec 1 (length (m :: rest))) as [Hlen|Hlen]; cbn [orb];
    [reflexivity|].
  assert (rest = []) as -> by (destruct rest; [reflexivity | simpl in Hlen; lia]).
  simpl. rewrite orb_false_r. intros ->. reflexivity.
Qed.

End TypesOnlyFacts.

(** X6: [isTypesOnlyPackage] answers true exactly for a package that can be
    enumerated and has no member other than "types"; when the enumeration
    fails it hands back that status and the answer false. A package that
    needs no Java code is types-only, and a package that is not types-only
    needs Java code. *)
Theorem isTypesOnlyPackage_spec (c : Coordinator) (pkg : FQName) :
  (isTypesOnlyPackage c pkg = (OK, true) <->
   exists members, packages c !! pkg = Some members
                   /\ Forall (fun m => name m = "types") members)
  /\ (packages c !! pkg = None -> isTypesOnlyPackage c pkg = (IO_ERROR, false))
  /\ (forall members t, packages c !! pkg = Some members ->
      (packageNeedsJavaCode members t = Some false ->
       isTypesOnlyPackage c pkg = (OK, true))
      /\ (isTypesOnlyPackage c pkg = (OK, false) ->
          packageNeedsJavaCode members t = Some true)).
Proof.
  assert (Hall : forall l : list FQName,
            existsb (fun q => negb (String.eqb (name q) "types")) l = false
            <-> Forall (fun m => name m = "types") l).
  { induction l as [|m l IH]; simpl.
    - split; auto.
    - rewrite orb_false_iff, IH, Forall_cons, negb_false_iff, String.eqb_eq. tauto. }
  unfold isTypesOnlyPackage. rewrite enumerate_spec.
  destruct (packages c !! pkg) as [members|] eqn:Hp.
  - split; [|split].
    + split.
      * intros [= H]. apply negb_true_iff, Hall in H. eauto.
      * intros (l & [= <-] & H). apply Hall in H. rewrite H. reflexivity.
    + discriminate.
    + intros l t [= <-]. split.
      * intros Hneed.
        destruct (packageNeedsJavaCode_types_only members t Hneed) as (m & -> & Hm).
        simpl. rewrite Hm. reflexivity.
      * intros [= H]. apply negb_false_iff in H.
        apply packageNeedsJavaCode_interface. exact H.
  - split; [|split].
    + split; [discriminate | intros (? & [=] & _)].
    + reflexivity.
    + intros l t [=].
Qed.

Section SourceBackends.

Variable World : Type.
Variable emit : Emitter -> AST -> string -> string -> World -> status_t * World.

Lemma generateSourcesForFile_no_emitter fqName c outputDir lang w :
  lang ∉ emitterLanguages ->
  snd (generateSourcesForFile World emit fqName c outputDir lang w) = w.
Proof.
  intros Hlang. unfold generateSourcesForFile.
  destruct (negb (isFullyQualified fqName)); [reflexivity|].
  destruct (_ && _); [reflexivity|].
  match goal with |- context [match ?a with Some _ => _ | None => _ end] =>
    destruct a as [ast|] end; [|reflexivity].
  repeat match goal with
         | |- context [String.eqb lang ?l] =>
             destruct (String.eqb_spec lang l) as [->|_];
             [first [reflexivity | exfalso; apply Hlang; unfold emitterLanguages; set_solver]|]
         end.
  reflexivity.
Qed.

Lemma generateEach_no_emitter members c outputDir lang w :
  lang ∉ emitterLanguages ->
  snd (generateEach World emit members c outputDir lang w) = w.
Proof.
  intros Hlang. revert w. induction members as [|m rest IH]; intros w; [reflexivity|].
  cbn [generateEach].
  pose proof (generateSourcesForFile_no_emitter m c outputDir lang w Hlang) as Hm.
  destruct (generateSourcesForFile World emit m c outputDir lang w) as [r w1].
  cbn [snd] in Hm. subst w1. destruct r as [[| |]|]; [apply IH | reflexivity ..].
Qed.

(** X7: for a language that is not one of the eleven emitter languages, and
    so for "check", the dispatch leaves the world as it found it whatever the
    request and however it ends; under "check" a fully qualified name that
    parses returns OK and one that does not returns UNKNOWN_ERROR. *)
Theorem no_emitter_no_output (language : string) (fqName : FQName)
    (hidl_gen : string) (c : Coordinator) (outputDir : string) (w : World) :
  language ∉ emitterLanguages ->
  snd (generationFunctionForFileOrPackage World emit language fqName hidl_gen c
         outputDir w) = w
  /\ (language = "check" -> isFullyQualified fqName = true ->
      find (name fqName) "types." 0 <> Some 0 ->
      fst (generationFunctionForFileOrPackage World emit language fqName hidl_gen c
             outputDir w)
      = Return (match parse c fqName with Some _ => OK | None => UNKNOWN_ERROR end)).
Proof.
  intros Hlang. split.
  - unfold generationFunctionForFileOrPackage.
    destruct (isFullyQualified fqName);
      [apply generateSourcesForFile_no_emitter; exact Hlang|].
    unfold generateSourcesForPackage. destruct (negb _); [reflexivity|].
    rewrite enumerate_spec. destruct (packages c !! fqName); [|reflexivity].
    apply generateEach_no_emitter. exact Hlang.
  - intros -> Hq Hty. unfold generationFunctionForFileOrPackage, generateSourcesForFile.
    rewrite Hq. cbn [negb]. rewrite bool_decide_eq_false_2 by exact Hty.
    cbn [andb]. destruct (parse c fqName); reflexivity.
Qed.

Lemma types_prefix_has_dot s : find s "types." 0 = Some 0 -> find s "." 0 <> None.
Proof.
  unfold find. intros H. apply index_correct1 in H.
  destruct s as [|c1 [|c2 [|c3 [|c4 [|c5 [|c6 s]]]]]]; simpl in H; try discriminate H.
  injection H as -> -> -> -> -> -> _. intros E.
  destruct s; vm_compute in E; discriminate E.
Qed.

Lemma generateSourcesForFile_no_abort fqName c outputDir lang w :
  isFullyQualified fqName = true ->
  (find (name fqName) "types." 0 = Some 0 -> lang = "java") ->
  fst (generateSourcesForFile World emit fqName c outputDir lang w) <> Abort.
Proof.
  intros Hq Hty. unfold generateSourcesForFile. rewrite Hq. cbn [negb].
  destruct (bool_decide (find (name fqName) "types." 0 = Some 0)) eqn:Htm; cbn [andb].
  - apply bool_decide_eq_true in Htm. rewrite (Hty Htm).
    change (negb (String.eqb "java" "java")) with false. cbv iota.
    destruct (parse c (getTypesForPackage fqName)); [|cbn [fst]; discriminate].
    change (String.eqb "java" "check") with false.
    change (String.eqb "java" "c++") with false.
    change (String.eqb "java" "c++-headers") with false.
    change (String.eqb "java" "c++-sources") with false.
    change (String.eqb "java" "c++-impl") with false.
    change (String.eqb "java" "c++-impl-headers") with false.
    change (String.eqb "java" "c++-impl-sources") with false.
    change (String.eqb "java" "c++-adapter") with false.
    change (String.eqb "java" "c++-adapter-headers") with false.
    change (String.eqb "java" "c++-adapter-sources") with false.
    change (String.eqb "java" "java") with true. cbv iota.
    destruct (emit generateJava _ _ _ _). cbn [fst]. discriminate.
  - destruct (parse c fqName) as [ast|]; [|cbn [fst]; discriminate].
    repeat match goal with
           | |- context [String.eqb lang ?l] => destruct (String.eqb lang l)
           end;
      try match goal with
          | |- context [emit ?e ?a ?o ?l ?x] => destruct (emit e a o l x)
          end; cbn [fst]; discriminate.
Qed.

Lemma generateEach_no_abort members c outputDir lang w :
  unitNames members ->
  fst (generateEach World emit members c outputDir lang w) <> Abort.
Proof.
  intros Hm. revert w. induction Hm as [|m rest [Hq Hty] _ IH]; intros w.
  - discriminate.
  - cbn [generateEach].
    pose proof (generateSourcesForFile_no_abort m c outputDir lang w Hq
                  ltac:(intros; contradiction)) as Hone.
    destruct (generateSourcesForFile World emit m c outputDir lang w) as [r w1].
    cbn [fst] in Hone.
    destruct r as [[| |]|]; [apply IH | cbn [fst]; discriminate ..| contradiction].
Qed.

(** X8: a valid name that [validateForSource] accepted for the language never
    trips a [CHECK] of the source dispatch, provided the package's enumeration
    lists fully qualified unit names: the call returns a status. *)
Theorem validated_request_returns (language : string) (fqName : FQName)
    (hidl_gen : string) (c : Coordinator) (outputDir : string) (w : World) :
  isValid fqName = true -> validateForSource fqName language = true ->
  (forall members, packages c !! fqName = Some members -> unitNames members) ->
  exists err w',
    generationFunctionForFileOrPackage World emit language fqName hidl_gen c outputDir w
    = (Return err, w').
Proof.
  intros Hv Hok Hmem.
  assert (fst (generationFunctionForFileOrPackage World emit language fqName hidl_gen c
                 outputDir w) <> Abort) as Hna.
  { unfold generationFunctionForFileOrPackage.
    unfold validateForSource in Hok.
    destruct (empty (package fqName)) eqn:Hp; [discriminate|].
    destruct (empty (version fqName)) eqn:Hr; [discriminate|].
    destruct (isFullyQualified fqName) eqn:Hq.
    - apply generateSourcesForFile_no_abort; [exact Hq|]. intros Hty.
      unfold isFullyQualified in Hq. rewrite Hp, Hr in Hq. cbn in Hq.
      destruct (empty (name fqName)); [discriminate|]. cbn [negb] in Hok.
      pose proof (types_prefix_has_dot _ Hty) as Hdot.
      destruct (find (name fqName) "." 0); [|contradiction].
      rewrite (bool_decide_eq_true_2 _ Hty) in Hok. cbn in Hok.
      destruct (String.eqb_spec language "java"); [assumption | discriminate].
    - unfold generateSourcesForPackage. rewrite Hv, Hq.
      unfold isFullyQualified in Hq. rewrite Hp, Hr in Hq. cbn in Hq.
      destruct (empty (name fqName)); [|discriminate]. cbn [negb andb].
      rewrite enumerate_spec. destruct (packages c !! fqName) as [members|] eqn:Hpk;
        [|discriminate].
      apply generateEach_no_abort, Hmem. reflexivity. }
  destruct (generationFunctionForFileOrPackage World emit language fqName hidl_gen c
              outputDir w) as [[err|] w']; [eauto | contradiction].
Qed.

(** X9: [validateIsPackage] accepts exactly the names with a package and a
    version and no unit name; every name it accepts is also accepted by
    [validateForSource], for every language, and is not fully qualified, so
    that the dispatch takes it as a package. *)
Theorem package_names_are_source_names (fqName : FQName) (language : string) :
  (validateIsPackage fqName language = true <->
   package fqName <> "" /\ version fqName <> "" /\ name fqName = "")
  /\ (validateIsPackage fqName language = true ->
      forall lang, validateForSource fqName lang = true)
  /\ (validateIsPackage fqName language = true -> isFullyQualified fqName = false)
  /\ (validateForSource fqName language = true ->
      find (name fqName) "." 0 <> None ->
      language = "java" /\ find (name fqName) "types." 0 = Some 0).
Proof.
  assert (Hchar : validateIsPackage fqName language = true <->
                  package fqName <> "" /\ version fqName <> "" /\ name fqName = "").
  { unfold validateIsPackage, empty.
    destruct (decide (package fqName = "")); destruct (decide (version fqName = ""));
      destruct (decide (name fqName = "")); cbn; split;
      first [discriminate | tauto | intros (? & ? & ?); contradiction]. }
  split; [exact Hchar|]. split; [|split].
  - intros H lang. apply Hchar in H as (Hp & Hr & Hn).
    unfold validateForSource, empty. rewrite Hn.
    destruct (decide (package fqName = "")); [contradiction|].
    destruct (decide (version fqName = "")); [contradiction|]. reflexivity.
  - intros H. apply Hchar in H as (_ & _ & Hn).
    unfold isFullyQualified, empty. rewrite Hn. cbn. apply andb_false_r.
  - intros H Hdot. unfold validateForSource, empty in H.
    destruct (decide (package fqName = "")); [discriminate|].
    destruct (decide (version fqName = "")); [discriminate|].
    destruct (decide (name fqName = "")) as [Hn|_].
    { rewrite Hn in Hdot. exfalso. apply Hdot. reflexivity. }
    cbn [negb] in H. destruct (find (name fqName) "." 0); [|contradiction].
    destruct (String.eqb_spec language "java"); cbn in H; [|discriminate].
    split; [assumption|].
    destruct (bool_decide (find (name fqName) "types." 0 = Some 0)) eqn:Hb;
      [apply bool_decide_eq_true in Hb; exact Hb | discriminate].
Qed.

Lemma mainLoop_outcome (h : OutputHandler World) me c outputPath argv w :
  let '(e, w') := mainLoop World h me c outputPath argv w in
  (e = exit 0 /\ Served World h me c outputPath argv w w')
  \/ exists pre q post w1,
       argv = pre ++ q :: post /\ Served World h me c outputPath pre w w1
       /\ ((isValid q = false /\ e = exit 1 /\ w' = w1)
           \/ (isValid q = true /\ validate World h q (mKey World h) = false
               /\ e = exit 1 /\ w' = w1)
           \/ (isValid q = true /\ validate World h q (mKey World h) = true
               /\ exists r, generate World h q me c outputPath w1 = (r, w')
                            /\ r <> Return OK
                            /\ e = match r with Return _ => exit 1 | Abort => aborted end)).
Proof.
  revert w. induction argv as [|q rest IH]; intros w; cbn [mainLoop].
  - left. split; [reflexivity | constructor].
  - destruct (isValid q) eqn:Hv; cbn [negb].
    2: { right. exists [], q, rest, w. repeat split; [constructor | tauto]. }
    destruct (validate World h q (mKey World h)) eqn:Hok; cbn [negb].
    2: { right. exists [], q, rest, w. repeat split; [constructor | tauto]. }
    destruct (generate World h q me c outputPath w) as [r w1] eqn:Hg.
    assert (Hstop : r <> Return OK ->
              exists pre q0 post w0,
                q :: rest = pre ++ q0 :: post /\ Served World h me c outputPath pre w w0
                /\ ((isValid q0 = false
                     /\ match r with Return _ => exit 1 | Abort => aborted end = exit 1
                     /\ w1 = w0)
                    \/ (isValid q0 = true /\ validate World h q0 (mKey World h) = false
                        /\ match r with Return _ => exit 1 | Abort => aborted end = exit 1
                        /\ w1 = w0)
                    \/ (isValid q0 = true /\ validate World h q0 (mKey World h) = true
                        /\ exists r0, generate World h q0 me c outputPath w0 = (r0, w1)
                                      /\ r0 <> Return OK
                                      /\ match r with Return _ => exit 1 | Abort => aborted end
                                         = match r0 with Return _ => exit 1
                                                       | Abort => aborted end))).
    { intros Hr. exists [], q, rest, w. split; [reflexivity|]. split; [constructor|].
      right. right. split; [exact Hv|]. split; [exact Hok|]. exists r. tauto. }
    destruct r as [[| |]|]; try (right; apply Hstop; discriminate).
    specialize (IH w1). destruct (mainLoop World h me c outputPath rest w1) as [e w'].
    destruct IH as [[-> Hall] | (pre & q0 & post & w0 & -> & Hpre & Hcase)].
    + left. split; [reflexivity|]. econstructor; eassumption.
    + right. exists (q :: pre), q0, post, w0. split; [reflexivity|].
      split; [econstructor; eassumption | exact Hcase].
Qed.

(** X10: [main] serves the names strictly in argument order. It exits with 0
    exactly when every name was valid, accepted by the backend and generated
    with status OK, each from the world the previous one left; otherwise it
    stops at the first name that is not, with exit status 1 (or an abort when
    a [CHECK] failed), and the names after it are not looked at. *)
Theorem main_serves_in_order (h : OutputHandler World) (me : string) (c : Coordinator)
    (outputPath : string) (argv : list FQName) (w : World) :
  (forall w', mainLoop World h me c outputPath argv w = (exit 0, w') <->
              Served World h me c outputPath argv w w')
  /\ (forall e w', mainLoop World h me c outputPath argv w = (e, w') -> e <> exit 0 ->
      exists pre q post w1,
        argv = pre ++ q :: post /\ Served World h me c outputPath pre w w1
        /\ mainLoop World h me c outputPath (pre ++ [q]) w = (e, w')
        /\ (e = exit 1 \/ e = aborted)).
Proof.
  split.
  - intros w'. split.
    + intros Hrun. pose proof (mainLoop_outcome h me c outputPath argv w) as H.
      rewrite Hrun in H.
      destruct H as [[_ H]|(pre & q & post & w1 & _ & _ & Hcase)]; [exact H|].
      destruct Hcase as [(_ & [=] & _)|[(_ & _ & [=] & _)|(_ & _ & r & _ & Hr & He)]].
      destruct r as [[| |]|]; discriminate He.
    + induction 1 as [w0|q rest w0 w1 w2 Hv Hok Hg _ IH]; cbn [mainLoop].
      * reflexivity.
      * rewrite Hv, Hok, Hg. cbn [negb]. exact IH.
  - intros e w' Hrun He. pose proof (mainLoop_outcome h me c outputPath argv w) as H.
    rewrite Hrun in H. destruct H as [[-> _]|(pre & q & post & w1 & -> & Hpre & Hcase)];
      [contradiction|].
    exists pre, q, post, w1. split; [reflexivity|]. split; [exact Hpre|].
    assert (Hpre' : mainLoop World h me c outputPath pre w = (exit 0, w1)).
    { clear -Hpre. induction Hpre as [w0|q rest w0 w1 w2 Hv Hok Hg _ IH]; cbn [mainLoop].
      - reflexivity.
      - rewrite Hv, Hok, Hg. cbn [negb]. exact IH. }
    rewrite mainLoop_app, Hpre'. cbn [mainLoop].
    destruct Hcase as [(Hv & -> & ->)|[(Hv & Hok & -> & ->)|(Hv & Hok & r & Hg & Hr & ->)]].
    + rewrite Hv. cbn. tauto.
    + rewrite Hv, Hok. cbn. tauto.
    + rewrite Hv, Hok, Hg. cbn [negb].
      destruct r as [[| |]|]; [contradiction | tauto ..].
Qed.

End SourceBackends.

Lemma no_emitter_no_output_witness :
  ("check" ∉ emitterLanguages)
  /\ snd (generationFunctionForFileOrPackage (list AST) logEmit "check" pkgFoo
            "hidl-gen" threeUnits "out/" []) = [].
Proof.
  assert (H : "check" ∉ emitterLanguages).
  { unfold emitterLanguages. intros H.
    repeat (apply elem_of_cons in H as [H|H]; [discriminate H|]). inversion H. }
  split; [exact H|].
  exact (proj1 (no_emitter_no_output (list AST) logEmit "check" pkgFoo "hidl-gen"
                  threeUnits "out/" [] H)).
Defined.

Lemma validated_request_returns_witness :
  isValid pkgFoo = true /\ validateForSource pkgFoo "c++" = true
  /\ exists err w',
       generationFunctionForFileOrPackage (list AST) logEmit "c++" pkgFoo "hidl-gen"
         threeUnits "out/" [] = (Return err, w').
Proof.
  split; [reflexivity|]. split; [reflexivity|].
  apply (validated_request_returns (list AST) logEmit "c++" pkgFoo "hidl-gen"
           threeUnits "out/" []); [reflexivity | reflexivity |].
  intros members H. vm_compute in H. injection H as <-.
  repeat constructor; vm_compute; discriminate.
Defined.

(** * More on the closure *)

Section ClosureFacts.

Variable c : Coordinator.

Lemma pushUnseen_seen l wl :
  (forall u, u ∈ l -> u ∈ seen wl) -> pushUnseen l wl = wl.
Proof.
  induction l as [|i l IH]; intros Hl; cbn [pushUnseen]; [reflexivity|].
  destruct (decide (i ∈ seen wl)) as [_|Hi]; [apply IH; set_solver|].
  exfalso. apply Hi, Hl. set_solver.
Qed.

Lemma pushImports_seen pkgs wl :
  (forall p, p ∈ pkgs -> exists l, packages c !! p = Some l
                                   /\ forall u, u ∈ l -> u ∈ seen wl) ->
  pushImports c pkgs wl = Ok wl.
Proof.
  induction pkgs as [|p pkgs IH]; intros Hall; cbn [pushImports]; [reflexivity|].
  rewrite enumerate_spec. destruct (Hall p ltac:(set_solver)) as (l & -> & Hl).
  rewrite pushUnseen_seen by exact Hl. apply IH. intros q Hq. apply Hall. set_solver.
Qed.

Lemma Covered_pop wl fqName :
  Covered wl -> back (todo wl) = Some fqName ->
  Covered (mkWorklist (pop_back (todo wl)) (seen wl) (parsed wl ++ [fqName])).
Proof.
  intros Hcov Hb u Hu. apply back_pop in Hb. specialize (Hcov u Hu).
  cbn [parsed todo seen] in *. rewrite Hb in Hcov. set_solver.
Qed.

Lemma Covered_pushImports pkgs wl wl' :
  Covered wl -> pushImports c pkgs wl = Ok wl' -> Covered wl'.
Proof.
  intros Hcov Hp u Hu.
  apply pushImports_Ok in Hp as (_ & _ & (new & Ht & _ & Hnew) & Hpar).
  rewrite Hpar, Ht. destruct (decide (u ∈ seen wl)) as [Hs|Hs].
  - specialize (Hcov u Hs). set_solver.
  - assert (u ∈ new) by (apply Hnew; tauto). set_solver.
Qed.

Lemma closureLoop_compatible_end pkg fuel wl wl' :
  Inv c pkg wl -> Covered wl ->
  closureLoop fuel c wl = Some (Ok true, wl') ->
  Inv c pkg wl' /\ Covered wl' /\ todo wl' = [].
Proof.
  revert wl. induction fuel as [|fuel IH]; intros wl Hinv Hcov; [discriminate|].
  cbn [closureLoop]. destruct (back (todo wl)) as [fqName|] eqn:Hb.
  2: { intros [= <-]. split; [exact Hinv|]. split; [exact Hcov | apply back_None, Hb]. }
  unfold parse. destruct (units c !! fqName) as [ast|] eqn:Hu; [|discriminate].
  destruct (isJavaCompatible ast) eqn:Hc; cbn [negb]; [|discriminate].
  destruct (pushImports c (getImportedPackages ast) _) as [wl2|err] eqn:Hp;
    [|discriminate].
  apply IH.
  - eapply Inv_step; eassumption.
  - eapply Covered_pushImports; [|exact Hp]. apply Covered_pop; assumption.
Qed.

Lemma closureLoop_within fuel wl r wl' :
  (forall x, x ∈ parsed wl ++ todo wl -> x ∈ seen wl) ->
  closureLoop fuel c wl = Some (r, wl') ->
  forall x, x ∈ parsed wl' ++ todo wl' -> x ∈ seen wl'.
Proof.
  revert wl. induction fuel as [|fuel IH]; intros wl H0; [discriminate|].
  cbn [closureLoop]. destruct (back (todo wl)) as [fq|] eqn:Hb.
  2: { intros [= _ <-]. exact H0. }
  assert (H1 : forall x, x ∈ (parsed wl ++ [fq]) ++ pop_back (todo wl) -> x ∈ seen wl).
  { intros x Hx. apply H0. apply back_pop in Hb. rewrite Hb. set_solver. }
  destruct (parse c fq) as [ast|]; [|intros [= _ <-]; exact H1].
  destruct (negb (isJavaCompatible ast)); [intros [= _ <-]; exact H1|].
  destruct (pushImports c (getImportedPackages ast) _) as [wl2|err] eqn:Hpi;
    [|intros [= _ <-]; exact H1].
  apply IH. apply pushImports_Ok in Hpi as (_ & Hs & (new & Ht & _ & Hnew) & Hpar).
  cbn [seen todo parsed] in *.
  intros x. rewrite Hpar, Ht, app_assoc, elem_of_app. intros [Hx|Hx].
  - apply Hs. left. apply H1, Hx.
  - apply Hnew, Hx.
Qed.

Lemma reachable_through_import p q v ast :
  reachable c p v -> units c !! v = Some ast -> q ∈ getImportedPackages ast ->
  forall u, reachable c q u -> reachable c p u.
Proof.
  intros Hv Hast Hq u Hu.
  induction Hu as [members u Hm Hu | w a r members u _ IH Hw Hr Hm Hu].
  - eapply reach_import; eassumption.
  - eapply (reach_import c p w); eassumption.
Qed.

Lemma isPackageJavaCompatible_true_iff pkg fuel :
  closureFuel c pkg <= fuel ->
  (isPackageJavaCompatible fuel c pkg = Some (Ok true) <->
   is_Some (packages c !! pkg) /\ forall u, reachable c pkg u -> unitCompatible c u).
Proof.
  intros Hfuel.
  destruct (javaCompatibleRun_returns c pkg fuel Hfuel) as (r & wl & Hrun & _).
  unfold isPackageJavaCompatible. rewrite Hrun. cbn [fmap option_fmap option_map fst].
  unfold javaCompatibleRun in Hrun. rewrite enumerate_spec in Hrun.
  destruct (packages c !! pkg) as [members|] eqn:Hp.
  - pose proof (closureLoop_sound c pkg _ _ _ _ (Inv_initial c pkg _ Hp) Hrun) as Hs.
    split.
    + intros [= ->]. split; [eauto | exact Hs].
    + intros [_ Hall]. destruct r as [[|]|err]; [reflexivity | exfalso ..].
      * destruct Hs as (u & Hu & a & Ha & Hf).
        destruct (Hall u Hu) as (a' & Ha' & Hf' & _). congruence.
      * destruct Hs as (u & Hu & Hun). destruct (Hall u Hu) as (a & Ha & _ & Himp).
        destruct Hun as [Hn|(a' & q & Ha' & Hq & Hn)]; [congruence|].
        assert (a' = a) as -> by congruence.
        destruct (Himp q Hq) as [l Hl]. congruence.
  - split; [injection Hrun as <- _; discriminate | intros [[? [=]] _]].
Qed.

End ClosureFacts.

(** X11: when the verdict is "compatible", the closure the loop built is
    exact: the units seen, and likewise the units parsed, are precisely the
    units reachable from the package, nothing is left on the worklist, and no
    unit was parsed twice if the package's enumeration lists none twice. *)
Theorem compatible_closure_is_exact (c : Coordinator) (pkg : FQName) (fuel : nat)
    (wl : Worklist) :
  javaCompatibleRun fuel c pkg = Some (Ok true, wl) ->
  (forall u, u ∈ seen wl <-> reachable c pkg u)
  /\ (forall u, u ∈ parsed wl <-> reachable c pkg u)
  /\ todo wl = []
  /\ ((forall members, packages c !! pkg = Some members -> NoDup members) ->
      NoDup (parsed wl)).
Proof.
  intros Hrun. pose proof Hrun as Hrun'.
  unfold javaCompatibleRun in Hrun. rewrite enumerate_spec in Hrun.
  destruct (packages c !! pkg) as [members|] eqn:Hp; [|discriminate].
  assert (Covered (mkWorklist members (list_to_set members) [])) as Hcov0.
  { intros u Hu. cbn in *. apply elem_of_list_to_set in Hu. exact Hu. }
  destruct (closureLoop_compatible_end c pkg _ _ _ (Inv_initial c pkg _ Hp) Hcov0 Hrun)
    as (Hinv & Hcov & Hnil).
  assert (Hseen : forall u, u ∈ seen wl <-> reachable c pkg u).
  { intros u. split.
    - destruct Hinv as (Hr & _). apply Hr.
    - intros Hu. eapply Inv_closed; eassumption. }
  split; [exact Hseen|]. split; [|split; [exact Hnil|]].
  - intros u. rewrite <- Hseen. split.
    + intros Hu.
      assert (forall x, x ∈ [] ++ members -> x ∈ (list_to_set members : gset FQName))
        as H0 by (intros x Hx; apply elem_of_list_to_set; exact Hx).
      apply (closureLoop_within c fuel (mkWorklist members (list_to_set members) [])
               (Ok true) wl H0 Hrun).
      apply elem_of_app. left. exact Hu.
    + intros Hu. specialize (Hcov u Hu). rewrite Hnil, app_nil_r in Hcov. exact Hcov.
  - intros Hnd. rewrite <- Hp in Hnd.
    destruct (javaCompatibleRun_Once c pkg fuel _ _ Hrun' Hnd) as [H _].
    rewrite Hnil, app_nil_r in H. exact H.
Qed.

Lemma compatible_closure_is_exact_witness :
  exists wl, javaCompatibleRun 5 cycle pkgA = Some (Ok true, wl)
             /\ ((forall u, u ∈ seen wl <-> reachable cycle pkgA u)
                 /\ (forall u, u ∈ parsed wl <-> reachable cycle pkgA u)
                 /\ todo wl = []
                 /\ ((forall members, packages cycle !! pkgA = Some members ->
                      NoDup members) -> NoDup (parsed wl))).
Proof.
  destruct (javaCompatibleRun 5 cycle pkgA) as [[r wl]|] eqn:Hrun;
    [|vm_compute in Hrun; discriminate Hrun].
  assert (r = Ok true) as ->.
  { assert (fst <$> javaCompatibleRun 5 cycle pkgA = Some (Ok true)) as H
      by (vm_compute; reflexivity).
    rewrite Hrun in H. injection H as <-. reflexivity. }
  exists wl. split; [reflexivity|].
  exact (compatible_closure_is_exact cycle pkgA 5 wl Hrun).
Defined.

(** X12: a package found Java-compatible imports only Java-compatible
    packages: every package imported by a unit of its closure is found
    compatible as well, whatever fuel above its own bound it is given. *)
Theorem compatible_imports_compatible (c : Coordinator) (p q v : FQName) (ast : AST)
    (fuel fuel' : nat) :
  closureFuel c p <= fuel -> closureFuel c q <= fuel' ->
  isPackageJavaCompatible fuel c p = Some (Ok true) ->
  reachable c p v -> units c !! v = Some ast -> q ∈ getImportedPackages ast ->
  isPackageJavaCompatible fuel' c q = Some (Ok true).
Proof.
  intros Hf Hf' Hp Hv Hast Hq.
  apply (isPackageJavaCompatible_true_iff c p fuel Hf) in Hp as [_ Hall].
  apply (isPackageJavaCompatible_true_iff c q fuel' Hf'). split.
  - destruct (Hall v Hv) as (a & Ha & _ & Himp).
    assert (a = ast) as -> by congruence. apply Himp, Hq.
  - intros u Hu. apply Hall. eapply reachable_through_import; eassumption.
Qed.

Lemma compatible_imports_compatible_witness :
  isPackageJavaCompatible 5 cycle pkgB = Some (Ok true).
Proof.
  apply (compatible_imports_compatible cycle pkgA pkgB unitA (importing true pkgB) 5 5).
  - vm_compute. lia.
  - vm_compute. lia.
  - vm_compute. reflexivity.
  - apply (reach_member _ _ [unitA]); [reflexivity | set_solver].
  - reflexivity.
  - set_solver.
Defined.

(** X13: the visited set makes a repeated import a no-op. Pushing the members
    of packages a second time leaves the worklist exactly as the first push
    left it, and pushing members that have all been seen changes nothing. *)
Theorem repeated_import_is_noop (c : Coordinator) (pkgs : list FQName)
    (wl wl' : Worklist) :
  pushImports c pkgs wl = Ok wl' ->
  pushImports c pkgs wl' = Ok wl'
  /\ forall l, (forall u, u ∈ l -> u ∈ seen wl') -> pushUnseen l wl' = wl'.
Proof.
  intros Hp. split.
  - apply pushImports_seen. intros p Hin.
    apply pushImports_Ok in Hp as (Hall & Hs & _).
    destruct (Hall p Hin) as [l Hl]. exists l. split; [exact Hl|].
    intros u Hu. apply Hs. right. eauto.
  - intros l. apply pushUnseen_seen.
Qed.

Lemma repeated_import_is_noop_witness :
  pushImports diamond [pkgD; pkgD]
    (pushUnseen [unitD] (mkWorklist [unitB] {[unitB]} []))
  = Ok (pushUnseen [unitD] (mkWorklist [unitB] {[unitB]} [])).
Proof.
  apply (repeated_import_is_noop diamond [pkgD; pkgD]
           (mkWorklist [unitB] {[unitB]} [])).
  vm_compute. reflexivity.
Defined.

(** * More on the makefile backend *)

Section MakefileFacts.

Variable World : Type.
Variable getFormatter :
  Coordinator -> string -> FQName -> string -> World -> Formatter * World.
Variable Formatter_isValid : Formatter -> bool.
Variable writeAndroidMk :
  FQName -> string -> Coordinator -> list FQName -> gset FQName -> option AST ->
  bool -> bool -> Formatter -> World -> World.

Lemma gather_fails c members g m :
  m ∈ members -> parse c m = None -> gather c members g = Err UNKNOWN_ERROR.
Proof.
  intros Hm Hnone. revert g. induction members as [|x rest IH]; intros g.
  - inversion Hm.
  - cbn [gather]. destruct (parse c x) as [ast|] eqn:Hx; [|reflexivity].
    apply IH. apply elem_of_cons in Hm as [->|Hm]; [congruence | exact Hm].
Qed.

Lemma gather_Err c members g e :
  gather c members g = Err e ->
  e = UNKNOWN_ERROR /\ exists m, m ∈ members /\ parse c m = None.
Proof.
  revert g. induction members as [|x rest IH]; intros g; cbn [gather].
  - discriminate.
  - destruct (parse c x) as [ast|] eqn:Hx.
    + intros H. apply IH in H as (-> & m & Hm & Hnone).
      split; [reflexivity|]. exists m. split; [right; exact Hm | exact Hnone].
    + intros [= <-]. split; [reflexivity|]. exists x. split; [left | exact Hx].
Qed.

Lemma gather_types c members g g' :
  gather c members g = Ok g' ->
  is_Some (typesAST g) \/ (exists m, m ∈ members /\ name m = "types") ->
  is_Some (typesAST g').
Proof.
  revert g. induction members as [|x rest IH]; intros g; cbn [gather].
  - intros [= <-] [H|(m & Hm & _)]; [exact H | inversion Hm].
  - destruct (parse c x) as [ast|] eqn:Hx; [|discriminate].
    intros Hg Hcase. apply (IH _ Hg). cbn [typesAST].
    destruct (String.eqb_spec (name x) "types") as [Hn|Hn]; [left; eauto|].
    destruct Hcase as [H|(m & Hm & Hname)]; [left; exact H|].
    apply elem_of_cons in Hm as [->|Hm]; [contradiction|]. right. eauto.
Qed.

(** X14: a makefile request that passed [main]'s checks always comes back
    when the package enumerates at least one unit: with IO_ERROR when the
    package cannot be enumerated and with UNKNOWN_ERROR when a member does not
    parse, the world untouched in both cases, and with a status otherwise; the
    [CHECK]s on the name and on the types unit never fail. Only an
    enumeration without any unit runs into [packageInterfaces[0]] of an empty
    vector. *)
Theorem makefile_request_returns (fuel : nat) (packageFQName : FQName)
    (hidl_gen : string) (c : Coordinator) (outputPath : string) (w : World) :
  isValid packageFQName = true -> validateIsPackage packageFQName "makefile" = true ->
  closureFuel c packageFQName <= fuel ->
  let run := generateMakefileForPackage World getFormatter Formatter_isValid
               writeAndroidMk fuel packageFQName hidl_gen c outputPath w in
  (packages c !! packageFQName = None -> run = Some (Return IO_ERROR, w))
  /\ (forall members m, packages c !! packageFQName = Some members ->
        m ∈ members -> parse c m = None -> run = Some (Return UNKNOWN_ERROR, w))
  /\ (forall members, packages c !! packageFQName = Some members -> members <> [] ->
        exists err w', run = Some (Return err, w'))
  /\ (packages c !! packageFQName = Some [] -> run = Some (Abort, w)).
Proof.
  intros Hv Hok Hfuel run. subst run.
  assert (Hentry : negb (isValid packageFQName && negb (isFullyQualified packageFQName)
                         && empty (name packageFQName)) = false).
  { unfold validateIsPackage in Hok. unfold isFullyQualified. rewrite Hv.
    destruct (empty (package packageFQName)); [discriminate|].
    destruct (empty (version packageFQName)); [discriminate|].
    destruct (empty (name packageFQName)); [reflexivity | discriminate]. }
  unfold generateMakefileForPackage. rewrite Hentry, enumerate_spec.
  split; [|split; [|split]].
  - intros ->. reflexivity.
  - intros members m -> Hm Hnone. rewrite (gather_fails c members _ m Hm Hnone).
    reflexivity.
  - intros members -> Hne.
    destruct (gather c members (mkGathered None ∅ [])) as [g|e] eqn:Hg; [|eauto].
    destruct (javaCompatibleRun_returns c packageFQName fuel Hfuel) as (r & wl & Hrun & _).
    unfold isPackageJavaCompatible. rewrite Hrun. cbn [fmap option_fmap option_map fst].
    destruct r as [compatible|e]; [|eauto].
    destruct (negb compatible && _); [eauto|].
    destruct (packageNeedsJavaCode members (typesAST g)) as [[|]|] eqn:Hneed.
    + destruct (getFormatter c outputPath packageFQName "Android.mk" w) as [out w1].
      destruct (negb (Formatter_isValid out)); eauto.
    + eauto.
    + exfalso. unfold packageNeedsJavaCode in Hneed.
      destruct members as [|first rest]; [contradiction|].
      destruct (_ || _) eqn:Hcond; [discriminate|].
      apply orb_false_iff in Hcond as [_ Hn]. apply negb_false_iff, String.eqb_eq in Hn.
      assert (is_Some (typesAST g)) as [ast Hast].
      { apply (gather_types _ _ _ _ Hg). right. exists first. split; [left | exact Hn]. }
      rewrite Hast in Hneed. discriminate.
  - intros Hp. rewrite Hp. cbn [gather].
    unfold isPackageJavaCompatible, javaCompatibleRun. rewrite enumerate_spec, Hp.
    destruct fuel as [|fuel']; [unfold closureFuel in Hfuel; lia|]. reflexivity.
Qed.

End MakefileFacts.

Lemma makefile_request_returns_witness :
  closureFuel halfParsed pkgFoo <= 5
  /\ generateMakefileForPackage (list string) openSink (fun _ => true)
       (fun _ _ _ _ _ _ _ _ _ w => w) 5 pkgFoo "hidl-gen" halfParsed "out/" []
     = Some (Return UNKNOWN_ERROR, []).
Proof.
  assert (Hfuel : closureFuel halfParsed pkgFoo <= 5)
    by (apply Nat.leb_le; vm_compute; reflexivity).
  split; [exact Hfuel|].
  apply (proj1 (proj2 (makefile_request_returns (list string) openSink (fun _ => true)
                         (fun _ _ _ _ _ _ _ _ _ w => w) 5 pkgFoo "hidl-gen" halfParsed
                         "out/" [] eq_refl eq_refl Hfuel))
           [fooIFoo; fooIBar] fooIBar).
  - vm_compute. reflexivity.
  - right. left.
  - vm_compute. reflexivity.
Defined.

(** * The backends that write through a Formatter *)

Section RunsFacts.

Lemma Runs_shl s d : Runs (shl s) d d.
Proof.
  intros st Hd. unfold shl. destruct (operator_shl_frame st s) as (b & r & ->).
  exists b, r. destruct st as [f io]. cbn in *. subst d. reflexivity.
Qed.

Lemma Runs_indent d : (0 <= d)%Z -> (d + 1 < SIZE_MOD)%Z -> Runs out_indent d (d + 1).
Proof.
  intros H0 H1 [f io] Hd. cbn in Hd. exists (mAtStartOfLine f), "".
  unfold out_indent, indent, setIndentDepth. cbn [fst snd].
  rewrite fputs_nil, Hd, Z.mod_small by lia. reflexivity.
Qed.

Lemma Runs_unindent d : (1 <= d)%Z -> Runs out_unindent d (d - 1).
Proof.
  intros H1 [f io] Hd. cbn in Hd. exists (mAtStartOfLine f), "".
  unfold out_unindent, unindent, setIndentDepth. cbn [fst snd].
  rewrite fputs_nil, Hd. destruct (Z.leb_spec 1 d); [reflexivity | lia].
Qed.

Lemma Runs_nil d d' : d = d' -> Runs (steps []) d d'.
Proof.
  intros <- [f io] Hd. cbn in Hd. exists (mAtStartOfLine f), "".
  cbn [steps fst snd]. rewrite fputs_nil, <- Hd. destruct f; reflexivity.
Qed.

Lemma Runs_andThen (a b : Out) d d1 d' :
  Runs a d d1 -> Runs b d1 d' ->
  Runs (fun st => match a st with Some st' => b st' | None => None end) d d'.
Proof.
  intros Ha Hb st Hd. destruct (Ha st Hd) as (b1 & r1 & ->).
  destruct (Hb (mkFormatter (mFile (fst st)) d1 b1 (mLinePrefix (fst st))
                  (mSpace (fst st)),
                fputs r1 (mFile (fst st)) (snd st)) eq_refl) as (b2 & r2 & ->).
  cbn [fst snd mFile mLinePrefix mSpace]. exists b2, (c_str r1 +:+ r2).
  rewrite fputs_fputs. reflexivity.
Qed.

Lemma steps_shl_all texts st : steps (map shl texts) st = Some (shl_all st texts).
Proof.
  revert st. induction texts as [|t texts IH]; intros st; [reflexivity|].
  cbn [map steps]. unfold shl at 1. apply IH.
Qed.

Lemma shl_all_app st l1 l2 : shl_all st (l1 ++ l2) = shl_all (shl_all st l1) l2.
Proof. unfold shl_all. apply fold_left_app. Qed.

Lemma steps_app l1 l2 st :
  steps (l1 ++ l2) st = match steps l1 st with Some st' => steps l2 st' | None => None end.
Proof.
  revert st. induction l1 as [|a l1 IH]; intros st; [reflexivity|].
  cbn [steps app]. destruct (a st) as [st'|]; [apply IH | reflexivity].
Qed.

Lemma Runs_cons (a : Out) (rest : list Out) d d1 d' :
  Runs a d d1 -> Runs (steps rest) d1 d' -> Runs (steps (a :: rest)) d d'.
Proof. intros Ha Hr. exact (Runs_andThen a (steps rest) d d1 d' Ha Hr). Qed.

Lemma Runs_forEach {A} (l : list A) (body : A -> Out) d :
  (forall x, x ∈ l -> Runs (body x) d d) -> Runs (forEach l body) d d.
Proof.
  unfold forEach. induction l as [|x l IH]; intros H; cbn [map].
  - apply Runs_nil. reflexivity.
  - eapply Runs_cons; [apply H; left | apply IH; intros y Hy; apply H; right; exact Hy].
Qed.

Lemma Runs_when (cond : bool) (body : Out) d :
  Runs body d d -> Runs (when cond body) d d.
Proof. intros H. destruct cond; [exact H | apply Runs_nil; reflexivity]. Qed.

Lemma Runs_scoped (func : Out) d :
  (0 <= d)%Z -> (d + 1 < SIZE_MOD)%Z ->
  Runs func (d + 1) (d + 1) -> Runs (indent_scoped1 func) d d.
Proof.
  intros H0 H1 Hf [f io] Hd. cbn in Hd.
  unfold indent_scoped1, indent_scoped. cbn [fst snd].
  destruct (Hf (indent 1 f, io)) as (b & r & ->).
  { cbn. rewrite Hd. apply Z.mod_small. lia. }
  cbn [fst snd indent setIndentDepth mFile mLinePrefix mSpace].
  unfold unindent. cbn [mIndentDepth].
  destruct (Z.leb_spec 1 (d + 1)); [|lia].
  exists b, r. unfold setIndentDepth. cbn. do 3 f_equal. lia.
Qed.

Lemma Runs_eq (m : Out) d d1 d' : Runs m d d1 -> d1 = d' -> Runs m d d'.
Proof. intros H <-. exact H. Qed.

End RunsFacts.

(** Going through a routine statement by statement. *)
Ltac runs_step :=
  lazymatch goal with
  | |- Runs (steps []) _ _ => apply Runs_nil; first [reflexivity | lia]
  | |- Runs (steps (_ :: _)) _ _ => eapply Runs_cons
  | |- Runs (shl _) _ _ => apply Runs_shl
  | |- Runs out_indent _ _ => apply Runs_indent; lia
  | |- Runs out_unindent ?d _ =>
      eapply Runs_eq; [apply Runs_unindent; lia | first [reflexivity | lia]]
  | |- Runs (when _ _) _ _ => eapply Runs_eq; [apply Runs_when | first [reflexivity | lia]]
  | |- Runs (forEach _ _) _ _ =>
      eapply Runs_eq; [apply Runs_forEach; intros ? ? | first [reflexivity | lia]]
  | |- Runs (indent_scoped1 _) _ _ =>
      eapply Runs_eq; [apply Runs_scoped; [lia | lia |] | first [reflexivity | lia]]
  | |- Runs (match ?x with _ => _ end) _ _ => destruct x
  | |- Runs (if ?x then _ else _) _ _ => destruct x
  end.

Ltac runs := repeat runs_step.

Section StringSets.

Lemma string_lt_trans a b c :
  (a ?= b)%string = Lt -> (b ?= c)%string = Lt -> (a ?= c)%string = Lt.
Proof.
  exact (@StrictOrder_Transitive _ _ OrdersEx.String_as_OT.lt_strorder a b c).
Qed.

Lemma string_lt_irrefl a : (a ?= a)%string <> Lt.
Proof.
  exact (@StrictOrder_Irreflexive _ _ OrdersEx.String_as_OT.lt_strorder a).
Qed.

Lemma string_gt_lt a b : (a ?= b)%string = Gt -> (b ?= a)%string = Lt.
Proof. intros H. rewrite String.compare_antisym, H. reflexivity. Qed.

Lemma set_insert_elem x y s : y ∈ set_insert x s <-> y = x \/ y ∈ s.
Proof.
  induction s as [|z s IH]; cbn [set_insert].
  - set_solver.
  - destruct (x ?= z)%string eqn:E.
    + apply String.compare_eq_iff in E as ->. set_solver.
    + set_solver.
    + rewrite elem_of_cons, IH, elem_of_cons. tauto.
Qed.

Lemma set_insert_sorted x s :
  StronglySorted (fun a b => (a ?= b)%string = Lt) s ->
  StronglySorted (fun a b => (a ?= b)%string = Lt) (set_insert x s).
Proof.
  induction 1 as [|z s Hs IH Hz]; cbn [set_insert].
  - repeat constructor.
  - destruct (x ?= z)%string eqn:E.
    + constructor; assumption.
    + constructor; [constructor; assumption|]. constructor; [exact E|].
      eapply Forall_impl; [exact Hz|]. intros a Ha. cbn beta in *.
      eapply string_lt_trans; eassumption.
    + constructor; [exact IH|]. apply Forall_forall. intros a Ha.
      apply set_insert_elem in Ha as [->|Ha].
      * apply string_gt_lt. exact E.
      * rewrite Forall_forall in Hz. apply Hz. exact Ha.
Qed.

Lemma sorted_NoDup (s : list string) :
  StronglySorted (fun a b => (a ?= b)%string = Lt) s -> NoDup s.
Proof.
  induction 1 as [|z s Hs IH Hz]; constructor; [|exact IH].
  intros Hin. rewrite Forall_forall in Hz.
  apply (string_lt_irrefl z), Hz. exact Hin.
Qed.

Lemma fold_insert_sorted {A} (f : A -> string) (l : list A) (s : list string) :
  StronglySorted (fun a b => (a ?= b)%string = Lt) s ->
  StronglySorted (fun a b => (a ?= b)%string = Lt)
    (fold_left (fun options i => set_insert (f i) options) l s).
Proof.
  revert s. induction l as [|i l IH]; intros s Hs; cbn [fold_left]; [exact Hs|].
  apply IH, set_insert_sorted, Hs.
Qed.

Lemma fold_insert_elem {A} (f : A -> string) (l : list A) (s : list string) o :
  o ∈ fold_left (fun options i => set_insert (f i) options) l s
  <-> o ∈ s \/ exists i, i ∈ l /\ o = f i.
Proof.
  revert s. induction l as [|i l IH]; intros s; cbn [fold_left].
  - split; [tauto | intros [H|(i & Hi & _)]; [exact H | inversion Hi]].
  - rewrite IH, set_insert_elem. split.
    + intros [[->|H]|(j & Hj & ->)]; [right; exists i | tauto | right; exists j];
        (split; [set_solver | reflexivity]).
    + intros [H|(j & Hj & ->)]; [tauto|].
      apply elem_of_cons in Hj as [->|Hj]; [tauto | right; eauto].
Qed.

End StringSets.

Section PathOptions.

Variable getPackageRootOption : FQName -> string.
Variable gIBaseFqName : FQName.
Variable inOrder : gset FQName -> list FQName.

Lemma pathsSection_texts pkg imported forMakefiles st :
  generatePackagePathsSection getPackageRootOption gIBaseFqName inOrder pkg imported
    forMakefiles st
  = Some (shl_all st
            (pathOptionTexts forMakefiles
               (packageRootOptions getPackageRootOption gIBaseFqName inOrder pkg
                  imported))).
Proof.
  unfold generatePackagePathsSection, forEach, pathOptionTexts.
  generalize (packageRootOptions getPackageRootOption gIBaseFqName inOrder pkg imported).
  intros options. revert st. induction options as [|o options IH]; intros st;
    [reflexivity|].
  cbn [map concat steps]. rewrite shl_all_app.
  destruct forMakefiles; cbn [when steps app]; unfold shl at 1 2 3; try unfold shl at 1;
    rewrite IH; reflexivity.
Qed.

(** X15: [generatePackagePathsSection] writes, one after the other and in
    ascending order, [-r], the option and a blank (and a line continuation
    in a makefile) for the root options of the imported packages, of the
    package itself and of IBase, each option exactly once; the routine cannot
    fail, and it leaves the indentation where it was. *)
Theorem package_paths_sorted_unique (packageFQName : FQName)
    (importedPackages : gset FQName) (forMakefiles : bool) (d : Z) :
  (forall x, x ∈ inOrder importedPackages <-> x ∈ importedPackages) ->
  let options :=
    packageRootOptions getPackageRootOption gIBaseFqName inOrder packageFQName
      importedPackages in
  StronglySorted (fun a b => (a ?= b)%string = Lt) options
  /\ NoDup options
  /\ (forall o, o ∈ options <->
        o = getPackageRootOption packageFQName
        \/ o = getPackageRootOption gIBaseFqName
        \/ exists i, i ∈ importedPackages /\ o = getPackageRootOption i)
  /\ (forall st,
        generatePackagePathsSection getPackageRootOption gIBaseFqName inOrder
          packageFQName importedPackages forMakefiles st
        = Some (shl_all st (pathOptionTexts forMakefiles options)))
  /\ Runs (generatePackagePathsSection getPackageRootOption gIBaseFqName inOrder
             packageFQName importedPackages forMakefiles) d d.
Proof.
  intros Hord options.
  assert (Hsorted : StronglySorted (fun a b => (a ?= b)%string = Lt) options).
  { unfold options, packageRootOptions.
    do 2 apply set_insert_sorted. apply fold_insert_sorted. constructor. }
  split; [exact Hsorted|]. split; [apply sorted_NoDup, Hsorted|]. split.
  - intros o. unfold options, packageRootOptions.
    rewrite !set_insert_elem, fold_insert_elem. split.
    + intros [->|[->|[H|(i & Hi & ->)]]]; [tauto | tauto | inversion H |].
      right. right. exists i. split; [apply Hord, Hi | reflexivity].
    + intros [->|[->|(i & Hi & ->)]]; [tauto | tauto |].
      right. right. right. exists i. split; [apply Hord, Hi | reflexivity].
  - split; [intros st; apply pathsSection_texts|].
    unfold generatePackagePathsSection. runs.
Qed.

End PathOptions.

Lemma package_paths_sorted_unique_witness :
  NoDup (packageRootOptions (fun q => package q +:+ ":roots") pkgD elements pkgA
           {[pkgB; pkgA]})
  /\ generatePackagePathsSection (fun q => package q +:+ ":roots") pkgD elements pkgA
       {[pkgB; pkgA]} false (Formatter_ctor None, ∅)
     = Some (shl_all (Formatter_ctor None, ∅)
               ["-r"; "vendor.a:roots"; " "; "-r"; "vendor.b:roots"; " ";
                "-r"; "vendor.d:roots"; " "]).
Proof.
  pose proof (package_paths_sorted_unique (fun q => package q +:+ ":roots") pkgD
                elements pkgA {[pkgB; pkgA]} false 0
                (fun x => elem_of_elements {[pkgB; pkgA]} x)) as H.
  cbv zeta in H. split; [exact (proj1 (proj2 H))|].
  rewrite (proj1 (proj2 (proj2 (proj2 H))) (Formatter_ctor None, ∅)).
  vm_compute. reflexivity.
Defined.

Section MakefileText.

Variable getPackageRootOption : FQName -> string.
Variable convertPackageRootToPath : FQName -> string.
Variable getPackagePath : FQName -> bool -> bool -> string.
Variable FQName_string : FQName -> string.
Variable gIBaseFqName : FQName.
Variable inOrder : gset FQName -> list FQName.
Variable getImportedNames : AST -> list FQName.
Variable sortByFqName : list NamedType -> list NamedType.

Local Abbreviation pathsSection :=
  (generatePackagePathsSection getPackageRootOption gIBaseFqName inOrder).
Local Abbreviation sectionForType :=
  (generateMakefileSectionForType getPackageRootOption convertPackageRootToPath
     getPackagePath FQName_string gIBaseFqName inOrder getImportedNames).
Local Abbreviation makefileSection :=
  (generateMakefileSection getPackageRootOption convertPackageRootToPath
     getPackagePath FQName_string gIBaseFqName inOrder getImportedNames sortByFqName).
Local Abbreviation constantsSection :=
  (generateMakefileSectionForJavaConstants getPackageRootOption
     convertPackageRootToPath getPackagePath FQName_string gIBaseFqName inOrder).
Local Abbreviation mkText :=
  (androidMkText getPackageRootOption convertPackageRootToPath getPackagePath
     FQName_string gIBaseFqName inOrder getImportedNames sortByFqName).

Lemma Runs_pathsSection pkg imported forMakefiles d :
  Runs (pathsSection pkg imported forMakefiles) d d.
Proof. unfold generatePackagePathsSection. runs. Qed.

Lemma Runs_sectionForType c pkg fqName imported typeName d :
  (0 <= d)%Z -> (d + 2 < SIZE_MOD)%Z -> is_Some (parse c fqName) ->
  Runs (sectionForType c pkg fqName imported typeName) d d.
Proof.
  intros H0 H2 [ast Hast]. unfold generateMakefileSectionForType. rewrite Hast.
  repeat first [apply Runs_pathsSection | runs_step].
Qed.

Lemma steps_shl s rest st : steps (shl s :: rest) st = steps rest (operator_shl st s).
Proof. reflexivity. Qed.

Lemma steps_nested l rest st : steps (steps l :: rest) st = steps (l ++ rest) st.
Proof.
  revert st. induction l as [|a l IH]; intros st; [reflexivity|].
  cbn [steps app] in *. destruct (a st) as [st'|]; [apply IH | reflexivity].
Qed.

Lemma sectionForType_unparsed c pkg fqName imported typeName st :
  parse c fqName = None -> sectionForType c pkg fqName imported typeName st = None.
Proof.
  intros Hnone. unfold generateMakefileSectionForType. rewrite Hnone.
  destruct typeName as [t|];
    repeat (rewrite ?steps_shl, ?steps_nested; cbn [app]); reflexivity.
Qed.

Lemma Runs_makefileSection c pkg members imported typesAST d :
  (0 <= d)%Z -> (d + 2 < SIZE_MOD)%Z ->
  (forall m, m ∈ members -> is_Some (parse c m)) ->
  ((exists m, m ∈ members /\ name m = "types") -> is_Some typesAST) ->
  Runs (makefileSection c pkg members imported typesAST) d d.
Proof.
  intros H0 H2 Hparse Htypes. unfold generateMakefileSection.
  apply Runs_forEach. intros m Hm.
  destruct (String.eqb_spec (name m) "types") as [Hn|Hn].
  - destruct Htypes as [ast ->]; [eauto|].
    apply Runs_forEach. intros t _. destruct (isTypeDef t).
    + apply Runs_nil. reflexivity.
    + apply Runs_sectionForType; auto.
  - apply Runs_sectionForType; auto.
Qed.

Lemma Runs_constantsSection pkg members imported d :
  (0 <= d)%Z -> (d + 2 < SIZE_MOD)%Z ->
  Runs (constantsSection pkg members imported) d d.
Proof.
  intros H0 H2. unfold generateMakefileSectionForJavaConstants.
  repeat first [apply Runs_pathsSection | runs_step].
Qed.

(** X16: the three routines that write the build rules of Android.mk leave
    the emitter at the depth they found it and only append to its stream,
    provided two more levels of indentation fit a [size_t], every listed unit
    parses, and the types unit was recorded when the package has one. A rule
    for a unit that does not parse fails its [CHECK], and so does the types
    unit of a package for which none was recorded. *)
Theorem makefile_rules_balanced (c : Coordinator) (packageFQName : FQName)
    (packageInterfaces : list FQName) (importedPackages : gset FQName)
    (typesAST : option AST) (d : Z) :
  (0 <= d)%Z -> (d + 2 < SIZE_MOD)%Z ->
  (forall fqName typeName, is_Some (parse c fqName) ->
     Runs (sectionForType c packageFQName fqName importedPackages typeName) d d)
  /\ (forall fqName typeName st, parse c fqName = None ->
        sectionForType c packageFQName fqName importedPackages typeName st = None)
  /\ ((forall m, m ∈ packageInterfaces -> is_Some (parse c m)) ->
      ((exists m, m ∈ packageInterfaces /\ name m = "types") -> is_Some typesAST) ->
      Runs (makefileSection c packageFQName packageInterfaces importedPackages typesAST)
        d d)
  /\ (forall rest st, typesAST = None ->
        makefileSection c packageFQName (getTypesForPackage packageFQName :: rest)
          importedPackages typesAST st = None)
  /\ Runs (constantsSection packageFQName packageInterfaces importedPackages) d d.
Proof.
  intros H0 H2. split; [|split; [|split; [|split]]].
  - intros fqName typeName Hp. apply Runs_sectionForType; assumption.
  - intros fqName typeName st Hnone. apply sectionForType_unparsed. exact Hnone.
  - intros Hparse Htypes. apply Runs_makefileSection; assumption.
  - intros rest st ->. reflexivity.
  - apply Runs_constantsSection; assumption.
Qed.

Lemma gather_parses c members g g' :
  gather c members g = Ok g' -> forall m, m ∈ members -> is_Some (parse c m).
Proof.
  revert g. induction members as [|x rest IH]; intros g; cbn [gather].
  - intros _ m Hm. inversion Hm.
  - destruct (parse c x) as [ast|] eqn:Hx; [|discriminate].
    intros Hg m Hm. apply elem_of_cons in Hm as [->|Hm]; [eauto | eapply IH; eauto].
Qed.

Lemma Runs_mkText pkg hidl_gen c members imported typesAST compatible constants d :
  (forall m, m ∈ members -> is_Some (parse c m)) ->
  ((exists m, m ∈ members /\ name m = "types") -> is_Some typesAST) ->
  (0 <= d)%Z -> (d + 2 < SIZE_MOD)%Z ->
  Runs (mkText pkg hidl_gen c members imported typesAST compatible constants) d d.
Proof.
  intros Hparse Htypes H0 H2. unfold androidMkText.
  repeat first [ apply Runs_makefileSection; assumption
               | apply Runs_constantsSection; assumption
               | runs_step ].
Qed.

Lemma mkText_framed pkg hidl_gen c members imported typesAST compatible constants
    file io :
  (forall m, m ∈ members -> is_Some (parse c m)) ->
  ((exists m, m ∈ members /\ name m = "types") -> is_Some typesAST) ->
  exists body,
    mkText pkg hidl_gen c members imported typesAST compatible constants
      (Formatter_ctor file, io)
    = Some (Formatter_ctor file,
            append_bytes (androidMkBanner +:+ body +:+ androidMkClosing)
              (mFile (Formatter_ctor file)) io).
Proof.
  intros Hparse Htypes. unfold androidMkText.
  match goal with
  | |- exists body, steps [shl ?h1; shl ?h2; ?A; ?B; shl ?f1; shl ?f2] ?st = _ =>
      assert (Hmid : Runs (steps [A; B]) 0 0);
      [ assert (H0 : (0 <= 0)%Z) by lia;
        assert (H2 : (0 + 2 < SIZE_MOD)%Z) by reflexivity;
        repeat first [ apply Runs_makefileSection; assumption
                     | apply Runs_constantsSection; assumption
                     | runs_step ]
      | assert (Hsplit : forall st',
                  steps [shl h1; shl h2; A; B; shl f1; shl f2] st'
                  = match steps [A; B] (shl_all st' [h1; h2]) with
                    | Some st'' => Some (shl_all st'' [f1; f2])
                    | None => None
                    end);
        [ intros st';
          change (steps [shl h1; shl h2; A; B; shl f1; shl f2] st')
            with (steps (map shl [h1; h2] ++ [A; B] ++ map shl [f1; f2]) st');
          rewrite steps_app, steps_shl_all, steps_app;
          destruct (steps [A; B] (shl_all st' [h1; h2])); [apply steps_shl_all | reflexivity]
        | rewrite Hsplit; clear Hsplit ] ]
  end.
  unfold shl_all at 1. cbn [fold_left].
  rewrite !shl_plain by reflexivity.
  match goal with
  | |- context [steps ?m ?st] => destruct (Hmid st eq_refl) as (b & r & ->)
  end.
  exists (c_str r). unfold shl_all. cbn [fold_left fst snd mFile mLinePrefix mSpace].
  rewrite !shl_plain by reflexivity.
  unfold fputs. rewrite !append_bytes_append_bytes. cbn [mFile setAtStartOfLine].
  unfold androidMkBanner, androidMkClosing. rewrite !append_assoc. reflexivity.
Qed.

(** X17: once the first loop of [generateMakefileForPackage] has gone
    through, the text of Android.mk is written to the end whichever parts it
    has: no [CHECK] and no [assert] fails, the emitter is handed back at the
    depth it came with, and nothing but the emitter's stream changes. On an
    emitter as the constructor leaves it, what is put at the end of the
    stream begins with the banner and the [LOCAL_PATH] line and ends with
    the line that includes the makefiles below. *)
Theorem android_mk_is_written (packageFQName : FQName) (hidl_gen : string)
    (c : Coordinator) (packageInterfaces : list FQName) (g : Gathered)
    (packageIsJavaCompatible haveJavaConstants : bool) (d : Z) :
  gather c packageInterfaces (mkGathered None ∅ []) = Ok g ->
  (0 <= d)%Z -> (d + 2 < SIZE_MOD)%Z ->
  Runs (mkText packageFQName hidl_gen c packageInterfaces (importedPackages g)
          (typesAST g) packageIsJavaCompatible haveJavaConstants) d d
  /\ forall file io, exists body,
       mkText packageFQName hidl_gen c packageInterfaces (importedPackages g)
         (typesAST g) packageIsJavaCompatible haveJavaConstants (Formatter_ctor file, io)
       = Some (Formatter_ctor file,
               append_bytes (androidMkBanner +:+ body +:+ androidMkClosing)
                 (mFile (Formatter_ctor file)) io).
Proof.
  intros Hg H0 H2.
  assert (Hparse := gather_parses _ _ _ _ Hg).
  assert (Htypes : (exists m, m ∈ packageInterfaces /\ name m = "types") ->
                   is_Some (typesAST g)).
  { intros H. apply (gather_types _ _ _ _ Hg). right. exact H. }
  split.
  - apply Runs_mkText; assumption.
  - intros file io. apply mkText_framed; assumption.
Qed.

End MakefileText.

Section SoongText.

Variable getPackageRootOption : FQName -> string.
Variable FQName_string : FQName -> string.
Variable getInterfaceBaseName : FQName -> string.
Variable gIBaseFqName : FQName.
Variable gIBasePackageFqName : FQName.
Variable gIManagerPackageFqName : FQName.
Variable inOrder : gset FQName -> list FQName.
Variable getFormatter :
  Coordinator -> string -> FQName -> Location -> string -> Streams -> Formatter * Streams.
Variable Formatter_isValid : Formatter -> bool.

Local Abbreviation bpImplText :=
  (writeAndroidBpImpl FQName_string getInterfaceBaseName gIBasePackageFqName
     gIManagerPackageFqName inOrder).
Local Abbreviation bpImpl :=
  (generateAndroidBpImplForPackage FQName_string getInterfaceBaseName
     gIBasePackageFqName gIManagerPackageFqName inOrder getFormatter Formatter_isValid).
Local Abbreviation genSection :=
  (generateAndroidBpGenSection getPackageRootOption FQName_string gIBaseFqName inOrder).

Lemma gatherImported_fails c members s m :
  m ∈ members -> parse c m = None -> gatherImported c members s = Err UNKNOWN_ERROR.
Proof.
  intros Hm Hnone. revert s. induction members as [|x rest IH]; intros s.
  - inversion Hm.
  - cbn [gatherImported]. destruct (parse c x) as [ast|] eqn:Hx; [|reflexivity].
    apply IH. apply elem_of_cons in Hm as [->|Hm]; [congruence | exact Hm].
Qed.

Lemma gatherImported_returns c members s :
  (forall m, m ∈ members -> is_Some (parse c m)) ->
  exists s', gatherImported c members s = Ok s'.
Proof.
  revert s. induction members as [|x rest IH]; intros s Hall; cbn [gatherImported].
  - eauto.
  - destruct (Hall x) as [ast ->]; [left|]. apply IH. intros m Hm. apply Hall. right.
    exact Hm.
Qed.

Lemma Runs_bpImplText pkg members imported d :
  (0 <= d)%Z -> (d + 2 < SIZE_MOD)%Z -> Runs (bpImplText pkg members imported) d d.
Proof. intros H0 H2. unfold writeAndroidBpImpl. runs. Qed.

(** X18: the Soong boilerplate backend hands back the Coordinator's status
    when the package cannot be enumerated and UNKNOWN_ERROR when a member
    does not parse, without opening a sink. Otherwise it opens Android.bp,
    and on a valid emitter its nested indentation scopes all close: no
    [assert] fails, the status is OK and only that emitter's stream has
    grown, as long as two more levels fit a [size_t]. *)
Theorem androidbp_impl_outcomes (packageFQName : FQName) (hidl_gen : string)
    (c : Coordinator) (outputPath : string) (io : Streams) :
  (packages c !! packageFQName = None ->
   bpImpl packageFQName hidl_gen c outputPath io = (Return IO_ERROR, io))
  /\ (forall members m, packages c !! packageFQName = Some members ->
        m ∈ members -> parse c m = None ->
        bpImpl packageFQName hidl_gen c outputPath io = (Return UNKNOWN_ERROR, io))
  /\ (forall members, packages c !! packageFQName = Some members ->
        (forall m, m ∈ members -> is_Some (parse c m)) ->
        let out := fst (getFormatter c outputPath packageFQName DIRECT "Android.bp" io) in
        let io1 := snd (getFormatter c outputPath packageFQName DIRECT "Android.bp" io) in
        (Formatter_isValid out = false ->
         bpImpl packageFQName hidl_gen c outputPath io = (Return UNKNOWN_ERROR, io1))
        /\ (Formatter_isValid out = true ->
            (0 <= mIndentDepth out)%Z -> (mIndentDepth out + 2 < SIZE_MOD)%Z ->
            exists r, bpImpl packageFQName hidl_gen c outputPath io
                      = (Return OK, fputs r (mFile out) io1))).
Proof.
  unfold generateAndroidBpImplForPackage. rewrite enumerate_spec.
  split; [|split].
  - intros ->. reflexivity.
  - intros members m -> Hm Hnone. rewrite (gatherImported_fails c members _ m Hm Hnone).
    reflexivity.
  - intros members -> Hall.
    destruct (gatherImported_returns c members ∅ Hall) as [imported ->].
    destruct (getFormatter c outputPath packageFQName DIRECT "Android.bp" io)
      as [out io1]. cbn [fst snd]. split.
    + intros ->. reflexivity.
    + intros -> H0 H2. cbn [negb].
      destruct (Runs_bpImplText packageFQName members imported (mIndentDepth out) H0 H2
                  (out, io1) eq_refl) as (b & r & ->).
      exists r. reflexivity.
Qed.

(** X19: a [genrule] section of Android.bp is an opening part, the callback
    that lists the outputs called once for every unit in order, and a
    closing part. Started at depth [d], with two more levels fitting a
    [size_t], the opening part ends two levels deeper, which is where the
    callback is called, and the closing part comes back to depth [d]; so the
    section is balanced whenever the callback is. *)
Theorem androidbp_gen_section_balanced (packageFQName : FQName)
    (hidl_gen halFilegroupName genName language : string)
    (packageInterfaces : list FQName) (importedPackages : gset FQName) (d : Z) :
  (0 <= d)%Z -> (d + 2 < SIZE_MOD)%Z ->
  exists opening closing : Out,
    Runs opening d (d + 2)
    /\ Runs closing (d + 2) d
    /\ (forall outputFn st,
          genSection packageFQName hidl_gen halFilegroupName genName language
            packageInterfaces importedPackages outputFn st
          = steps [opening; forEach packageInterfaces outputFn; closing] st)
    /\ (forall outputFn,
          (forall fqName, fqName ∈ packageInterfaces ->
             Runs (outputFn fqName) (d + 2) (d + 2)) ->
          Runs (genSection packageFQName hidl_gen halFilegroupName genName language
                  packageInterfaces importedPackages outputFn) d d).
Proof.
  intros H0 H2.
  exists (steps [
    shl ("genrule {" +:+ nl);
    out_indent;
    shl ("name: " +:+ dquote); shl genName; shl (dquote +:+ "," +:+ nl);
    shl ("tools: [" +:+ dquote); shl (c_str hidl_gen); shl (dquote +:+ "]," +:+ nl);
    shl ("cmd: " +:+ dquote +:+ "$(location "); shl (c_str hidl_gen);
    shl ") -o $(genDir)";
    shl " -L"; shl (c_str language); shl " ";
    generatePackagePathsSection getPackageRootOption gIBaseFqName inOrder packageFQName
      importedPackages false;
    shl (FQName_string packageFQName); shl (dquote +:+ "," +:+ nl);
    shl ("srcs: [" +:+ nl);
    out_indent;
    shl (dquote +:+ ":"); shl halFilegroupName; shl (dquote +:+ "," +:+ nl);
    out_unindent;
    shl ("]," +:+ nl);
    shl ("out: [" +:+ nl);
    out_indent ]),
    (steps [ out_unindent; shl ("]," +:+ nl); out_unindent; shl ("}" +:+ nl +:+ nl) ]).
  split; [|split; [|split]].
  - unfold generatePackagePathsSection. runs.
  - runs.
  - intros outputFn st. unfold generateAndroidBpGenSection.
    match goal with
    | |- _ = steps [steps ?l1; ?F; steps ?l2] st =>
        change (steps (l1 ++ F :: l2) st = steps [steps l1; F; steps l2] st);
        rewrite (steps_nested l1 [F; steps l2] st), !steps_app;
        destruct (steps l1 st) as [st1|]; [|reflexivity];
        change (steps (F :: l2) st1)
          with (match F st1 with Some st' => steps l2 st' | None => None end);
        change (steps [F; steps l2] st1)
          with (match F st1 with Some st' => steps [steps l2] st' | None => None end);
        destruct (F st1) as [st2|]; [|reflexivity];
        rewrite steps_nested, app_nil_r; reflexivity
    end.
  - intros outputFn Hfn.
    unfold generateAndroidBpGenSection, generatePackagePathsSection.
    repeat first
      [ match goal with
        | |- Runs (forEach _ outputFn) ?x _ =>
            replace x with (d + 2)%Z by lia;
            eapply Runs_eq; [apply Runs_forEach; exact Hfn | reflexivity]
        end
      | runs_step ].
Qed.

End SoongText.

(** * The export-header and hash backends *)

Section ExportHeader.

Variable getPackageRootOption : FQName -> string.
Variable FQName_string : FQName -> string.
Variable javaPackage : FQName -> string.
Variable tokenName : FQName -> string.
Variable Uppercase : string -> string.
Variable emitExportedHeader : string -> bool -> Out.
Variable getFormatter :
  Coordinator -> string -> FQName -> Location -> string -> Streams -> Formatter * Streams.
Variable Formatter_isValid : Formatter -> bool.

Local Abbreviation headerText :=
  (writeExportHeader getPackageRootOption FQName_string javaPackage tokenName Uppercase
     emitExportedHeader).
Local Abbreviation exportHeader :=
  (generateExportHeaderForPackage getPackageRootOption FQName_string javaPackage
     tokenName Uppercase emitExportedHeader getFormatter Formatter_isValid).

Lemma gatherExported_fails c members acc m :
  m ∈ members -> parse c m = None -> gatherExported c members acc = Err UNKNOWN_ERROR.
Proof.
  intros Hm Hnone. revert acc. induction members as [|x rest IH]; intros acc.
  - inversion Hm.
  - cbn [gatherExported]. destruct (parse c x) as [ast|] eqn:Hx; [|reflexivity].
    apply IH. apply elem_of_cons in Hm as [->|Hm]; [congruence | exact Hm].
Qed.

Lemma gather_gatherExported c members g g' :
  gather c members g = Ok g' ->
  gatherExported c members (gatheredTypes g) = Ok (gatheredTypes g').
Proof.
  revert g. induction members as [|x rest IH]; intros g; cbn [gather gatherExported].
  - intros [= <-]. reflexivity.
  - destruct (parse c x) as [ast|]; [|discriminate].
    intros Hg. apply IH in Hg. exact Hg.
Qed.

Lemma Runs_headerText forJava pkg exported d :
  (0 <= d)%Z -> (d + 1 < SIZE_MOD)%Z ->
  (forall type, type ∈ exported ->
     Runs (emitExportedHeader type forJava)
       (if forJava then d + 1 else d)%Z (if forJava then d + 1 else d)%Z) ->
  Runs (headerText forJava pkg exported) d d.
Proof.
  intros H0 H1 Hemit. unfold writeExportHeader. destruct forJava;
    repeat first [ apply Runs_forEach; exact Hemit | runs_step ].
Qed.

(** X20: an export-header request that passed [main]'s checks never fails
    the [CHECK] on its name. It hands back the Coordinator's status when the
    package cannot be enumerated and UNKNOWN_ERROR when a member does not
    parse; when the units export nothing, which is when the makefile backend
    has no Java constants, it returns OK; in all three cases no sink is
    opened. With exported types it opens the sink, and on a valid emitter it
    returns OK having only appended to that emitter's stream, provided every
    exported type writes a balanced text. *)
Theorem export_header_outcomes (forJava : bool) (packageFQName : FQName)
    (hidl_gen language : string) (c : Coordinator) (outputPath : string)
    (io : Streams) :
  isValid packageFQName = true -> validateIsPackage packageFQName language = true ->
  let run := exportHeader forJava packageFQName hidl_gen c outputPath io in
  let opened :=
    getFormatter c outputPath packageFQName (if forJava then GEN_SANITIZED else DIRECT)
      (if forJava then "Constants.java" else "") io in
  (packages c !! packageFQName = None -> run = (Return IO_ERROR, io))
  /\ (forall members m, packages c !! packageFQName = Some members ->
        m ∈ members -> parse c m = None -> run = (Return UNKNOWN_ERROR, io))
  /\ (forall members g, packages c !! packageFQName = Some members ->
        gather c members (mkGathered None ∅ []) = Ok g ->
        (gatheredTypes g = [] -> run = (Return OK, io))
        /\ (gatheredTypes g <> [] -> Formatter_isValid (fst opened) = false ->
            run = (Return UNKNOWN_ERROR, snd opened))
        /\ (gatheredTypes g <> [] -> Formatter_isValid (fst opened) = true ->
            (0 <= mIndentDepth (fst opened))%Z ->
            (mIndentDepth (fst opened) + 1 < SIZE_MOD)%Z ->
            (forall type, type ∈ gatheredTypes g ->
               Runs (emitExportedHeader type forJava)
                 (if forJava then mIndentDepth (fst opened) + 1
                  else mIndentDepth (fst opened))%Z
                 (if forJava then mIndentDepth (fst opened) + 1
                  else mIndentDepth (fst opened))%Z) ->
            exists r, run = (Return OK, fputs r (mFile (fst opened)) (snd opened)))).
Proof.
  intros Hv Hok run opened. subst run opened.
  assert (Hentry : negb (isValid packageFQName && negb (empty (package packageFQName))
                         && negb (empty (version packageFQName))
                         && empty (name packageFQName)) = false).
  { unfold validateIsPackage in Hok. rewrite Hv.
    destruct (empty (package packageFQName)); [discriminate|].
    destruct (empty (version packageFQName)); [discriminate|].
    destruct (empty (name packageFQName)); [reflexivity | discriminate]. }
  unfold generateExportHeaderForPackage. rewrite Hentry, enumerate_spec.
  split; [|split].
  - intros ->. reflexivity.
  - intros members m -> Hm Hnone. rewrite (gatherExported_fails c members _ m Hm Hnone).
    reflexivity.
  - intros members g -> Hg. apply gather_gatherExported in Hg. cbn [gatheredTypes] in Hg.
    rewrite Hg. split; [|split].
    + intros ->. reflexivity.
    + intros Hne Hbad. rewrite bool_decide_eq_false_2 by exact Hne.
      destruct (getFormatter _ _ _ _ _ _) as [out io1]. cbn [fst snd] in *.
      rewrite Hbad. reflexivity.
    + intros Hne Hgood H0 H1 Hemit. rewrite bool_decide_eq_false_2 by exact Hne.
      destruct (getFormatter _ _ _ _ _ _) as [out io1]. cbn [fst snd] in *.
      rewrite Hgood. cbn [negb].
      destruct (Runs_headerText forJava packageFQName (gatheredTypes g)
                  (mIndentDepth out) H0 H1 Hemit (out, io1) eq_refl) as (b & r & ->).
      exists r. reflexivity.
Qed.

End ExportHeader.

Section HashOutput.

Variable FQName_string : FQName -> string.
Variable parseNoHash : Coordinator -> FQName -> option AST.
Variable hexString : AST -> string.

Local Abbreviation hashes := (printHashes FQName_string parseNoHash hexString).
Local Abbreviation hashOutput := (generateHashOutput FQName_string parseNoHash hexString).
Local Abbreviation line := (hashLine FQName_string parseNoHash hexString).

Lemma printHashes_spec units c io :
  (forall fp, fp <> stdout -> snd (hashes units c io) !! fp = io !! fp)
  /\ exists done,
       contents (snd (hashes units c io)) stdout
       = contents io stdout +:+ joined (map (line c) done)
       /\ Forall (fun m => is_Some (parseNoHash c m)) done
       /\ ((fst (hashes units c io) = OK /\ done = units)
           \/ (fst (hashes units c io) = UNKNOWN_ERROR
               /\ exists m post, units = done ++ m :: post /\ parseNoHash c m = None)).
Proof.
  revert io. induction units as [|m rest IH]; intros io; cbn [printHashes].
  - split; [reflexivity|]. exists []. cbn. rewrite append_nil_r. repeat split; auto.
  - destruct (parseNoHash c m) as [ast|] eqn:Hm.
    + destruct (IH (append_bytes (c_str (hexString ast) +:+ " "
                                  +:+ c_str (FQName_string m) +:+ nl) stdout io))
        as (Hother & done & Hout & Hdone & Hcase).
      split.
      * intros fp Hfp. rewrite (Hother fp Hfp). apply lookup_append_bytes_ne. exact Hfp.
      * exists (m :: done). split; [|split].
        -- rewrite Hout, contents_append_bytes, append_assoc. cbn [map joined foldr].
           unfold hashLine at 2. rewrite Hm. reflexivity.
        -- constructor; [eauto | exact Hdone].
        -- destruct Hcase as [[-> ->]|(-> & x & post & -> & Hx)]; [left; tauto|].
           right. split; [reflexivity|]. exists x, post. tauto.
    + split; [reflexivity|]. exists []. cbn. rewrite append_nil_r.
      split; [reflexivity|]. split; [constructor|]. right. split; [reflexivity|].
      exists m, rest. tauto.
Qed.

(** X21: the hash backend prints one line, digest and name, for every unit
    of the request in order, a fully qualified name being its own single
    unit, and touches no stream but [stdout]. It stops at the first unit that
    does not parse with UNKNOWN_ERROR, the lines of the units before it
    already printed, and returns OK exactly when every unit was printed; a
    package that cannot be enumerated prints nothing. *)
Theorem hash_prints_in_order (fqName : FQName) (hidl_gen : string) (c : Coordinator)
    (outputDir : string) (io : Streams) :
  let run := hashOutput fqName hidl_gen c outputDir io in
  let requested :=
    if isFullyQualified fqName then Some [fqName] else packages c !! fqName in
  (forall fp, fp <> stdout -> snd run !! fp = io !! fp)
  /\ match requested with
     | None => run = (IO_ERROR, io)
     | Some units =>
         exists done,
           contents (snd run) stdout
           = contents io stdout +:+ joined (map (line c) done)
           /\ Forall (fun m => is_Some (parseNoHash c m)) done
           /\ ((fst run = OK /\ done = units)
               \/ (fst run = UNKNOWN_ERROR
                   /\ exists m post, units = done ++ m :: post
                                     /\ parseNoHash c m = None))
     end.
Proof.
  cbv zeta. unfold generateHashOutput.
  destruct (isFullyQualified fqName).
  - apply printHashes_spec.
  - rewrite enumerate_spec. destruct (packages c !! fqName) as [members|].
    + apply printHashes_spec.
    + split; reflexivity.
Qed.

End HashOutput.

(** * The command line *)

Section CommandLine.

Lemma string_back_None s : string_back s = None <-> s = "".
Proof.
  split; [|intros ->; reflexivity].
  induction s as [|c s IH]; [reflexivity|]. cbn [string_back].
  destruct s; [discriminate|]. intros H. apply IH in H. discriminate H.
Qed.

Lemma string_back_app s c : string_back (s +:+ String c "") = Some c.
Proof.
  induction s as [|a s IH]; [reflexivity|].
  change (String a s +:+ String c "") with (String a (s +:+ String c "")).
  cbn [string_back]. destruct (s +:+ String c "") eqn:E; [|exact IH].
  destruct s; discriminate E.
Qed.

Lemma withSlash_spec p :
  match withSlash p with
  | usage_exit => False
  | undefined => p = ""
  | goes_on q =>
      string_back q = Some "/"%char
      /\ (q = p \/ (q = p +:+ "/" /\ string_back p <> Some "/"%char))
      /\ withSlash q = goes_on q
  end.
Proof.
  unfold withSlash. destruct (string_back p) as [c|] eqn:Hb.
  - destruct (decide (c = "/"%char)) as [->|Hc].
    + rewrite Hb. destruct (decide ("/"%char = "/"%char)); [|contradiction]. tauto.
    + rewrite (string_back_app p "/").
      destruct (decide ("/"%char = "/"%char)); [|contradiction].
      split; [reflexivity|]. split; [|reflexivity]. right. split; [reflexivity|].
      congruence.
  - apply string_back_None. exact Hb.
Qed.

(** X22: what [main] makes of the output path. It exits with the usage text
    exactly when a directory or file backend got no [-o]; a source-tree
    backend falls back to the root path, and only when that is empty too the
    [back()] of an empty string is taken. Otherwise a directory or
    source-tree backend goes on with the given path, a slash appended unless
    it ends in one, so that the path ends in a slash and preparing it again
    changes nothing; a file backend goes on with the path as given and a
    backend without output with the empty path. *)
Theorem output_path_prepared (mode : OutputMode) (rootPath outputPath : string) :
  let given := if empty outputPath then rootPath else outputPath in
  (prepareOutputPath mode rootPath outputPath = usage_exit <->
   outputPath = "" /\ (mode = NEEDS_DIR \/ mode = NEEDS_FILE))
  /\ (prepareOutputPath mode rootPath outputPath = undefined <->
      mode = NEEDS_SRC /\ outputPath = "" /\ rootPath = "")
  /\ (forall p, prepareOutputPath mode rootPath outputPath = goes_on p ->
      match mode with
      | NEEDS_DIR | NEEDS_SRC =>
          string_back p = Some "/"%char
          /\ (p = given \/ (p = given +:+ "/" /\ string_back given <> Some "/"%char))
          /\ prepareOutputPath mode rootPath p = goes_on p
      | NEEDS_FILE => p = outputPath
      | NOT_NEEDED => p = ""
      end).
Proof.
  cbv zeta. unfold prepareOutputPath.
  destruct mode.
  - (* NEEDS_DIR *)
    unfold empty. destruct (decide (outputPath = "")) as [->|Hne].
    + split; [tauto|]. split; [split; [discriminate | intros (H & _); discriminate H]|].
      discriminate.
    + pose proof (withSlash_spec outputPath) as Hs.
      destruct (withSlash outputPath) as [| |q] eqn:Hw; [contradiction | contradiction |].
      split; [split; [discriminate | tauto]|].
      split; [split; [discriminate | intros (H & _); discriminate H]|].
      intros p [= <-]. destruct Hs as (Hb & Hq & Hagain).
      split; [exact Hb|]. split; [exact Hq|].
      destruct (decide (q = "")) as [->|_]; [discriminate Hb | exact Hagain].
  - (* NEEDS_FILE *)
    unfold empty. destruct (decide (outputPath = "")) as [->|Hne].
    + split; [tauto|]. split; [split; [discriminate | intros (H & _); discriminate H]|].
      discriminate.
    + split; [split; [discriminate | tauto]|].
      split; [split; [discriminate | intros (H & _); discriminate H]|].
      intros p [= <-]. reflexivity.
  - (* NEEDS_SRC *)
    assert (Hsrc : forall given,
              (withSlash given = undefined <-> given = "")
              /\ forall p, withSlash given = goes_on p ->
                   string_back p = Some "/"%char
                   /\ (p = given \/ (p = given +:+ "/"
                                     /\ string_back given <> Some "/"%char))
                   /\ withSlash (if empty p then rootPath else p) = goes_on p).
    { intros given. pose proof (withSlash_spec given) as Hs.
      destruct (withSlash given) as [| |q] eqn:Hw; [contradiction | |].
      - split; [tauto | discriminate].
      - split.
        + split; [discriminate|]. intros ->. discriminate Hw.
        + intros p [= <-]. destruct Hs as (Hb & Hq & Hagain).
          split; [exact Hb|]. split; [exact Hq|].
          unfold empty.
          destruct (decide (q = "")) as [->|_]; [discriminate Hb | exact Hagain]. }
    split; [split; [|intros (_ & [H|H]); discriminate H]|].
    { unfold empty. destruct (decide (outputPath = "")) as [->|Hne]; intros H.
      - pose proof (withSlash_spec rootPath) as Hs. rewrite H in Hs. contradiction.
      - pose proof (withSlash_spec outputPath) as Hs. rewrite H in Hs. contradiction. }
    split.
    + unfold empty. destruct (decide (outputPath = "")) as [->|Hne].
      * rewrite (proj1 (Hsrc rootPath)). tauto.
      * rewrite (proj1 (Hsrc outputPath)). tauto.
    + intros p. apply (proj2 (Hsrc _)).
  - (* NOT_NEEDED *)
    split; [split; [discriminate | intros (_ & [H|H]); discriminate H]|].
    split; [split; [discriminate | intros (H & _); discriminate H]|].
    intros p [= <-]. reflexivity.
Qed.

Lemma prefix_empty s : String.prefix "" s = true.
Proof. destruct s; reflexivity. Qed.

Lemma index_colon_cons c s :
  index 0 ":" (String c s)
  = if ascii_dec ":" c then Some 0
    else match index 0 ":" s with Some n => Some (S n) | None => None end.
Proof.
  cbn [index String.prefix]. destruct (ascii_dec ":" c); [|reflexivity].
  rewrite prefix_empty. reflexivity.
Qed.

Lemma find_colon_app root rest :
  find root ":" 0 = None -> find (root +:+ ":" +:+ rest) ":" 0 = Some (String.length root).
Proof.
  unfold find. induction root as [|c root IH].
  - intros _. change ("" +:+ ":" +:+ rest) with (String ":" rest).
    rewrite index_colon_cons. reflexivity.
  - change (String c root +:+ ":" +:+ rest) with (String c (root +:+ ":" +:+ rest)).
    rewrite !index_colon_cons.
    destruct (ascii_dec ":" c) as [_|Hc]; [discriminate|].
    destruct (index 0 ":" root) eqn:E; [discriminate|]. intros _.
    rewrite IH by reflexivity. reflexivity.
Qed.

Lemma find_colon_some root rest : find (root +:+ ":" +:+ rest) ":" 0 <> None.
Proof.
  unfold find. induction root as [|c root IH].
  - change ("" +:+ ":" +:+ rest) with (String ":" rest).
    rewrite index_colon_cons. discriminate.
  - change (String c root +:+ ":" +:+ rest) with (String c (root +:+ ":" +:+ rest)).
    rewrite index_colon_cons.
    destruct (ascii_dec ":" c) as [_|Hc]; [discriminate|].
    destruct (index 0 ":" (root +:+ ":" +:+ rest)); [discriminate | contradiction].
Qed.

Lemma substring_app_l s t : substring 0 (String.length s) (s +:+ t) = s.
Proof.
  induction s as [|c s IH]; cbn.
  - destruct t; reflexivity.
  - rewrite IH. reflexivity.
Qed.

Lemma drop_app_l s t : drop (String.length s) (s +:+ t) = t.
Proof. induction s as [|c s IH]; [reflexivity | exact IH]. Qed.

Lemma split_at_colon root rest :
  find root ":" 0 = None ->
  find (root +:+ ":" +:+ rest) ":" 0 = Some (String.length root)
  /\ substr (root +:+ ":" +:+ rest) 0 (String.length root) = root
  /\ substr_from (root +:+ ":" +:+ rest) (String.length root + 1) = rest.
Proof.
  intros Hroot. split; [exact (find_colon_app root rest Hroot)|]. split.
  - unfold substr. apply substring_app_l.
  - rewrite substr_from_drop.
    replace (String.length root + 1) with (String.length (root +:+ ":")).
    + rewrite <- append_assoc, drop_app_l. reflexivity.
    + rewrite append_length. reflexivity.
Qed.

Lemma colon_splits val i :
  find val ":" 0 = Some i ->
  find (substr val 0 i) ":" 0 = None
  /\ val = substr val 0 i +:+ ":" +:+ substr_from val (i + 1).
Proof.
  unfold find, substr. rewrite substr_from_drop. revert i.
  induction val as [|c val IH]; intros i; [discriminate|].
  rewrite index_colon_cons. destruct (ascii_dec ":" c) as [<-|Hc].
  - intros [= <-]. split; reflexivity.
  - destruct (index 0 ":" val) as [j|] eqn:E; [|discriminate].
    intros [= <-]. destruct (IH j eq_refl) as (Hroot & Hval).
    cbn [substring Nat.add drop]. rewrite index_colon_cons.
    destruct (ascii_dec ":" c) as [|_]; [contradiction|].
    rewrite Hroot. split; [reflexivity|].
    change (String c (substring 0 j val) +:+ ":" +:+ drop (j + 1) val)
      with (String c (substring 0 j val +:+ ":" +:+ drop (j + 1) val)).
    rewrite <- Hval. reflexivity.
Qed.

Variable Roots : Type.
Variable resolve : string -> option string.
Variable addPackagePath : string -> string -> Roots -> status_t * Roots.

(** X23: the [-r] option is split at the first colon of its value, and the
    root is registered with the Coordinator. For a value [root:rest] whose
    root holds no colon, the Coordinator is asked to add exactly that root
    with the real path of the rest, whatever colons the rest holds, and the
    option loop goes on, with the Coordinator as that call leaves it, exactly
    when the call returns OK. The process exits with 1 when the call returns
    an error, and when the value holds no colon, in which case nothing is
    registered; it never exits with another code. *)
Theorem package_root_option_split (optarg : string) (coordinator : Roots) :
  let val := c_str optarg in
  let run := main_option_r resolve addPackagePath optarg coordinator in
  (forall root rest, find root ":" 0 = None -> val = root +:+ ":" +:+ rest ->
     run = match addPackagePath root (realpath resolve rest) coordinator with
           | (OK, coordinator') => option_break coordinator'
           | (_, _) => option_exit 1
           end)
  /\ ((forall root rest, val <> root +:+ ":" +:+ rest) -> run = option_exit 1)
  /\ (forall coordinator', run = option_break coordinator' ->
        exists root rest,
          find root ":" 0 = None /\ val = root +:+ ":" +:+ rest
          /\ addPackagePath root (realpath resolve rest) coordinator
             = (OK, coordinator'))
  /\ (forall code, run = option_exit code ->
        code = 1%Z
        /\ ((forall root rest, val <> root +:+ ":" +:+ rest)
            \/ exists root rest,
                 find root ":" 0 = None /\ val = root +:+ ":" +:+ rest
                 /\ fst (addPackagePath root (realpath resolve rest) coordinator)
                    <> OK)).
Proof.
  intros val run. subst run. unfold main_option_r. fold val. cbv zeta.
  split; [|split; [|split]].
  - intros root rest Hroot Hval. rewrite Hval.
    destruct (split_at_colon root rest Hroot) as (-> & -> & ->). reflexivity.
  - intros Hnone. destruct (find val ":" 0) as [i|] eqn:Hi; [|reflexivity].
    exfalso. destruct (colon_splits val i Hi) as (_ & Hval). exact (Hnone _ _ Hval).
  - intros coordinator'. destruct (find val ":" 0) as [i|] eqn:Hi; [|discriminate].
    destruct (colon_splits val i Hi) as (Hroot & Hval).
    destruct (addPackagePath _ _ coordinator) as [err c'] eqn:Hadd.
    destruct err; try discriminate. intros [= <-].
    exists (substr val 0 i), (substr_from val (i + 1)). auto.
  - intros code. destruct (find val ":" 0) as [i|] eqn:Hi.
    + destruct (colon_splits val i Hi) as (Hroot & Hval).
      destruct (addPackagePath _ _ coordinator) as [err c'] eqn:Hadd.
      destruct err; try discriminate; intros [= <-]; (split; [reflexivity|]);
        right; exists (substr val 0 i), (substr_from val (i + 1));
        rewrite Hadd; (split; [exact Hroot | split; [exact Hval | discriminate]]).
    + intros [= <-]. split; [reflexivity|]. left. intros root rest Hval.
      rewrite Hval in Hi. exact (find_colon_some root rest Hi).
Qed.

End CommandLine.

(** * The text backends on the sample packages *)

Lemma makefile_rules_balanced_witness :
  Runs (generateMakefileSectionForJavaConstants sampleRootOption (fun _ => "vendor/")
          samplePath sampleString pkgD elements pkgFoo [fooIFoo] ∅) 0 0.
Proof.
  assert (H2 : (0 + 2 < SIZE_MOD)%Z) by reflexivity.
  exact (proj2 (proj2 (proj2 (proj2
           (makefile_rules_balanced sampleRootOption (fun _ => "vendor/") samplePath
              sampleString pkgD elements (fun _ => []) (fun l => l) threeUnits pkgFoo
              [fooIFoo] ∅ None 0 (Z.le_refl 0) H2))))).
Defined.

Lemma android_mk_is_written_witness :
  Runs (androidMkText sampleRootOption (fun _ => "vendor/") samplePath sampleString
          pkgD elements (fun _ => []) (fun l => l) pkgA "hidl-gen" diamond [unitA]
          (list_to_set [pkgB; pkgC; pkgD] ∪ ∅) None true false) 0 0.
Proof.
  assert (H2 : (0 + 2 < SIZE_MOD)%Z) by reflexivity.
  assert (Hg : gather diamond [unitA] (mkGathered None ∅ [])
               = Ok (mkGathered None (list_to_set [pkgB; pkgC; pkgD] ∪ ∅) []))
    by (vm_compute; reflexivity).
  exact (proj1 (android_mk_is_written sampleRootOption (fun _ => "vendor/") samplePath
                  sampleString pkgD elements (fun _ => []) (fun l => l) pkgA "hidl-gen"
                  diamond [unitA] _ true false 0 Hg (Z.le_refl 0) H2)).
Defined.

Lemma androidbp_gen_section_balanced_witness :
  Runs (generateAndroidBpGenSection sampleRootOption sampleString pkgD elements pkgFoo
          "hidl-gen" "foo_hal" "foo_genc++" "c++-sources" [fooIFoo; fooIBar] ∅
          (fun fqName => shl (name fqName))) 0 0.
Proof.
  assert (H2 : (0 + 2 < SIZE_MOD)%Z) by reflexivity.
  destruct (androidbp_gen_section_balanced sampleRootOption sampleString pkgD elements
              pkgFoo "hidl-gen" "foo_hal" "foo_genc++" "c++-sources" [fooIFoo; fooIBar] ∅
              0 (Z.le_refl 0) H2) as (opening & closing & _ & _ & _ & Hbalanced).
  exact (Hbalanced (fun fqName => shl (name fqName))
           (fun fqName _ => Runs_shl (name fqName) (0 + 2))).
Defined.

Lemma export_header_outcomes_witness :
  generateExportHeaderForPackage sampleRootOption sampleString package package
    (fun s => s) (fun type _ => shl type) sampleSink (fun _ => true) true pkgFoo
    "hidl-gen" typedefsOnly "out/" ∅
  = (Return OK, ∅).
Proof.
  assert (Hg : gather typedefsOnly [fooTypes] (mkGathered None ∅ [])
               = Ok (mkGathered (Some aliasesOnly) ∅ []))
    by (vm_compute; reflexivity).
  assert (Hp : packages typedefsOnly !! pkgFoo = Some [fooTypes])
    by (vm_compute; reflexivity).
  pose proof (export_header_outcomes sampleRootOption sampleString package package
                (fun s => s) (fun type _ => shl type) sampleSink (fun _ => true) true
                pkgFoo "hidl-gen" "java-constants" typedefsOnly "out/" ∅ eq_refl eq_refl)
    as H.
  cbv zeta in H.
  exact (proj1 (proj2 (proj2 H) [fooTypes] _ Hp Hg) eq_refl).
Defined.

(** The Java constants of a package with one exported type, and the hash
    lines of a package whose second unit does not parse. *)
Example constants_are_written :
  generateExportHeaderForPackage sampleRootOption sampleString package package
    (fun s => s) (fun type _ => shl ("// " +:+ type +:+ nl)) sampleSink (fun _ => true)
    true pkgFoo "hidl-gen"
    (mkCoordinator {[ pkgFoo := [fooTypes] ]}
       {[ fooTypes := mkAST true [] [] ["Color"] [] ]}) "out/" ∅
  = (Return OK,
     {[ stream 3 :=
          "// This file is autogenerated by hidl-gen. Do not edit manually." +:+ nl
          +:+ "// Source: android.hardware.foo@1.0" +:+ nl
          +:+ "// Root: android.hardware.foo:roots" +:+ nl +:+ nl
          +:+ "package android.hardware.foo;" +:+ nl +:+ nl
          +:+ "public class Constants {" +:+ nl
          +:+ "    // Color" +:+ nl
          +:+ "}" +:+ nl ]}).
Proof. vm_compute. reflexivity. Qed.

Example hashes_stop_at_first_failure :
  generateHashOutput sampleString parse (fun ast => "0badc0de") pkgFoo "hidl-gen"
    halfParsed "" ∅
  = (UNKNOWN_ERROR, {[ stdout := "0badc0de android.hardware.foo@1.0" +:+ nl ]}).
Proof. vm_compute. reflexivity. Qed.

(** * The argument list of the adapter's main *)

Section AdapterMain.

Variable cppName : FQName -> string.

Lemma adapterArguments_texts members st :
  adapterArguments cppName members st = Some (shl_all st (argumentTexts cppName members)).
Proof.
  revert st. induction members as [|i rest IH]; intros st; [reflexivity|].
  cbn [adapterArguments argumentTexts].
  destruct (String.eqb (name i) "types"); [apply IH|].
  cbn [steps]. unfold shl at 1.
  destruct (bool_decide (rest = [])); cbn [negb when steps app].
  - rewrite IH. reflexivity.
  - unfold shl at 1. rewrite IH. reflexivity.
Qed.

Lemma argumentTexts_types_last members t :
  name t = "types" ->
  argumentTexts cppName (members ++ [t])
  = withCommas (map cppName (filter (fun q => name q <> "types") (members ++ [t]))).
Proof.
  intros Ht. induction members as [|i rest IH].
  - cbn [app argumentTexts].
    rewrite filter_cons_False by (intros H; apply H; exact Ht).
    rewrite Ht. reflexivity.
  - cbn [app argumentTexts]. destruct (String.eqb_spec (name i) "types") as [Hi|Hi].
    + rewrite filter_cons_False by (intros H; apply H; exact Hi). exact IH.
    + rewrite filter_cons_True by exact Hi.
      rewrite bool_decide_eq_false_2 by (destruct rest; discriminate).
      rewrite IH. reflexivity.
Qed.

Lemma argumentTexts_interface_last members m :
  name m <> "types" ->
  argumentTexts cppName (members ++ [m])
  = removelast
      (withCommas (map cppName (filter (fun q => name q <> "types") (members ++ [m])))).
Proof.
  intros Hm. induction members as [|i rest IH].
  - cbn [app argumentTexts]. rewrite (proj2 (String.eqb_neq _ _) Hm).
    rewrite filter_cons_True by exact Hm. reflexivity.
  - cbn [app argumentTexts]. destruct (String.eqb_spec (name i) "types") as [Hi|Hi].
    + rewrite filter_cons_False by (intros H; apply H; exact Hi). exact IH.
    + rewrite filter_cons_True by exact Hi.
      rewrite bool_decide_eq_false_2 by (destruct rest; discriminate).
      rewrite IH. cbn [map withCommas concat app].
      fold (withCommas (map cppName (filter (fun q => name q <> "types") (rest ++ [m])))).
      destruct (withCommas (map cppName (filter (fun q => name q <> "types")
                                           (rest ++ [m])))) eqn:E; [|reflexivity].
      exfalso. rewrite filter_app, filter_cons_True, map_app in E by exact Hm.
      unfold withCommas in E. rewrite map_app, concat_app in E.
      apply app_eq_nil in E as [_ E]. discriminate E.
Qed.

(** X24: the template arguments of the adapter's [main] are the names of the
    package's interfaces in enumeration order, the types unit left out. When
    the enumeration ends with an interface the names are separated by a
    comma and a newline; when it ends with the types unit the last name is
    followed by the separator as well. *)
Theorem adapter_arguments_separated (members : list FQName)
    (st : Formatter * Streams) :
  let names := map cppName (filter (fun q => name q <> "types") members) in
  (members = [] -> adapterArguments cppName members st = Some st)
  /\ (forall m, last members = Some m -> name m <> "types" ->
        adapterArguments cppName members st
        = Some (shl_all st (removelast (withCommas names))))
  /\ (forall m, last members = Some m -> name m = "types" ->
        adapterArguments cppName members st = Some (shl_all st (withCommas names))).
Proof.
  cbv zeta. rewrite adapterArguments_texts. split; [|split].
  - intros ->. reflexivity.
  - intros m Hlast Hm. apply last_Some in Hlast as [l' ->].
    rewrite argumentTexts_interface_last by exact Hm. reflexivity.
  - intros m Hlast Hm. apply last_Some in Hlast as [l' ->].
    rewrite argumentTexts_types_last by exact Hm. reflexivity.
Qed.

End AdapterMain.

(** A package enumerated as an interface followed by its types unit. *)
Example adapter_arguments_dangle :
  (fun st => snd <$> st) (adapterArguments name [fooIFoo; fooIBar; fooTypes]
                            (Formatter_ctor (Some (stream 3)), ∅))
  = Some {[ stream 3 := "IFoo," +:+ nl +:+ "IBar," +:+ nl ]}.
Proof. vm_compute. reflexivity. Qed.

(** * The makefile backend end to end *)

Section MakefileEndToEnd.

Variable getPackageRootOption : FQName -> string.
Variable convertPackageRootToPath : FQName -> string.
Variable getPackagePath : FQName -> bool -> bool -> string.
Variable FQName_string : FQName -> string.
Variable gIBaseFqName : FQName.
Variable inOrder : gset FQName -> list FQName.
Variable getImportedNames : AST -> list FQName.
Variable sortByFqName : list NamedType -> list NamedType.
Variable getFormatter :
  Coordinator -> string -> FQName -> Location -> string -> Streams -> Formatter * Streams.
Variable Formatter_isValid : Formatter -> bool.

Local Abbreviation backend :=
  (makefileBackend getPackageRootOption convertPackageRootToPath getPackagePath
     FQName_string gIBaseFqName inOrder getImportedNames sortByFqName getFormatter
     Formatter_isValid).

Local Abbreviation mkText :=
  (androidMkText getPackageRootOption convertPackageRootToPath getPackagePath
     FQName_string gIBaseFqName inOrder getImportedNames sortByFqName).

(** X25: the makefile backend with its text filled in, for a request that
    passed [main]'s checks on a package whose units, at least one, all
    parse. It hands back the status of the Java-compatibility check when
    that fails, and returns OK with all streams as they were when the package
    is neither Java compatible nor has exported constants, or needs no Java
    code. Otherwise it opens Android.mk: on an invalid emitter it returns
    UNKNOWN_ERROR; on a valid one, with two more levels fitting a [size_t],
    no [CHECK] fails, the status is OK and the streams are those the text of
    Android.mk leaves, which only grew the emitter's stream; on an emitter as
    the constructor leaves it, that stream grew by the banner and the
    [LOCAL_PATH] line, a body, and the line that includes the makefiles
    below. *)
Theorem makefile_touches_only_its_sink (fuel : nat) (packageFQName : FQName)
    (hidl_gen : string) (c : Coordinator) (outputPath : string) (io : Streams)
    (members : list FQName) (g : Gathered) :
  isValid packageFQName = true -> validateIsPackage packageFQName "makefile" = true ->
  closureFuel c packageFQName <= fuel ->
  packages c !! packageFQName = Some members -> members <> [] ->
  gather c members (mkGathered None ∅ []) = Ok g ->
  let run := backend fuel packageFQName hidl_gen c outputPath io in
  let haveJavaConstants := negb (bool_decide (gatheredTypes g = [])) in
  let out := fst (getFormatter c outputPath packageFQName PACKAGE_ROOT "Android.mk" io) in
  let io1 := snd (getFormatter c outputPath packageFQName PACKAGE_ROOT "Android.mk" io) in
  exists compatibility,
    isPackageJavaCompatible fuel c packageFQName = Some compatibility
    /\ match compatibility with
       | Err err => run = Some (Return err, io)
       | Ok packageIsJavaCompatible =>
           exists needed,
             packageNeedsJavaCode members (typesAST g) = Some needed
             /\ if (packageIsJavaCompatible || haveJavaConstants) && needed
                then
                  (Formatter_isValid out = false ->
                   run = Some (Return UNKNOWN_ERROR, io1))
                  /\ (Formatter_isValid out = true ->
                      (0 <= mIndentDepth out)%Z -> (mIndentDepth out + 2 < SIZE_MOD)%Z ->
                      exists st',
                        mkText packageFQName hidl_gen c members (importedPackages g)
                          (typesAST g) packageIsJavaCompatible haveJavaConstants
                          (out, io1)
                        = Some st'
                        /\ run = Some (Return OK, snd st')
                        /\ (exists text, snd st' = fputs text (mFile out) io1)
                        /\ (forall file, out = Formatter_ctor file ->
                              exists body,
                                snd st'
                                = append_bytes
                                    (androidMkBanner +:+ body +:+ androidMkClosing)
                                    (mFile out) io1))
                else run = Some (Return OK, io)
       end.
Proof.
  intros Hv Hok Hfuel Hp Hne Hg run haveJavaConstants out io1.
  assert (Hentry : negb (isValid packageFQName && negb (isFullyQualified packageFQName)
                         && empty (name packageFQName)) = false).
  { unfold validateIsPackage in Hok. unfold isFullyQualified. rewrite Hv.
    destruct (empty (package packageFQName)); [discriminate|].
    destruct (empty (version packageFQName)); [discriminate|].
    destruct (empty (name packageFQName)); [reflexivity | discriminate]. }
  assert (Hparse := gather_parses _ _ _ _ Hg).
  assert (Htypes : (exists m, m ∈ members /\ name m = "types") -> is_Some (typesAST g)).
  { intros H. apply (gather_types _ _ _ _ Hg). right. exact H. }
  destruct (javaCompatibleRun_returns c packageFQName fuel Hfuel) as (r & wl & Hrun & _).
  assert (Hcompat : isPackageJavaCompatible fuel c packageFQName = Some r).
  { unfold isPackageJavaCompatible. rewrite Hrun. reflexivity. }
  exists r. split; [exact Hcompat|].
  subst run. unfold makefileBackend. rewrite Hentry, enumerate_spec, Hp, Hg, Hcompat.
  destruct r as [compatible|e]; [|reflexivity].
  assert (exists needed, packageNeedsJavaCode members (typesAST g) = Some needed)
    as [needed Hneed].
  { destruct (packageNeedsJavaCode members (typesAST g)) as [needed|] eqn:Hneed; [eauto|].
    exfalso. unfold packageNeedsJavaCode in Hneed.
    destruct members as [|first rest]; [contradiction|].
    destruct (_ || _) eqn:Hcond; [discriminate|].
    apply orb_false_iff in Hcond as [_ Hn]. apply negb_false_iff, String.eqb_eq in Hn.
    assert (is_Some (typesAST g)) as [ast Hast].
    { apply Htypes. exists first. split; [left | exact Hn]. }
    rewrite Hast in Hneed. discriminate. }
  exists needed. split; [exact Hneed|]. rewrite Hneed.
  fold haveJavaConstants.
  replace (negb compatible && negb haveJavaConstants)
    with (negb (compatible || haveJavaConstants)) by apply negb_orb.
  destruct (compatible || haveJavaConstants); cbn [negb andb]; [|reflexivity].
  destruct needed; [|reflexivity].
  subst out io1.
  destruct (getFormatter c outputPath packageFQName PACKAGE_ROOT "Android.mk" io)
    as [out io1]. cbn [fst snd]. split.
  - intros ->. reflexivity.
  - intros -> H0 H2. cbn [negb].
    destruct (Runs_mkText getPackageRootOption convertPackageRootToPath
                getPackagePath FQName_string gIBaseFqName inOrder getImportedNames
                sortByFqName packageFQName hidl_gen c members (importedPackages g)
                (typesAST g) compatible haveJavaConstants (mIndentDepth out)
                Hparse Htypes H0 H2 (out, io1) eq_refl) as (b & text & Hmk).
    rewrite Hmk. eexists. split; [reflexivity|]. cbn [snd].
    split; [reflexivity|]. split; [exists text; reflexivity|].
    intros file ->.
    destruct (mkText_framed getPackageRootOption convertPackageRootToPath
                getPackagePath FQName_string gIBaseFqName inOrder getImportedNames
                sortByFqName packageFQName hidl_gen c members (importedPackages g)
                (typesAST g) compatible haveJavaConstants file io1 Hparse Htypes)
      as [body Hbody].
    exists body. rewrite Hbody in Hmk.
    pose proof (f_equal (fun o : option (Formatter * Streams) =>
                           match o with Some st => snd st | None => io1 end) Hmk) as E.
    cbn [snd] in E. symmetry. exact E.
Qed.

End MakefileEndToEnd.

Lemma makefile_touches_only_its_sink_witness :
  exists body,
    makefileBackend sampleRootOption (fun _ => "vendor/") samplePath sampleString pkgD
      elements (fun _ => []) (fun l => l) sampleSink (fun _ => true) 5 pkgA "hidl-gen"
      cycle "out/" ∅
    = Some (Return OK,
            append_bytes (androidMkBanner +:+ body +:+ androidMkClosing) (stream 3)
              (<[stream 3 := ""]> ∅)).
Proof.
  assert (Hfuel : closureFuel cycle pkgA <= 5)
    by (apply Nat.leb_le; vm_compute; reflexivity).
  assert (Hp : packages cycle !! pkgA = Some [unitA]) by (vm_compute; reflexivity).
  assert (Hg : gather cycle [unitA] (mkGathered None ∅ [])
               = Ok (mkGathered None (list_to_set [pkgB] ∪ ∅) []))
    by (vm_compute; reflexivity).
  pose proof (makefile_touches_only_its_sink sampleRootOption (fun _ => "vendor/")
                samplePath sampleString pkgD elements (fun _ => []) (fun l => l)
                sampleSink (fun _ => true) 5 pkgA "hidl-gen" cycle "out/" ∅ [unitA] _
                eq_refl eq_refl Hfuel Hp ltac:(discriminate) Hg) as H.
  cbv zeta in H. destruct H as (compatibility & Hc & H).
  vm_compute in Hc. injection Hc as <-.
  destruct H as (needed & Hn & H). vm_compute in Hn. injection Hn as <-.
  cbn [orb andb fst snd sampleSink] in H.
  destruct (proj2 H eq_refl ltac:(reflexivity) ltac:(reflexivity))
    as (st' & _ & Hrun & _ & Hframe).
  destruct (Hframe (Some (stream 3)) eq_refl) as [body Hbody].
  exists body. rewrite Hrun, Hbody. reflexivity.
Defined.

(** * Elision and the start of a line *)

Section ElidedChunk.

Lemma prefix_refl s : String.prefix s s = true.
Proof.
  induction s as [|c s IH]; [reflexivity|]. cbn [String.prefix].
  destruct (ascii_dec c c); [exact IH | contradiction].
Qed.

Lemma deleteFrom_self tok : tok <> "" -> deleteFrom tok 0 tok = "".
Proof.
  destruct tok as [|c t]; [contradiction|]. intros _.
  cbn [deleteFrom]. rewrite prefix_refl, deleteFrom_skip.
  rewrite drop_ge by (cbn [String.length]; lia). reflexivity.
Qed.

(** X26: the line lead is printed before the elision token is deleted. At
    an indentation whose width fits an [int], a write that consists of the
    token alone, at the start of a line, still prints the line prefix, up to
    its first NUL, and four blanks per level, and the emitter is no longer
    at the start of the line although no character of the text came out; in
    the middle of a line the same write changes nothing. *)
Theorem elided_chunk_keeps_lead (f : Formatter) (io : Streams) :
  mSpace f <> "" -> find (mSpace f) nl 0 = None ->
  (0 <= mIndentDepth f)%Z -> (4 * mIndentDepth f <= INT_MAX)%Z ->
  operator_shl (f, io) (mSpace f)
  = (setAtStartOfLine false f,
     if mAtStartOfLine f
     then append_bytes (c_str (mLinePrefix f) +:+ spaces (4 * Z.to_nat (mIndentDepth f)))
            (mFile f) io
     else io).
Proof.
  intros Hne Hnl H0 H1.
  rewrite operator_shl_chunks, (chunks_no_newline _ Hnl Hne).
  cbn [renderChunks]. rewrite (endsWithNewline_no_newline _ Hnl).
  destruct (decide (mSpace f = nl)) as [E|_].
  { rewrite E in Hnl. discriminate Hnl. }
  unfold printed, deleteAll. destruct (decide (mSpace f = "")); [contradiction|].
  rewrite (deleteFrom_self _ Hne), (line_lead_small f H0 H1).
  unfold written. cbn [fst snd c_str].
  destruct (mAtStartOfLine f).
  - rewrite !append_nil_r. reflexivity.
  - reflexivity.
Qed.

End ElidedChunk.

Lemma elided_chunk_keeps_lead_witness :
  operator_shl
    (setNamespace "foo::"
       (setLinePrefix ("// " +:+ String NUL "x") (indent 1 (Formatter_ctor (Some (stream 3))))),
     ∅) "foo::"
  = (setAtStartOfLine false
       (setNamespace "foo::"
          (setLinePrefix ("// " +:+ String NUL "x")
             (indent 1 (Formatter_ctor (Some (stream 3)))))),
     {[ stream 3 := "//     " ]}).
Proof.
  exact (elided_chunk_keeps_lead
           (setNamespace "foo::"
              (setLinePrefix ("// " +:+ String NUL "x")
                 (indent 1 (Formatter_ctor (Some (stream 3)))))) ∅
           ltac:(discriminate) eq_refl ltac:(vm_compute; discriminate)
           ltac:(vm_compute; discriminate)).
Defined.

(** * The command line and the Soong boilerplate on examples *)

Example output_paths :
  prepareOutputPath NEEDS_DIR "" "out" = goes_on "out/"
  /\ prepareOutputPath NEEDS_DIR "" "out/" = goes_on "out/"
  /\ prepareOutputPath NEEDS_FILE "" "out" = goes_on "out"
  /\ prepareOutputPath NEEDS_FILE "/src" "" = usage_exit
  /\ prepareOutputPath NEEDS_SRC "/src" "" = goes_on "/src/"
  /\ prepareOutputPath NEEDS_SRC "" "" = undefined
  /\ prepareOutputPath NOT_NEEDED "/src" "out" = goes_on "".
Proof. repeat split. Qed.

(** A Coordinator that keeps the roots it is given and refuses a root it
    already has, with realpath(3) failing on every path. *)
Example root_options :
  let add root path (roots : list (string * string)) :=
    if existsb (fun known => String.eqb (fst known) root) roots
    then (UNKNOWN_ERROR, roots) else (OK, roots ++ [(root, path)]) in
  let option_r := main_option_r (fun _ => None) add in
  option_r "android.hardware:hardware/interfaces" []
  = option_break [("android.hardware", "hardware/interfaces")]
  /\ option_r "vendor:a:b" [] = option_break [("vendor", "a:b")]
  /\ option_r "vendor" [] = option_exit 1
  /\ option_r "vendor:b" [("vendor", "a")] = option_exit 1.
Proof. repeat split. Qed.

Example soong_boilerplate :
  let quoted text := dquote +:+ text +:+ dquote in
  generateAndroidBpImplForPackage sampleString name pkgB pkgC elements sampleSink
    (fun _ => true) pkgD "hidl-gen" diamond "out/" ∅
  = (Return OK,
     {[ stream 3 :=
          "cc_library_shared {" +:+ nl
          +:+ "    name: " +:+ quoted "vendor.d@1.0-impl" +:+ "," +:+ nl
          +:+ "    relative_install_path: " +:+ quoted "hw" +:+ "," +:+ nl
          +:+ "    proprietary: true," +:+ nl
          +:+ "    srcs: [" +:+ nl
          +:+ "        " +:+ quoted "ID.cpp" +:+ "," +:+ nl
          +:+ "    ]," +:+ nl
          +:+ "    shared_libs: [" +:+ nl
          +:+ "        " +:+ quoted "libhidlbase" +:+ "," +:+ nl
          +:+ "        " +:+ quoted "libhidltransport" +:+ "," +:+ nl
          +:+ "        " +:+ quoted "libutils" +:+ "," +:+ nl
          +:+ "        " +:+ quoted "vendor.d@1.0" +:+ "," +:+ nl
          +:+ "    ]," +:+ nl
          +:+ "}" +:+ nl ]}).
Proof. vm_compute. reflexivity. Qed.
